(** * SearchBox.jsx: the request coordinator of cf_visualiser

    A shallow embedding of [src/components/SearchBox.jsx]: the response
    validator [validateResponse] and the submit handler [handleSearch], run
    by an event loop that delivers form submissions, network responses and
    timer expiries one macrotask at a time, and the element the component
    renders from its state.

    Conventions.
    - Strings are [string]; one character of the model stands for one code
      unit of the JavaScript string, of those below 256.
    - JSON payloads are [jsval]; numbers are the integral ones, [JNum z]
      being the Number value for [z], the double nearest to it.
    - [handleSearch] is an async function: each [await] ends a segment.  A
      suspended invocation is a [task] that records the stage, what it waits
      for and the locals it still needs.
    - Every AbortController the component creates is numbered: 0 is the one
      of [useRef], submission [k] (k = 1, 2, ...) creates number [k].  A
      submission, its controller and its two timers share that number.
    - Time is counted in milliseconds; [Elapse n] lets [n] of them pass, and
      each one runs the callbacks of the timers that fall due. *)

From Stdlib Require Import List String Ascii Bool Arith NArith ZArith Lia.
From Stdlib Require Import DecimalString.
Import ListNotations.
Local Open Scope string_scope.
Local Open Scope nat_scope.
Set Warnings "-register-all".

(** ** JavaScript values and the string methods the component calls *)

Module JS.

Inductive jsval : Type :=
| JUndefined
| JNull
| JBool (b : bool)
| JNum (z : Z)
| JStr (s : string)
| JArr (items : list jsval)
| JObj (fields : list (string * jsval)).

(** A thrown value: every throw in the component is an [Error] object (or a
    DOMException), of which the catch block reads [name] and [message]. *)
Record js_error : Type := mkError { name : string; message : string }.

Definition Error (msg : string) : js_error := mkError "Error" msg.
Definition TypeError (msg : string) : js_error := mkError "TypeError" msg.
Definition SyntaxError (msg : string) : js_error := mkError "SyntaxError" msg.
Definition AbortError : js_error :=
  mkError "AbortError" "The user aborted a request.".

(** [s.startsWith(p)] *)
Definition startsWith (p s : string) : bool := String.prefix p s.

(** [s.includes(needle)] *)
Fixpoint includes (needle s : string) : bool :=
  String.prefix needle s ||
  match s with
  | EmptyString => false
  | String _ rest => includes needle rest
  end.

(** [s.slice(0, n)] *)
Definition slice0 (n : nat) (s : string) : string := String.substring 0 n s.

(** White space and line terminators as [trim] sees them, among the code
    units below 256: TAB, LF, VT, FF, CR, SP and NBSP. *)
Definition is_space (c : ascii) : bool :=
  let n := nat_of_ascii c in
  ((9 <=? n) && (n <=? 13)) || (n =? 32) || (n =? 160).

Fixpoint trimStart (s : string) : string :=
  match s with
  | EmptyString => EmptyString
  | String c rest => if is_space c then trimStart rest else s
  end.

Fixpoint trimEnd (s : string) : string :=
  match s with
  | EmptyString => EmptyString
  | String c rest =>
      match trimEnd rest with
      | EmptyString => if is_space c then EmptyString else String c EmptyString
      | kept => String c kept
      end
  end.

(** [s.trim()] *)
Definition trim (s : string) : string := trimEnd (trimStart s).

(** ToBoolean *)
Definition truthy (v : jsval) : bool :=
  match v with
  | JUndefined | JNull => false
  | JBool b => b
  | JNum z => negb (z =? 0)%Z
  | JStr s => negb (String.eqb s "")
  | JArr _ | JObj _ => true
  end.

(** [a || b] *)
Definition or_else (a b : jsval) : jsval := if truthy a then a else b.

(** The Number value for the integer [n > 0]: the double nearest to it,
    ties going to the even significand, or [None] when that is Infinity. *)
Definition nearest_double (n : Z) : option Z :=
  let e := (Z.log2 n - 52)%Z in
  if (e <=? 0)%Z then Some n
  else
    let q := Z.shiftr n e in
    let r := Z.land n (Z.ones e) in
    let half := Z.shiftl 1 (e - 1) in
    let q' :=
      if (half <? r)%Z || ((r =? half)%Z && Z.odd q) then (q + 1)%Z else q in
    let x := Z.shiftl q' e in
    if (Z.shiftl 1 1024 <=? x)%Z then None else Some x.

(** The multiple of the highest power of ten, [10^p] or a lower one, that
    rounds to the double [x], the nearest to [x] when there are two; with
    it, the exponent of that power.  [lo2] and [hi2] are twice the bounds
    of what rounds to [x]; the bounds themselves do when the significand
    of [x] is even ([closed]). *)
Fixpoint shortest (p : nat) (x lo2 hi2 : Z) (closed : bool) : Z * nat :=
  let t := (10 ^ Z.of_nat p)%Z in
  let c1 := (x / t * t)%Z in
  let c2 := (c1 + t)%Z in
  let inside v :=
    if closed then (lo2 <=? 2 * v)%Z && (2 * v <=? hi2)%Z
    else (lo2 <? 2 * v)%Z && (2 * v <? hi2)%Z in
  let nearest :=
    if (x - c1 <? c2 - x)%Z then c1
    else if (c2 - x <? x - c1)%Z then c2
    else if Z.even (c1 / t) then c1 else c2 in
  match inside c1, inside c2 with
  | true, true => (nearest, p)
  | true, false => (c1, p)
  | false, true => (c2, p)
  | false, false =>
      match p with
      | O => (x, O)
      | S p' => shortest p' x lo2 hi2 closed
      end
  end.

Definition decimal (z : Z) : string := NilZero.string_of_int (Z.to_int z).

(** The decimal with the fewest digits that denotes the double [x > 0], an
    integer: [x] itself below [2^53]; above, what rounds to [x] lies half
    way to the doubles next to it, the one below being half as far when
    [x] is a power of two. *)
Definition shortest_digits (x : Z) : Z * nat :=
  let e := (Z.log2 x - 52)%Z in
  if (e <=? 0)%Z then (x, O)
  else
    let m := Z.shiftr x e in
    let below :=
      if (m =? Z.shiftl 1 52)%Z then Z.shiftl 1 (e - 1) else Z.shiftl 1 e in
    shortest (String.length (decimal x)) x
             (2 * x - below) (2 * x + Z.shiftl 1 e) (Z.even m).

(** How Number::toString writes the digits of [v / 10^p] followed by [p]
    zeros: in full when they are 21 or fewer, with an exponent otherwise. *)
Definition show_digits (v : Z) (p : nat) : string :=
  let digits := decimal (v / 10 ^ Z.of_nat p) in
  let n := String.length digits + p in
  if n <=? 21 then decimal v
  else
    match digits with
    | EmptyString => EmptyString
    | String d EmptyString => String d ("e+" ++ decimal (Z.of_nat (n - 1)))
    | String d rest =>
        String d ("." ++ rest ++ "e+" ++ decimal (Z.of_nat (n - 1)))
    end.

(** Number::toString, of the Number value for [z]. *)
Definition number_toString (z : Z) : string :=
  if (z =? 0)%Z then "0"
  else
    (if (z <? 0)%Z then "-" else "") ++
    match nearest_double (Z.abs z) with
    | None => "Infinity"
    | Some x => let (v, p) := shortest_digits x in show_digits v p
    end.

(** ToString, as [new Error(v)] applies it to its argument. *)
Fixpoint to_string (v : jsval) : string :=
  match v with
  | JUndefined => "undefined"
  | JNull => "null"
  | JBool true => "true"
  | JBool false => "false"
  | JNum z => number_toString z
  | JStr s => s
  | JArr items =>
      (fix join (l : list jsval) : string :=
         match l with
         | [] => ""
         | x :: rest =>
             let shown :=
               match x with
               | JUndefined | JNull => ""
               | _ => to_string x
               end in
             match rest with
             | [] => shown
             | _ :: _ => shown ++ "," ++ join rest
             end
         end) items
  | JObj _ => "[object Object]"
  end.

Fixpoint lookup (key : string) (fields : list (string * jsval)) : jsval :=
  match fields with
  | [] => JUndefined
  | (k, v) :: rest => if String.eqb k key then v else lookup key rest
  end.

(** [v.key] for the keys the component reads ([status], [comment],
    [result]): reading a property of [null] or [undefined] throws, an object
    answers with its field, any other value has no such property. *)
Definition get_prop (v : jsval) (key : string) : js_error + jsval :=
  match v with
  | JUndefined =>
      inl (TypeError ("Cannot read properties of undefined (reading '" ++ key ++ "')"))
  | JNull =>
      inl (TypeError ("Cannot read properties of null (reading '" ++ key ++ "')"))
  | JObj fields => inr (lookup key fields)
  | _ => inr JUndefined
  end.

(** [v[0]] *)
Definition get_index0 (v : jsval) : js_error + jsval :=
  match v with
  | JUndefined => inl (TypeError "Cannot read properties of undefined (reading '0')")
  | JNull => inl (TypeError "Cannot read properties of null (reading '0')")
  | JArr items => inr (nth 0 items JUndefined)
  | JStr (String c _) => inr (JStr (String c EmptyString))
  | JObj fields => inr (lookup "0" fields)
  | _ => inr JUndefined
  end.

(** [v !== "OK"] and the like *)
Definition strict_neq_str (v : jsval) (lit : string) : bool :=
  match v with
  | JStr s => negb (String.eqb s lit)
  | _ => true
  end.

End JS.
Import JS.

(** ** The component *)

Module SearchBox.

(** The three lookups, in the order [handleSearch] performs them. *)
Inductive stage : Type := UserInfo | UserRating | UserStatus.

Definition endpoint (st : stage) : string :=
  match st with
  | UserInfo => "user.info?handles="
  | UserRating => "user.rating?handle="
  | UserStatus => "user.status?handle="
  end.

Definition stage_eqb (a b : stage) : bool :=
  match a, b with
  | UserInfo, UserInfo | UserRating, UserRating | UserStatus, UserStatus => true
  | _, _ => false
  end.

(** What a suspended [handleSearch] waits for: the promise of [fetch], or the
    body of the response ([response.text()] or [response.json()] inside
    [validateResponse]) whose content-type header it has seen. *)
Inductive await_point : Type :=
| AwaitFetch
| AwaitBody (contentType : option string).

Record task : Type := mkTask {
  t_sub : nat;            (* the submission *)
  t_stage : stage;
  t_await : await_point;
  t_signal : nat;         (* the controller whose signal the fetch was given *)
  t_base : string;        (* API_BASE *)
  t_query : string        (* searchValue *)
}.

Inductive timer_kind : Type :=
| AbortTimer              (* line 51: the timeout of the request *)
| HideTimer.              (* line 96: hides the error *)

Record timer : Type := mkTimer {
  tm_sub : nat;
  tm_kind : timer_kind;
  tm_due : N
}.

(** What the component does that can be observed from outside. *)
Inductive action : Type :=
| CallAbort (controller : nat)
| SetLoader (b : bool)
| SetShowError (b : bool)
| SetErrorMessage (msg : string)
| SetUserInfo (v : jsval)
| SetUserRatings (v : jsval)
| SetUserProblems (v : jsval)
| CallFetch (url : string) (signal : nat)
| CallSetTimeout (kind : timer_kind) (due : N)
| CallClearTimeout
| Uncaught (e : js_error).

Record entry : Type := mkEntry {
  e_time : N;
  e_sub : nat;            (* the submission whose code performed the action *)
  e_act : action
}.

(** The state the setters write: three slots of the parent and the three
    [useState] cells of the component. *)
Record ui_state : Type := mkUi {
  loader : bool;
  showError : bool;
  errorMessage : string;
  userInfo : jsval;
  userRatings : jsval;
  userProblems : jsval
}.

Record state : Type := mkState {
  clock : N;
  current : nat;                       (* abortControllerRef.current *)
  aborted : list nat;                  (* controllers whose signal is aborted *)
  timers : list timer;                 (* armed timers, oldest first *)
  tasks : list task;                   (* suspended invocations *)
  rejected : list (task * js_error);   (* rejections waiting for their microtask *)
  ui : ui_state;
  log : list entry                     (* newest first *)
}.

Definition initial (info ratings problems : jsval) : state :=
  {| clock := 0; current := 0; aborted := []; timers := []; tasks := [];
     rejected := [];
     ui := {| loader := false; showError := false; errorMessage := "";
              userInfo := info; userRatings := ratings;
              userProblems := problems |};
     log := [] |}.

(** *** Primitive state changes *)

Definition with_ui (f : ui_state -> ui_state) (s : state) : state :=
  mkState (clock s) (current s) (aborted s) (timers s) (tasks s) (rejected s)
          (f (ui s)) (log s).

Definition with_timers (f : list timer -> list timer) (s : state) : state :=
  mkState (clock s) (current s) (aborted s) (f (timers s)) (tasks s)
          (rejected s) (ui s) (log s).

Definition with_tasks (f : list task -> list task) (s : state) : state :=
  mkState (clock s) (current s) (aborted s) (timers s) (f (tasks s))
          (rejected s) (ui s) (log s).

Definition with_rejected (f : list (task * js_error) -> list (task * js_error))
  (s : state) : state :=
  mkState (clock s) (current s) (aborted s) (timers s) (tasks s)
          (f (rejected s)) (ui s) (log s).

Definition record (k : nat) (a : action) (s : state) : state :=
  mkState (clock s) (current s) (aborted s) (timers s) (tasks s) (rejected s)
          (ui s) (mkEntry (clock s) k a :: log s).

Definition setLoader (k : nat) (b : bool) (s : state) : state :=
  record k (SetLoader b)
    (with_ui (fun u => mkUi b (showError u) (errorMessage u) (userInfo u)
                            (userRatings u) (userProblems u)) s).

Definition setShowError (k : nat) (b : bool) (s : state) : state :=
  record k (SetShowError b)
    (with_ui (fun u => mkUi (loader u) b (errorMessage u) (userInfo u)
                            (userRatings u) (userProblems u)) s).

Definition setErrorMessage (k : nat) (m : string) (s : state) : state :=
  record k (SetErrorMessage m)
    (with_ui (fun u => mkUi (loader u) (showError u) m (userInfo u)
                            (userRatings u) (userProblems u)) s).

Definition setUserInfo (k : nat) (v : jsval) (s : state) : state :=
  record k (SetUserInfo v)
    (with_ui (fun u => mkUi (loader u) (showError u) (errorMessage u) v
                            (userRatings u) (userProblems u)) s).

Definition setUserRatings (k : nat) (v : jsval) (s : state) : state :=
  record k (SetUserRatings v)
    (with_ui (fun u => mkUi (loader u) (showError u) (errorMessage u)
                            (userInfo u) v (userProblems u)) s).

Definition setUserProblems (k : nat) (v : jsval) (s : state) : state :=
  record k (SetUserProblems v)
    (with_ui (fun u => mkUi (loader u) (showError u) (errorMessage u)
                            (userInfo u) (userRatings u) v) s).

Definition is_aborted (c : nat) (s : state) : bool :=
  existsb (Nat.eqb c) (aborted s).

(** [setTimeout(callback, delay)]; the timer of kind [kind] of submission
    [k] stands for the callback. *)
Definition setTimeout (k : nat) (kind : timer_kind) (delay : N) (s : state)
  : state :=
  let due := (clock s + delay)%N in
  record k (CallSetTimeout kind due)
    (with_timers (fun l => l ++ [mkTimer k kind due])%list s).

Definition is_abort_timer_of (k : nat) (tm : timer) : bool :=
  (tm_sub tm =? k) && match tm_kind tm with AbortTimer => true | HideTimer => false end.

(** [clearTimeout(timeoutId)], [timeoutId] being the timer of line 51 *)
Definition clearTimeout (k : nat) (s : state) : state :=
  record k CallClearTimeout
    (with_timers (filter (fun tm => negb (is_abort_timer_of k tm))) s).

(** [abortControllerRef.current.abort()], called by the code of submission
    [k]: the signal becomes aborted and every fetch or body read that was
    given this signal rejects with an AbortError. *)
Definition abort (k : nat) (s : state) : state :=
  let c := current s in
  let s1 := record k (CallAbort c) s in
  if is_aborted c s then s1
  else
    let hit := filter (fun t => t_signal t =? c) (tasks s) in
    let rest := filter (fun t => negb (t_signal t =? c)) (tasks s) in
    mkState (clock s1) (current s1) (c :: aborted s1) (timers s1) rest
            (rejected s1 ++ map (fun t => (t, AbortError)) hit)%list
            (ui s1) (log s1).

(** [abortControllerRef.current = new AbortController()] *)
Definition newController (k : nat) (s : state) : state :=
  mkState (clock s) k (aborted s) (timers s) (tasks s) (rejected s) (ui s)
          (log s).

(** *** Code that may throw *)

Definition M (A : Type) : Type := state -> (js_error + A) * state.

Definition ret {A} (a : A) : M A := fun s => (inr a, s).
Definition throw {A} (e : js_error) : M A := fun s => (inl e, s).
Definition bind {A B} (m : M A) (f : A -> M B) : M B :=
  fun s => match m s with
           | (inl e, s') => (inl e, s')
           | (inr a, s') => f a s'
           end.
Definition does (f : state -> state) : M unit := fun s => (inr tt, f s).
Definition lift {A} (r : js_error + A) : M A := fun s => (r, s).

Notation "x <- m ;; k" := (bind m (fun x => k))
  (at level 61, m at next level, right associativity).
Notation "m ;; k" := (bind m (fun _ => k))
  (at level 61, right associativity).

(** The body of a response once it has been read: its text, and what
    [JSON.parse] makes of it (the message of the SyntaxError, or the
    value). *)
Record body : Type := mkBody { raw : string; json : string + jsval }.

(** Lines 13-26.  [contentType] is what [response.headers.get] returned. *)
Definition validateResponse (header : option string) (b : body)
  : js_error + jsval :=
  let contentType := match header with Some h => h | None => "" end in
  if negb (includes "application/json" contentType) then
    let text := raw b in
    inl (Error ("API returned non-JSON response: " ++ slice0 50 text ++ "..."))
  else
    match json b with
    | inl msg => inl (SyntaxError msg)
    | inr data =>
        match get_prop data "status" with
        | inl e => inl e
        | inr status =>
            if strict_neq_str status "OK" then
              match get_prop data "comment" with
              | inl e => inl e
              | inr comment =>
                  inl (Error (to_string (or_else comment (JStr "Unknown API error"))))
              end
            else inr data
        end
    end.

(** How a segment of [handleSearch] ends. *)
Inductive outcome : Type :=
| Done
| Await (t : task).

(** [await fetch(`${API_BASE}...${searchValue}`, { signal:
    abortControllerRef.current.signal })] *)
Definition fetch (k : nat) (st : stage) (API_BASE searchValue : string)
  : M outcome :=
  fun s =>
    let signal := current s in
    (inr (Await (mkTask k st AwaitFetch signal API_BASE searchValue)),
     record k (CallFetch (API_BASE ++ endpoint st ++ searchValue) signal) s).

(** Lines 44-48. *)
Definition check_config (env : option string) : M string :=
  match env with
  | None => throw (Error "API endpoint misconfigured. Check environment variables.")
  | Some API_BASE =>
      if String.eqb API_BASE "" || negb (startsWith "http" API_BASE)
      then throw (Error "API endpoint misconfigured. Check environment variables.")
      else ret API_BASE
  end.

Definition TIMEOUT : N := 10000.

(** Lines 44-59: the try block up to its first await. *)
Definition try_begin (k : nat) (env : option string) (searchValue : string)
  : M outcome :=
  API_BASE <- check_config env ;;
  does (setTimeout k AbortTimer TIMEOUT) ;;
  fetch k UserInfo API_BASE searchValue.

(** Lines 60-78: the try block from the await of a body on. *)
Definition try_resume (t : task) (header : option string) (b : body)
  : M outcome :=
  let k := t_sub t in
  data <- lift (validateResponse header b) ;;
  result <- lift (get_prop data "result") ;;
  match t_stage t with
  | UserInfo =>
      first <- lift (get_index0 result) ;;
      does (setUserInfo k first) ;;
      fetch k UserRating (t_base t) (t_query t)
  | UserRating =>
      does (setUserRatings k result) ;;
      fetch k UserStatus (t_base t) (t_query t)
  | UserStatus =>
      does (setUserProblems k result) ;;
      does (clearTimeout k) ;;
      does (setLoader k false) ;;
      ret Done
  end.

Definition NON_JSON_NOTICE : string :=
  "Received invalid response from Codeforces. Possible issues:" ++ String (ascii_of_nat 10) ""
  ++ "1. Codeforces API is down" ++ String (ascii_of_nat 10) ""
  ++ "2. Invalid handle" ++ String (ascii_of_nat 10) ""
  ++ "3. Rate limiting".

(** Lines 81-92. *)
Definition classify (error : js_error) : string :=
  if String.eqb (name error) "AbortError" then "Request cancelled"
  else if includes "non-JSON" (message error) then NON_JSON_NOTICE
  else message error.

(** Lines 79-97: the catch block. *)
Definition catch_block (k : nat) (error : js_error) (s : state) : state :=
  let s := setLoader k false s in
  let s := setErrorMessage k (classify error) s in
  let s := setShowError k true s in
  setTimeout k HideTimer TIMEOUT s.

(** An invocation that reaches an await is parked until the awaited promise
    settles; one given a signal that is already aborted rejects at once. *)
Definition park (t : task) (s : state) : state :=
  if is_aborted (t_signal t) s
  then with_rejected (fun l => l ++ [(t, AbortError)])%list s
  else with_tasks (fun l => l ++ [t])%list s.

(** try { segment } catch (error) { ... } *)
Definition try_catch (k : nat) (segment : M outcome) (s : state) : state :=
  match segment s with
  | (inr Done, s') => s'
  | (inr (Await t), s') => park t s'
  | (inl error, s') => catch_block k error s'
  end.

(** Lines 28-59: a form submission, up to the first await. *)
Definition handleSearch (env : option string) (input : string) (s : state)
  : state :=
  let k := S (current s) in
  let searchValue := trim input in
  let s := abort k s in
  let s := newController k s in
  let s := setLoader k true s in
  let s := setShowError k false s in
  let s := setUserInfo k JNull s in
  let s := setUserRatings k JNull s in
  let s := setUserProblems k JNull s in
  try_catch k (try_begin k env searchValue) s.

(** *** The event loop *)

Inductive event : Type :=
| Submit (env : option string) (input : string)
| Headers (k : nat) (st : stage) (contentType : option string)
| Body (k : nat) (st : stage) (b : body)
| NetworkError (k : nat) (st : stage) (msg : string)
| Elapse (ms : N).

Definition awaits_fetch (t : task) : bool :=
  match t_await t with AwaitFetch => true | AwaitBody _ => false end.

Definition is_call (k : nat) (st : stage) (t : task) : bool :=
  (t_sub t =? k) && stage_eqb (t_stage t) st.

Definition drop_call (k : nat) (st : stage) (s : state) : state :=
  with_tasks (filter (fun t => negb (is_call k st t))) s.

(** The rejections queued by an abort run their catch blocks once the
    running code has returned. *)
Definition drain (s : state) : state :=
  fold_left (fun s r => catch_block (t_sub (fst r)) (snd r) s) (rejected s)
            (with_rejected (fun _ => []) s).

Definition TIMED_OUT : js_error := Error "Request timed out (10 seconds)".

(** The callback of a timer: lines 51-54 and line 96. *)
Definition fire (tm : timer) (s : state) : state :=
  match tm_kind tm with
  | AbortTimer => record (tm_sub tm) (Uncaught TIMED_OUT) (abort (tm_sub tm) s)
  | HideTimer => setShowError (tm_sub tm) false s
  end.

Definition is_due (now : N) (tm : timer) : bool := (tm_due tm <=? now)%N.

(** One millisecond passes: the timers that fall due leave the list of armed
    timers ... *)
Definition advance (s : state) : state :=
  let now := (clock s + 1)%N in
  mkState now (current s) (aborted s)
          (filter (fun tm => negb (is_due now tm)) (timers s))
          (tasks s) (rejected s) (ui s) (log s).

(** ... and their callbacks run, oldest timer first, each one followed by
    the rejections it caused. *)
Definition fire_all (due : list timer) (s : state) : state :=
  fold_left (fun s tm => drain (fire tm s)) due s.

Definition tick (s : state) : state :=
  fire_all (filter (is_due (clock s + 1)%N) (timers s)) (advance s).

Definition deliver (e : event) (s : state) : state :=
  match e with
  | Submit env input => handleSearch env input s
  | Headers k st header =>
      match find (is_call k st) (tasks s) with
      | Some t =>
          if awaits_fetch t
          then park (mkTask (t_sub t) (t_stage t) (AwaitBody header)
                            (t_signal t) (t_base t) (t_query t))
                    (drop_call k st s)
          else s
      | None => s
      end
  | Body k st b =>
      match find (is_call k st) (tasks s) with
      | Some t =>
          match t_await t with
          | AwaitBody header =>
              try_catch k (try_resume t header b) (drop_call k st s)
          | AwaitFetch => s
          end
      | None => s
      end
  | NetworkError k st msg =>
      match find (is_call k st) (tasks s) with
      | Some t => catch_block k (TypeError msg) (drop_call k st s)
      | None => s
      end
  | Elapse ms => N.iter ms tick s
  end.

Definition step (e : event) (s : state) : state := drain (deliver e s).

Definition run (evs : list event) (s : state) : state :=
  fold_left (fun s e => step e s) evs s.

(** What lines 60-61, 67-68 and 74-75 hand to the setter of a stage, or the
    error they throw: the validated payload's [result], of which the profile
    stage takes element 0. *)
Definition reported (st : stage) (header : option string) (b : body)
  : js_error + jsval :=
  match validateResponse header b with
  | inl e => inl e
  | inr data =>
      match get_prop data "result" with
      | inl e => inl e
      | inr result =>
          match st with
          | UserInfo => get_index0 result
          | UserRating | UserStatus => inr result
          end
      end
  end.

(** *** Runs, and what holds in every state the component can be in *)

Inductive reachable : state -> Prop :=
| reach_initial info ratings problems : reachable (initial info ratings problems)
| reach_step e s : reachable s -> reachable (step e s).

(** An event is addressed to a call when that call is still awaited (and
    awaits what the event brings); the response to a call that was aborted
    or has failed is addressed to nobody. *)
Definition addressed (e : event) (s : state) : bool :=
  match e with
  | Submit _ _ | Elapse _ => true
  | Headers k st _ =>
      match find (is_call k st) (tasks s) with
      | Some t => awaits_fetch t
      | None => false
      end
  | Body k st _ =>
      match find (is_call k st) (tasks s) with
      | Some t => negb (awaits_fetch t)
      | None => false
      end
  | NetworkError k st _ =>
      match find (is_call k st) (tasks s) with
      | Some _ => true
      | None => false
      end
  end.

(** Every event of the run reached the call it was meant for. *)
Fixpoint accepted (evs : list event) (s : state) : bool :=
  match evs with
  | [] => true
  | e :: rest => addressed e s && accepted rest (step e s)
  end.

Definition is_submit (e : event) : bool :=
  match e with Submit _ _ => true | _ => false end.

(** At most one invocation is suspended, it belongs to the latest
    submission and holds the signal of the current controller, which is not
    aborted; its submission has no error timer yet. *)
Definition in_flight (s : state) (t : task) : Prop :=
  tasks s = [t] /\ t_sub t = current s /\ t_signal t = current s
  /\ is_aborted (current s) s = false
  /\ (forall tm, In tm (timers s) -> tm_sub tm = current s ->
      tm_kind tm = AbortTimer).

Record wf (s : state) : Prop := mkWf {
  wf_rejected : rejected s = [];
  wf_tasks : tasks s = [] \/ exists t, in_flight s t;
  wf_aborted : forall c, In c (aborted s) -> c <= current s;
  wf_timers : forall tm, In tm (timers s) ->
              (clock s < tm_due tm)%N /\ tm_sub tm <= current s;
  wf_distinct : NoDup (timers s);
  wf_log : forall en, In en (log s) ->
           e_sub en <= current s /\ (e_time en <= clock s)%N
}.

(** *** Vocabulary of the properties *)

Definition acts_of (k : nat) (l : list entry) : list action :=
  map e_act (filter (fun en => e_sub en =? k) (rev l)).

(** The actions of submission [k], oldest first. *)
Definition acts (k : nat) (s : state) : list action := acts_of k (log s).

(** The network calls made so far, oldest first: who called, and the URL. *)
Definition calls_of (l : list entry) : list (nat * string) :=
  flat_map (fun en => match e_act en with
                      | CallFetch url _ => [(e_sub en, url)]
                      | _ => []
                      end) (rev l).

Definition calls (s : state) : list (nat * string) := calls_of (log s).

(** The error messages submission [k] has set, oldest first. *)
Definition messages (k : nat) (s : state) : list string :=
  flat_map (fun a => match a with SetErrorMessage m => [m] | _ => [] end)
           (acts k s).

(** The log, oldest entry first: when, in whose name, what. *)
Definition history (s : state) : list (N * nat * action) :=
  map (fun en => (e_time en, e_sub en, e_act en)) (rev (log s)).

(** The three slots of the parent: profile, ratings, submissions. *)
Definition slots (s : state) : jsval * jsval * jsval :=
  (userInfo (ui s), userRatings (ui s), userProblems (ui s)).

Definition set_slot (st : stage) (v : jsval) (old : jsval * jsval * jsval)
  : jsval * jsval * jsval :=
  match old, st with
  | (_, r, p), UserInfo => (v, r, p)
  | (i, _, p), UserRating => (i, v, p)
  | (i, r, _), UserStatus => (i, r, v)
  end.

(** Lines 33-41, as the submission that replaces controller [c] performs
    them. *)
Definition reset_actions (c : nat) : list action :=
  [CallAbort c; SetLoader true; SetShowError false;
   SetUserInfo JNull; SetUserRatings JNull; SetUserProblems JNull].

(** Lines 80 and 94-96: the report of a failure at time [now]. *)
Definition failure_report (msg : string) (now : N) : list action :=
  [SetLoader false; SetErrorMessage msg; SetShowError true;
   CallSetTimeout HideTimer (now + TIMEOUT)].

Definition CONFIG_MESSAGE : string :=
  "API endpoint misconfigured. Check environment variables.".

Definition url (API_BASE : string) (st : stage) (searchValue : string)
  : string :=
  API_BASE ++ endpoint st ++ searchValue.

(** What a submission that passes the configuration check does before its
    first await, after [c] was the current controller, at time [now]. *)
Definition start_actions (c : nat) (now : N) (API_BASE searchValue : string)
  : list action :=
  (reset_actions c ++
   [CallSetTimeout AbortTimer (now + TIMEOUT);
    CallFetch (url API_BASE UserInfo searchValue) (S c)])%list.

(** Lines 45-48 as a test: the base URL the submission goes on with, if
    any. *)
Definition configured (env : option string) : option string :=
  match env with
  | None => None
  | Some API_BASE =>
      if String.eqb API_BASE "" || negb (startsWith "http" API_BASE)
      then None
      else Some API_BASE
  end.

(** What the callback of a timer can do by itself: lines 52-53 and 96. *)
Definition timer_callback_action (a : action) : Prop :=
  match a with
  | CallAbort _ | Uncaught _ | SetShowError false => True
  | _ => False
  end.

(** The words of the specification, "a well-formed absolute HTTP(S) URL":
    such a URL starts with its scheme, a colon and two slashes, and goes
    on. *)
Definition spec_absolute_http_url (u : string) : bool :=
  (String.prefix "http://" u && (7 <? String.length u))
  || (String.prefix "https://" u && (8 <? String.length u)).

(** The words of the claims: a response "with JSON content type and payload
    status OK". *)
Definition ok_response (header : option string) (b : body) : Prop :=
  includes "application/json" (match header with Some h => h | None => "" end)
  = true
  /\ exists data, json b = inr data /\ get_prop data "status" = inr (JStr "OK").

(** A response, or the failure of the network, that belongs to a call of
    submission [k]. *)
Definition answers (k : nat) (e : event) : Prop :=
  match e with
  | Headers j _ _ | Body j _ _ | NetworkError j _ _ => j = k
  | Submit _ _ | Elapse _ => False
  end.

(** *** A call and its answer *)

(** The events in which a call is answered: after [n] ms the headers come,
    after [n'] more the body has been read. *)
Definition answer (k : nat) (st : stage) (n : N) (header : option string)
  (n' : N) (b : body) : list event :=
  [Elapse n; Headers k st header; Elapse n'; Body k st b].

(** The setter of a stage. *)
Definition report_action (st : stage) (v : jsval) : action :=
  match st with
  | UserInfo => SetUserInfo v
  | UserRating => SetUserRatings v
  | UserStatus => SetUserProblems v
  end.

(** What follows the setter: the next call, or lines 77-78. *)
Definition next_actions (k : nat) (st : stage) (API_BASE searchValue : string)
  : list action :=
  match st with
  | UserInfo => [CallFetch (url API_BASE UserRating searchValue) k]
  | UserRating => [CallFetch (url API_BASE UserStatus searchValue) k]
  | UserStatus => [CallClearTimeout; SetLoader false]
  end.

Definition next_tasks (k : nat) (st : stage) (API_BASE searchValue : string)
  : list task :=
  match st with
  | UserInfo => [mkTask k UserRating AwaitFetch k API_BASE searchValue]
  | UserRating => [mkTask k UserStatus AwaitFetch k API_BASE searchValue]
  | UserStatus => []
  end.

Definition next_calls (k : nat) (st : stage) (API_BASE searchValue : string)
  : list (nat * string) :=
  match st with
  | UserInfo => [(k, url API_BASE UserRating searchValue)]
  | UserRating => [(k, url API_BASE UserStatus searchValue)]
  | UserStatus => []
  end.

(** Between [s] and [s'] nothing happened to the sequence in flight: time
    has passed, and an error that was shown may have been hidden. *)
Record calm (s s' : state) : Prop := mkCalm {
  calm_tasks : tasks s' = tasks s;
  calm_current : current s' = current s;
  calm_aborted : aborted s' = aborted s;
  calm_acts : acts (current s) s' = acts (current s) s;
  calm_calls : calls s' = calls s;
  calm_loader : loader (ui s') = loader (ui s);
  calm_message : errorMessage (ui s') = errorMessage (ui s);
  calm_info : userInfo (ui s') = userInfo (ui s);
  calm_ratings : userRatings (ui s') = userRatings (ui s);
  calm_problems : userProblems (ui s') = userProblems (ui s);
  calm_hidden : showError (ui s') = true -> showError (ui s) = true;
  calm_clock : (clock s <= clock s')%N
}.

(** *** A submission that is over *)

(** Submission [k] has no invocation left: a later submission took over,
    or its own sequence has ended. *)
Definition retired (k : nat) (s : state) : Prop :=
  k < current s \/ (k = current s /\ tasks s = []).

(** The log [l'] continues the log [l] with entries that satisfy [P]. *)
Definition grows (P : entry -> Prop) (l l' : list entry) : Prop :=
  exists added, l' = (added ++ l)%list /\ Forall P added.

(** An entry that, if it is of submission [k], is the doing of a timer. *)
Definition silent (k : nat) (en : entry) : Prop :=
  e_sub en = k -> timer_callback_action (e_act en).

(** *** The timeout of a submission *)

(** Submission [k], started at [t0] with the actions [start], waits for a
    response that does not come: it is still the latest submission; the
    only timer of its own that is due within the ten seconds is its
    timeout; and either its invocation is suspended and it has done nothing
    since, or an abort cancelled it at some moment [t] and it reported
    that. *)
Definition waiting (k : nat) (t0 : N) (start : list action) (s : state)
  : Prop :=
  current s = k
  /\ (forall tm, In tm (timers s) -> tm_sub tm = k ->
      tm = mkTimer k AbortTimer (t0 + TIMEOUT)
      \/ (t0 + TIMEOUT < tm_due tm)%N)
  /\ ((tasks s <> [] /\ acts k s = start)
      \/ (tasks s = [] /\ is_aborted k s = true
          /\ exists t, acts k s =
                       (start ++ failure_report "Request cancelled" t)%list)).

(** The timeout of submission [k] has fired, at [t0 + TIMEOUT]: its callback
    called [abort] on the controller of [k] and threw; the submission is
    over, cancelled by that call or by an abort that came before it. *)
Definition timed_out (k : nat) (t0 : N) (start : list action) (s : state)
  : Prop :=
  current s = k /\ tasks s = [] /\ is_aborted k s = true
  /\ In (mkEntry (t0 + TIMEOUT) k (CallAbort k)) (log s)
  /\ In (mkEntry (t0 + TIMEOUT) k (Uncaught TIMED_OUT)) (log s)
  /\ (acts k s =
        (start ++ [CallAbort k; Uncaught TIMED_OUT]
         ++ failure_report "Request cancelled" (t0 + TIMEOUT))%list
      \/ exists t, acts k s =
                   (start ++ failure_report "Request cancelled" t
                    ++ [CallAbort k; Uncaught TIMED_OUT])%list).

(** Submission [k], made at [t0], waits undisturbed: its invocation is
    suspended, it has done nothing since it started, and no timeout but its
    own is armed. *)
Definition undisturbed (k : nat) (t0 : N) (start : list action) (s : state)
  : Prop :=
  current s = k /\ tasks s <> [] /\ acts k s = start
  /\ forall tm, In tm (timers s) -> tm_kind tm = AbortTimer ->
                tm = mkTimer k AbortTimer (t0 + TIMEOUT).

(** The timeout of [k] has cancelled it. *)
Definition cancelled_by_timeout (k : nat) (t0 : N) (start : list action)
  (s : state) : Prop :=
  current s = k /\ tasks s = []
  /\ acts k s =
     (start ++ [CallAbort k; Uncaught TIMED_OUT]
      ++ failure_report "Request cancelled" (t0 + TIMEOUT))%list.

(** *** The error timers *)

(** Every error that was shown has its timer armed for ten seconds after it
    was shown, or that timer has fired, at that very time.  ([due] holds
    the timers that have left the list of armed timers and are about to
    fire.) *)
Definition served_upto (due : list timer) (s : state) : Prop :=
  forall t j, In (mkEntry t j (SetShowError true)) (log s) ->
    In (mkTimer j HideTimer (t + TIMEOUT)) (timers s)
    \/ In (mkTimer j HideTimer (t + TIMEOUT)) due
    \/ In (mkEntry (t + TIMEOUT) j (SetShowError false)) (log s).

(** An error that is visible was shown by an entry whose timer has not
    fired yet. *)
Definition recent_upto (due : list timer) (s : state) : Prop :=
  showError (ui s) = true ->
  exists t j, In (mkEntry t j (SetShowError true)) (log s)
              /\ (In (mkTimer j HideTimer (t + TIMEOUT)) (timers s)
                  \/ In (mkTimer j HideTimer (t + TIMEOUT)) due).

Definition hides (s : state) : Prop := served_upto [] s /\ recent_upto [] s.

(** The timers of [l] that are still armed at [now]. *)
Definition pending (now : N) (l : list timer) : list timer :=
  filter (fun tm => negb (is_due now tm)) l.

(** No timer of [l] has come due by [now]. *)
Definition none_due (now : N) (l : list timer) : bool :=
  forallb (fun tm => negb (is_due now tm)) l.

(** *** The handle, the calls and the timeouts of a submission *)

(** A string of white space only, as [trim] sees it. *)
Fixpoint blank (s : string) : bool :=
  match s with
  | EmptyString => true
  | String c rest => is_space c && blank rest
  end.

(** The URLs submission [k] has called, oldest first. *)
Definition fetched_of (k : nat) (l : list entry) : list string :=
  map snd (filter (fun c => fst c =? k) (calls_of l)).

Definition fetched (k : nat) (s : state) : list string := fetched_of k (log s).

(** The three URLs of a search, in the order of lines 57, 64 and 71. *)
Definition three_urls (API_BASE searchValue : string) : list string :=
  [url API_BASE UserInfo searchValue; url API_BASE UserRating searchValue;
   url API_BASE UserStatus searchValue].

Definition stage_number (st : stage) : nat :=
  match st with UserInfo => 1 | UserRating => 2 | UserStatus => 3 end.

(** The calls of every submission are the first [n] of the three, for the
    one base URL and handle of the submission; the sequence in flight waits
    for the answer to the last of them. *)
Definition in_sequence (s : state) : Prop :=
  forall k, exists b q n,
    fetched k s = firstn n (three_urls b q)
    /\ forall t, In t (tasks s) -> t_sub t = k ->
         t_base t = b /\ t_query t = q /\ n = stage_number (t_stage t).

(** The timeout of every submission that set one is still armed, or has
    fired at the time it was set for (its callback called [abort] and
    threw), or was cleared by the submission.  ([due] holds the timers that
    have left the list of armed timers and are about to fire.) *)
Definition timeouts_upto (due : list timer) (s : state) : Prop :=
  forall t k,
    In (mkEntry t k (CallSetTimeout AbortTimer (t + TIMEOUT))) (log s) ->
    In (mkTimer k AbortTimer (t + TIMEOUT)) (timers s)
    \/ In (mkTimer k AbortTimer (t + TIMEOUT)) due
    \/ (In (mkEntry (t + TIMEOUT) k (Uncaught TIMED_OUT)) (log s)
        /\ exists c, k <= c
                     /\ In (mkEntry (t + TIMEOUT) k (CallAbort c)) (log s))
    \/ exists t', In (mkEntry t' k CallClearTimeout) (log s).

(** The submission whose sequence is in flight has set its timeout, and
    neither cleared it nor seen it fire. *)
Definition started (s : state) : Prop :=
  tasks s <> [] ->
  (exists t0,
     In (mkEntry t0 (current s) (CallSetTimeout AbortTimer (t0 + TIMEOUT)))
        (log s))
  /\ forall en, In en (log s) -> e_sub en = current s ->
       e_act en <> CallClearTimeout /\ e_act en <> Uncaught TIMED_OUT.

(** *** The course of a submission *)

(** The two ways a sequence ends: line 77 on success, line 94 on failure. *)
Definition is_outcome (a : action) : bool :=
  match a with
  | CallClearTimeout | SetErrorMessage _ => true
  | _ => false
  end.

Definition outcomes_of (k : nat) (l : list entry) : list action :=
  filter is_outcome (acts_of k l).

(** The outcomes submission [k] has had, oldest first. *)
Definition outcomes (k : nat) (s : state) : list action :=
  outcomes_of k (log s).

(** Every submission made so far either is in flight and has had no
    outcome, or is over and has had exactly one. *)
Definition settled (s : state) : Prop :=
  forall k, 1 <= k <= current s ->
    (outcomes k s = [] /\ exists t, tasks s = [t] /\ t_sub t = k)
    \/ ((exists a, outcomes k s = [a])
        /\ forall t, In t (tasks s) -> t_sub t <> k).

(** What is kept of an action to tell the order of calls and results: that
    a call was made, or which slot was written. *)
Inductive mark : Type :=
| Called
| Wrote (st : stage).

Definition mark_of (a : action) : list mark :=
  match a with
  | CallFetch _ _ => [Called]
  | SetUserInfo _ => [Wrote UserInfo]
  | SetUserRatings _ => [Wrote UserRating]
  | SetUserProblems _ => [Wrote UserStatus]
  | _ => []
  end.

Definition marks_of (k : nat) (l : list entry) : list mark :=
  flat_map mark_of (acts_of k l).

(** The calls and slot writes of submission [k], oldest first. *)
Definition marks (k : nat) (s : state) : list mark := marks_of k (log s).

(** The order of lines 39-41, 57, 61, 64, 68, 71 and 75. *)
Definition script : list mark :=
  [Wrote UserInfo; Wrote UserRating; Wrote UserStatus;
   Called; Wrote UserInfo; Called; Wrote UserRating; Called; Wrote UserStatus].

(** Every submission has gone some way through the script, at least
    through the reset, and the one in flight has just made the call of its
    stage. *)
Definition in_order (s : state) : Prop :=
  forall k, 1 <= k <= current s ->
    exists n, 3 <= n
              /\ marks k s = firstn n script
              /\ forall t, In t (tasks s) -> t_sub t = k ->
                   n = 2 + 2 * stage_number (t_stage t).

(** A write to one of the three slots of the parent. *)
Definition is_write (a : action) : bool :=
  match a with
  | SetUserInfo _ | SetUserRatings _ | SetUserProblems _ => true
  | _ => false
  end.

(** In a log (newest entry first), every slot write is by a submission at
    least as late as all that had acted before it. *)
Fixpoint latest_writes (l : list entry) : Prop :=
  match l with
  | [] => True
  | en :: older =>
      (is_write (e_act en) = true ->
       forall x, In x older -> e_sub x <= e_sub en)
      /\ latest_writes older
  end.

(** A submission that has called [clearTimeout] has no timeout left, armed
    or about to fire, and its timeout has not thrown. *)
Definition clean_upto (due : list timer) (s : state) : Prop :=
  forall t' k, In (mkEntry t' k CallClearTimeout) (log s) ->
    (forall tm, In tm (timers s) \/ In tm due ->
                is_abort_timer_of k tm = false)
    /\ forall t, ~ In (mkEntry t k (Uncaught TIMED_OUT)) (log s).

(** *** What the component renders *)

(** A React element: its type, its props (a string literal as it stands, an
    expression between braces) and its children. *)
Inductive node : Type :=
| Text (s : string)
| Elem (tag : string) (props : list (string * string)) (children : list node).

(** Lines 106-136: the search field, with its icon and its button. *)
Definition search_field : node :=
  Elem "div" [("className", "relative z-0")]
    [Elem "div"
       [("className",
         "absolute inset-y-0 start-0 flex items-center ps-3 pointer-events-none")]
       [Elem "svg"
          [("className", "w-4 h-4 text-yellow-600"); ("aria-hidden", "true");
           ("xmlns", "http://www.w3.org/2000/svg"); ("fill", "none");
           ("viewBox", "0 0 20 20")]
          [Elem "path"
             [("stroke", "currentColor"); ("strokeLinecap", "round");
              ("strokeLinejoin", "round"); ("strokeWidth", "2");
              ("d", "m19 19-4-4m0-7A7 7 0 1 1 1 8a7 7 0 0 1 14 0Z")]
             []]];
     Elem "input"
       [("type", "search");
        ("className",
         "block w-full p-4 ps-10 font-semibold text-blue-900 border-2 border-black rounded-lg bg-gray-50 ");
        ("placeholder", "Username"); ("ref", "{searchInputRef}")]
       [];
     Elem "button"
       [("type", "submit");
        ("className",
         "max-[300px]:hidden text-white absolute end-2.5 bottom-2.5 bg-blue-700 hover:bg-blue-800 focus:outline-none font-medium rounded-lg text-sm px-3 sm:px-4 py-2 ")]
       [Text "Search"]].

(** Lines 138-142: the error, as it is shown. *)
Definition error_banner (msg : string) : node :=
  Elem "div" [("className", "flex mt-2")]
    [Elem "h1"
       [("className",
         "text-lg p-2 border-2 border-blue-700 text-red-600 font-bold rounded-xl")]
       [Text msg]].

(** Lines 145-154: the loading indicator. *)
Definition loading_indicator : node :=
  Elem "div" [("className", "flex flex-col justify-center items-center mt-5")]
    [Elem "img"
       [("src", "{code}"); ("alt", "Avatar");
        ("className", " w-56 mb-5 rounded-full object-cover")]
       [];
     Elem "div" [("className", "text-orange-700 font-bold text-2xl mb-10")]
       [Text "Loading..."]].

(** Lines 101-105 and 156-157: the form around the search field and what
    is shown below it. *)
Definition page (below : list node) : node :=
  Elem "motion.div"
    [("className", "flex justify-center items-center mt-5");
     ("whileTap", "{{ scale: 0.98 }}")]
    [Elem "form"
       [("onSubmit", "{handleSearch}");
        ("className", "w-[90%] lg:max-w-[50%]")]
       (search_field :: below)].

(** Lines 100-158.  [{showError && (...)}] and [{loader && (...)}] render
    their element when the flag is on and nothing when it is off. *)
Definition render (u : ui_state) : node :=
  page ((if showError u then [error_banner (errorMessage u)] else [])
        ++ (if loader u then [loading_indicator] else [])).

(** *** Sample data for the examples *)

Definition CF : string := "https://codeforces.com/api/".

Definition JSON : option string := Some "application/json; charset=utf-8".

Definition HTML : option string := Some "text/html; charset=utf-8".

Definition fresh_page : state := initial JNull JNull JNull.

(** [JSON.stringify], for values whose strings need no escaping; the
    sample bodies are made with it, so that their text and what
    [JSON.parse] makes of it agree. *)
Definition dquote : string := String (ascii_of_nat 34) EmptyString.

Fixpoint stringify (v : jsval) : string :=
  match v with
  | JUndefined | JNull => "null"
  | JBool true => "true"
  | JBool false => "false"
  | JNum z =>
      match nearest_double (Z.abs z) with
      | None => "null"
      | Some _ => number_toString z
      end
  | JStr s => dquote ++ s ++ dquote
  | JArr items =>
      "[" ++
      (fix join (l : list jsval) : string :=
         match l with
         | [] => ""
         | x :: rest =>
             match rest with
             | [] => stringify x
             | _ :: _ => stringify x ++ "," ++ join rest
             end
         end) items ++ "]"
  | JObj fields =>
      "{" ++
      (fix join (l : list (string * jsval)) : string :=
         match l with
         | [] => ""
         | (key, x) :: rest =>
             let field := dquote ++ key ++ dquote ++ ":" ++ stringify x in
             match rest with
             | [] => field
             | _ :: _ => field ++ "," ++ join rest
             end
         end) fields ++ "}"
  end.

Definition json_body (payload : jsval) : body :=
  mkBody (stringify payload) (inr payload).

(** The payload [{status: "OK", result}]. *)
Definition ok_body (result : jsval) : body :=
  json_body (JObj [("status", JStr "OK"); ("result", result)]).

(** The payload [{status: "FAILED", comment}]. *)
Definition failed_body (comment : string) : body :=
  json_body (JObj [("status", JStr "FAILED"); ("comment", JStr comment)]).

(** A page of HTML, as an upstream outage would serve it. *)
Definition html_body : body :=
  mkBody "<!DOCTYPE html><html><head><title>Codeforces</title></head><body>503</body></html>"
         (inl "JSON.parse: unexpected character at line 1 column 1 of the JSON data").

Definition tourist : jsval :=
  JObj [("handle", JStr "tourist"); ("rating", JNum 3800)].

Definition rating_changes : jsval :=
  JArr [JObj [("contestId", JNum 2000); ("newRating", JNum 3800)]].

Definition submissions : jsval :=
  JArr [JObj [("id", JNum 1); ("verdict", JStr "OK")];
        JObj [("id", JNum 2); ("verdict", JStr "WRONG_ANSWER")]].

(** The three calls of submission [k], all answered well. *)
Definition three_answers (k : nat) : list event :=
  (answer k UserInfo 120 JSON 30 (ok_body (JArr [tourist]))
   ++ answer k UserRating 150 JSON 40 (ok_body rating_changes)
   ++ answer k UserStatus 300 JSON 80 (ok_body submissions))%list.

(** The page after a first submission, whose profile call is in flight. *)
Definition searching : state := step (Submit (Some CF) "tourist") fresh_page.

Definition first_call : task :=
  mkTask 1 UserInfo AwaitFetch 1 CF "tourist".

(** The page once the profile of the first submission has been reported and
    its rating call is in flight. *)
Definition profile_shown : state :=
  run (answer 1 UserInfo 120 JSON 30 (ok_body (JArr [tourist]))) searching.

(** The first search fails at once (the network is down); six seconds
    later a second search is made, which fails after one second. *)
Definition two_failures : state :=
  run [NetworkError 1 UserInfo "Failed to fetch"; Elapse 6000;
       Submit (Some CF) "tourist"; Elapse 1000;
       NetworkError 2 UserInfo "Failed to fetch"] searching.

(** The first search fails after one second; five seconds after it was
    made a second search is made, which is still waiting 4999 ms later. *)
Definition second_search_waiting : state :=
  run [Elapse 1000; NetworkError 1 UserInfo "Failed to fetch"; Elapse 4000;
       Submit (Some CF) "tourist"; Elapse 4999] searching.

(** A body that is announced as JSON and is not. *)
Definition garbled_body : body :=
  mkBody "<html><body>Codeforces is temporarily unavailable</body></html>"
         (inl "Unexpected token < in JSON at position 0").

(** The page when "Petr" is searched for while the first search is in
    flight. *)
Definition searching_again : state := step (Submit (Some CF) "Petr") searching.

(** "Petr" is searched for 3000 ms after "tourist"; no response has arrived
    when the clock is at 9999 ms. *)
Definition superseded_waiting : state :=
  run [Elapse 3000; Submit (Some CF) "Petr"; Elapse 6999] searching.

(** The page once the three calls of the first search have been answered
    well. *)
Definition results_shown : state := run (three_answers 1) searching.

End SearchBox.
Import SearchBox.

(** * Properties *)

Module Facts.

Ltac destruct_state s :=
  let u := fresh "u" in
  destruct s as [?clk ?cur ?ab ?tms ?tks ?rej u ?lg];
  destruct u as [?ld ?se ?em ?uinfo ?urat ?uprob].

(** Runs the straight-line code of the component on a state. *)
Ltac exec :=
  cbv beta iota zeta delta
      [step deliver handleSearch abort newController setLoader setShowError
       setErrorMessage setUserInfo setUserRatings setUserProblems record
       with_ui with_timers with_tasks with_rejected setTimeout clearTimeout
       catch_block park try_catch try_begin bind does lift ret throw fetch
       drop_call fire
       clock current aborted timers tasks rejected ui log
       loader showError errorMessage userInfo userRatings userProblems
       t_sub t_stage t_await t_signal t_base t_query
       tm_sub tm_kind tm_due e_time e_sub e_act];
  cbn [fold_left app map filter find fst snd negb andb orb].

Ltac proj :=
  cbn [clock current aborted timers tasks rejected ui log
       loader showError errorMessage userInfo userRatings userProblems
       t_sub t_stage t_await t_signal t_base t_query
       tm_sub tm_kind tm_due e_time e_sub e_act] in *.

Ltac split_in H :=
  repeat rewrite in_app_iff in H; cbn [In] in H;
  repeat match type of H with _ \/ _ => destruct H as [H|H] end;
  try (apply filter_In in H; destruct H as [H _]).

(** Closes the bounds of [wf] on a state written out in full, from the
    bounds [Ha], [Htm], [Hl] of the state it came from. *)
Ltac bound_of Ha Htm Hl H :=
  split_in H;
  first
    [ contradiction
    | subst; proj; unfold TIMEOUT in *; repeat split; lia
    | apply Ha in H; proj; lia
    | apply Htm in H; proj; destruct H; split; lia
    | apply Hl in H; proj; destruct H; split; lia ].

Lemma existsb_above (l : list nat) (n : nat) :
  (forall c, In c l -> c < n) -> existsb (Nat.eqb n) l = false.
Proof.
  intros H. destruct (existsb (Nat.eqb n) l) eqn:E; [|reflexivity].
  apply existsb_exists in E. destruct E as [x [Hx Hnx]].
  apply Nat.eqb_eq in Hnx. subst x. apply H in Hx. lia.
Qed.

Lemma try_resume_eq t header b s :
  try_resume t header b s =
  match reported (t_stage t) header b with
  | inl e => (inl e, s)
  | inr v =>
      match t_stage t with
      | UserInfo => fetch (t_sub t) UserRating (t_base t) (t_query t)
                      (setUserInfo (t_sub t) v s)
      | UserRating => fetch (t_sub t) UserStatus (t_base t) (t_query t)
                        (setUserRatings (t_sub t) v s)
      | UserStatus =>
          (inr Done,
           setLoader (t_sub t) false
             (clearTimeout (t_sub t) (setUserProblems (t_sub t) v s)))
      end
  end.
Proof.
  unfold try_resume, reported, bind, lift, does, ret.
  destruct (validateResponse header b) as [e|data]; [reflexivity|].
  destruct (get_prop data "result") as [e|result]; [reflexivity|].
  destruct (t_stage t); reflexivity.
Qed.

(** **** The invariant *)

Lemma wf_initial info ratings problems : wf (initial info ratings problems).
Proof.
  constructor; simpl; auto; try (intros; contradiction). constructor.
Qed.

Lemma NoDup_snoc {A} (l : list A) (x : A) :
  NoDup l -> ~ In x l -> NoDup (l ++ [x]).
Proof.
  intros Hl Hx. apply NoDup_rev in Hl. rewrite <- (rev_involutive (l ++ [x])).
  apply NoDup_rev. rewrite rev_app_distr. cbn. constructor; [|exact Hl].
  rewrite <- in_rev. exact Hx.
Qed.

Lemma drain_nil s : rejected s = [] -> drain s = s.
Proof.
  intros H. destruct_state s. simpl in H. subst. reflexivity.
Qed.

Lemma drain_one s t e :
  rejected s = [(t, e)] ->
  drain s = catch_block (t_sub t) e (with_rejected (fun _ => []) s).
Proof.
  intros H. unfold drain. rewrite H. reflexivity.
Qed.

(** Closes [wf] of a state written out in full. *)
Ltac wf_tasks Htm Honly :=
  first
    [ left; reflexivity
    | right; eexists; unfold in_flight, is_aborted; proj;
      split; [reflexivity|]; split; [reflexivity|]; split; [reflexivity|];
      split;
      [ assumption
      | let tm := fresh "tm" in
        let Hin := fresh "Hin" in
        let Hs := fresh "Hs" in
        intros tm Hin Hs; split_in Hin;
        first
          [ contradiction
          | subst; proj; first [reflexivity | lia]
          | apply Honly in Hin; [exact Hin | exact Hs]
          | apply Htm in Hin; proj; lia ] ] ].

Ltac new_timer Htm Honly :=
  let Hin := fresh "Hin" in
  intros Hin; split_in Hin;
  first
    [ contradiction
    | discriminate
    | injection Hin; intros; lia
    | apply Htm in Hin; proj; lia
    | match goal with
      | H : forall tm, In tm _ -> tm_sub tm = _ -> tm_kind tm = AbortTimer
        |- _ => apply H in Hin; [discriminate | reflexivity]
      end ].

Ltac wf_distinct_timers Hd Htm Honly :=
  first
    [ exact Hd
    | apply NoDup_filter; exact Hd
    | apply NoDup_snoc; [exact Hd | new_timer Htm Honly]
    | apply NoDup_snoc;
      [ apply NoDup_snoc; [exact Hd | new_timer Htm Honly]
      | new_timer Htm Honly ] ].

Ltac wf_explicit Ha Htm Hd Hl Honly :=
  rewrite ?drain_nil by reflexivity;
  constructor; proj;
  [ reflexivity
  | wf_tasks Htm Honly
  | let x := fresh "x" in let Hin := fresh "Hin" in
    intros x Hin; bound_of Ha Htm Hl Hin
  | let x := fresh "x" in let Hin := fresh "Hin" in
    intros x Hin; bound_of Ha Htm Hl Hin
  | wf_distinct_timers Hd Htm Honly
  | let x := fresh "x" in let Hin := fresh "Hin" in
    intros x Hin; bound_of Ha Htm Hl Hin ].

Lemma wf_submit env input s : wf s -> wf (step (Submit env input) s).
Proof.
  intros [Hr Ht Ha Htm Hd Hl]. destruct_state s. proj. subst.
  assert (Hfresh : existsb (Nat.eqb (S cur)) ab = false).
  { apply existsb_above. intros c Hc. apply Ha in Hc. lia. }
  assert (Hfresh' : existsb (Nat.eqb (S cur)) (cur :: ab) = false).
  { apply existsb_above. intros c [<-|Hc]; [|apply Ha in Hc]; lia. }
  assert (Honly : forall tm : timer, In tm tms -> tm_sub tm = S cur ->
                  tm_kind tm = AbortTimer).
  { intros tm Hin Hs. apply Htm in Hin. lia. }
  unfold step.
  destruct Ht as [Ht|[[tk tst taw tsig tb tq] [Ht [Hsub [Hsig [Hab Hold]]]]]];
    proj; subst.
  - exec. destruct (is_aborted cur _) eqn:E; exec;
      unfold check_config;
      (destruct env as [b|]; exec;
       [destruct (String.eqb b "" || negb (startsWith "http" b)); exec|]);
      unfold is_aborted; proj; rewrite ?Hfresh, ?Hfresh';
      wf_explicit Ha Htm Hd Hl Honly.
  - exec. rewrite Hab, Nat.eqb_refl. exec.
    unfold check_config;
      (destruct env as [b|]; exec;
       [destruct (String.eqb b "" || negb (startsWith "http" b)); exec|]);
      unfold is_aborted; proj; rewrite ?Hfresh, ?Hfresh';
      (erewrite drain_one by reflexivity); exec;
      wf_explicit Ha Htm Hd Hl Honly.
Qed.

Lemma is_call_explicit k st tk tst taw tsig tb tq :
  is_call k st (mkTask tk tst taw tsig tb tq) = (tk =? k) && stage_eqb tst st.
Proof. reflexivity. Qed.

Lemma wf_response e s :
  wf s ->
  match e with Submit _ _ | Elapse _ => False | _ => True end ->
  wf (step e s).
Proof.
  intros [Hr Ht Ha Htm Hd Hl] He. destruct_state s. proj. subst.
  unfold step.
  destruct Ht as [Ht|[[tk tst taw tsig tb tq] [Ht [Hsub [Hsig [Hab Honly]]]]]];
    unfold is_aborted in *; proj; subst.
  - destruct e; try contradiction; exec;
      wf_explicit Ha Htm Hd Hl Honly.
  - destruct e as [| k st h | k st b | k st msg |]; try contradiction; exec;
      rewrite is_call_explicit;
      (destruct ((cur =? k) && stage_eqb tst st) eqn:Hc;
       [apply andb_prop in Hc; destruct Hc as [Hk Hst];
        apply Nat.eqb_eq in Hk; subst k
       | exec; solve [wf_explicit Ha Htm Hd Hl Honly] ]).
    + unfold awaits_fetch; proj. destruct taw; exec.
      * unfold is_aborted; proj. rewrite Hab. wf_explicit Ha Htm Hd Hl Honly.
      * wf_explicit Ha Htm Hd Hl Honly.
    + destruct taw as [|h]; exec; [wf_explicit Ha Htm Hd Hl Honly|].
      rewrite try_resume_eq. proj.
      destruct (reported tst h b) as [err|v]; exec.
      * wf_explicit Ha Htm Hd Hl Honly.
      * destruct tst; exec; unfold is_aborted in *; proj; rewrite ?Hab;
          wf_explicit Ha Htm Hd Hl Honly.
    + wf_explicit Ha Htm Hd Hl Honly.
Qed.

Lemma wf_fire tm s :
  wf s -> tm_sub tm <= current s ->
  wf (drain (fire tm s))
  /\ current (drain (fire tm s)) = current s
  /\ clock (drain (fire tm s)) = clock s.
Proof.
  intros [Hr Ht Ha Htm Hd Hl] Hk. destruct_state s. destruct tm as [k kind due].
  proj. subst.
  destruct Ht as [Ht|[[tk tst taw tsig tb tq] [Ht [Hsub [Hsig [Hab Honly]]]]]];
    unfold is_aborted in *; proj; subst.
  - destruct kind; exec.
    + destruct (is_aborted cur _); exec; rewrite drain_nil by reflexivity;
        (split; [wf_explicit Ha Htm Hd Hl Honly | split; reflexivity]).
    + rewrite drain_nil by reflexivity.
      split; [wf_explicit Ha Htm Hd Hl Honly | split; reflexivity].
  - destruct kind; exec.
    + unfold is_aborted; proj. rewrite Hab, Nat.eqb_refl. exec.
      erewrite drain_one by reflexivity. exec.
      split; [wf_explicit Ha Htm Hd Hl Honly | split; reflexivity].
    + rewrite drain_nil by reflexivity.
      split; [wf_explicit Ha Htm Hd Hl Honly | split; reflexivity].
Qed.

Lemma wf_fire_all due s :
  wf s -> (forall tm, In tm due -> tm_sub tm <= current s) ->
  wf (fire_all due s).
Proof.
  unfold fire_all.
  revert s. induction due as [|tm due IH]; intros s Hwf Hdue; [exact Hwf|].
  cbn [fold_left].
  destruct (wf_fire tm s Hwf (Hdue tm (or_introl eq_refl)))
    as [Hwf' [Hcur _]].
  apply IH; [exact Hwf'|].
  intros tm' Hin. rewrite Hcur. apply Hdue. right. exact Hin.
Qed.

Lemma wf_advance s : wf s -> wf (advance s).
Proof.
  intros Hwf. unfold advance.
  destruct Hwf as [Hr Ht Ha Htm Hd Hl]. destruct_state s. proj. subst.
  constructor; proj.
  - reflexivity.
  - destruct Ht as [Ht|[t [Ht [Hsub [Hsig [Hab Honly]]]]]];
      [left; exact Ht|right].
    exists t. unfold in_flight, is_aborted in *. proj.
    repeat split; try assumption.
    intros tm Hin. apply filter_In in Hin. destruct Hin as [Hin _].
    apply Honly. exact Hin.
  - exact Ha.
  - intros tm Hin. apply filter_In in Hin. destruct Hin as [Hin Hlate].
    apply Htm in Hin. unfold is_due in Hlate.
    apply negb_true_iff, N.leb_gt in Hlate. split; [exact Hlate|apply Hin].
  - apply NoDup_filter. exact Hd.
  - intros en Hin. apply Hl in Hin. destruct Hin. split; [assumption|lia].
Qed.

Lemma wf_tick s : wf s -> wf (tick s).
Proof.
  intros Hwf. unfold tick. apply wf_fire_all.
  - apply wf_advance. exact Hwf.
  - intros tm Hin. apply filter_In in Hin. destruct Hin as [Hin _].
    apply (wf_timers s Hwf) in Hin. apply Hin.
Qed.

Lemma wf_elapse n s : wf s -> wf (N.iter n tick s).
Proof.
  intros Hwf. induction n using N.peano_ind.
  - exact Hwf.
  - rewrite N.iter_succ. apply wf_tick. exact IHn.
Qed.

Lemma wf_step e s : wf s -> wf (step e s).
Proof.
  intros Hwf. destruct e as [env input| | | |n].
  - apply wf_submit. exact Hwf.
  - apply wf_response; [exact Hwf|exact I].
  - apply wf_response; [exact Hwf|exact I].
  - apply wf_response; [exact Hwf|exact I].
  - unfold step, deliver. rewrite drain_nil.
    + apply wf_elapse. exact Hwf.
    + apply wf_rejected. apply wf_elapse. exact Hwf.
Qed.

Lemma reachable_wf s : reachable s -> wf s.
Proof.
  induction 1; [apply wf_initial|apply wf_step; assumption].
Qed.

Lemma wf_run evs s : wf s -> wf (run evs s).
Proof.
  revert s. induction evs as [|e evs IH]; intros s Hwf; [exact Hwf|].
  apply IH. apply wf_step. exact Hwf.
Qed.

(** **** Reading the log *)

Lemma acts_of_cons k en l :
  acts_of k (en :: l) =
  (acts_of k l ++ if e_sub en =? k then [e_act en] else [])%list.
Proof.
  unfold acts_of. cbn [rev]. rewrite filter_app, map_app. cbn [filter].
  destruct (e_sub en =? k); reflexivity.
Qed.

Lemma acts_of_app k l1 l2 :
  acts_of k (l1 ++ l2) = (acts_of k l2 ++ acts_of k l1)%list.
Proof.
  unfold acts_of. rewrite rev_app_distr, filter_app, map_app. reflexivity.
Qed.

Lemma acts_of_fresh k l :
  (forall en, In en l -> e_sub en < k) -> acts_of k l = [].
Proof.
  induction l as [|en l IH]; intros H; [reflexivity|].
  rewrite acts_of_cons, IH by (intros x Hx; apply H; right; exact Hx).
  assert (E : (e_sub en =? k) = false).
  { apply Nat.eqb_neq. specialize (H en (or_introl eq_refl)). lia. }
  rewrite E. reflexivity.
Qed.

Lemma calls_of_cons en l :
  calls_of (en :: l) =
  (calls_of l ++ match e_act en with
                 | CallFetch url _ => [(e_sub en, url)]
                 | _ => []
                 end)%list.
Proof.
  unfold calls_of. cbn [rev]. rewrite flat_map_app. cbn [flat_map].
  rewrite app_nil_r. reflexivity.
Qed.

Lemma succ_neqb n : (n =? S n) = false.
Proof. apply Nat.eqb_neq. lia. Qed.

Lemma succ_neqb' n : (S n =? n) = false.
Proof. apply Nat.eqb_neq. lia. Qed.

(** Reads [acts] and [calls] off a log written out in full. *)
Ltac read_log :=
  unfold acts, calls; proj;
  repeat rewrite acts_of_cons; repeat rewrite calls_of_cons; proj;
  rewrite ?Nat.eqb_refl, ?succ_neqb, ?succ_neqb';
  repeat rewrite <- app_assoc; cbn [app]; rewrite ?app_nil_r.

(** **** A submission, case by case *)

(** Splits a submission in a well-formed state into its cases: whether the
    current controller was aborted already or an invocation was in flight,
    and whether the configuration passes.  Each case is left as a state
    written out in full. *)
Ltac on_submit s Hwf env :=
  destruct Hwf as [Hr Ht Ha Htm Hd Hl]; destruct_state s; proj; subst;
  match type of Ha with
  | forall c, In c ?ab -> c <= ?cur =>
      assert (Hfresh : existsb (Nat.eqb (S cur)) ab = false)
        by (apply existsb_above; intros c Hc; apply Ha in Hc; lia);
      assert (Hfresh' : existsb (Nat.eqb (S cur)) (cur :: ab) = false)
        by (apply existsb_above; intros c [<-|Hc]; [|apply Ha in Hc]; lia);
      match type of Hl with
      | forall en, In en ?lg -> _ =>
          assert (Hnone : acts_of (S cur) lg = [])
            by (apply acts_of_fresh; intros en Hen; apply Hl in Hen; lia)
      end;
      unfold step;
      destruct Ht
        as [Ht|[[tk tst taw tsig tb tq] [Ht [Hsub [Hsig [Hab Honly]]]]]];
      unfold is_aborted in *; proj; subst;
      [ exec; unfold is_aborted; proj;
        destruct (existsb (Nat.eqb cur) ab) eqn:E; exec
      | exec; unfold is_aborted; proj; rewrite Hab, Nat.eqb_refl; exec ]
  end;
  unfold check_config, configured in *;
  (destruct env as [b|]; exec;
   [destruct (String.eqb b "" || negb (startsWith "http" b)) eqn:Hcfg; exec|]);
  unfold is_aborted; proj;
  repeat match goal with
         | H : existsb _ _ = false |- context [existsb _ _] => rewrite H
         end;
  rewrite ?drain_nil by reflexivity;
  try (erewrite drain_one by reflexivity; exec).

Lemma submit_acts env input s :
  wf s ->
  acts (S (current s)) (step (Submit env input) s) =
  (reset_actions (current s) ++
   match configured env with
   | Some b =>
       [CallSetTimeout AbortTimer (clock s + TIMEOUT);
        CallFetch (url b UserInfo (trim input)) (S (current s))]
   | None => failure_report CONFIG_MESSAGE (clock s)
   end)%list.
Proof.
  intros Hwf. on_submit s Hwf env; read_log; rewrite Hnone; reflexivity.
Qed.

Lemma submit_tasks env input s :
  wf s ->
  tasks (step (Submit env input) s) =
  match configured env with
  | Some b => [mkTask (S (current s)) UserInfo AwaitFetch (S (current s)) b
                      (trim input)]
  | None => []
  end.
Proof.
  intros Hwf. on_submit s Hwf env; reflexivity.
Qed.

Lemma submit_calls env input s :
  wf s ->
  calls (step (Submit env input) s) =
  (calls s ++
   match configured env with
   | Some b => [(S (current s), url b UserInfo (trim input))]
   | None => []
   end)%list.
Proof.
  intros Hwf. on_submit s Hwf env; read_log; reflexivity.
Qed.

Lemma submit_error_shown env input s :
  wf s -> tasks s = [] -> configured env = None ->
  showError (ui (step (Submit env input) s)) = true
  /\ errorMessage (ui (step (Submit env input) s)) = CONFIG_MESSAGE.
Proof.
  intros Hwf. on_submit s Hwf env; intros Hidle Hnot; try discriminate;
    split; reflexivity.
Qed.

(** **** C2: the configuration check *)

(** C2, as the code has it.  Whatever happened before, a submission whose
    base URL is absent, empty or does not start with the four letters
    "http" makes no network call: its actions are the reset of lines 33-41
    followed by the report of the configuration error, the list of calls
    made is unchanged and no invocation is left suspended; when no earlier
    sequence was in flight, the error shown is the configuration error. *)
Theorem misconfigured_base_url_makes_no_call s env input :
  reachable s ->
  (env = None \/ env = Some "" \/
   exists b, env = Some b /\ startsWith "http" b = false) ->
  let s' := step (Submit env input) s in
  acts (S (current s)) s' =
    (reset_actions (current s) ++ failure_report CONFIG_MESSAGE (clock s))%list
  /\ calls s' = calls s
  /\ tasks s' = []
  /\ (tasks s = [] ->
      showError (ui s') = true /\ errorMessage (ui s') = CONFIG_MESSAGE).
Proof.
  intros Hreach Henv s'. subst s'.
  assert (Hcfg : configured env = None).
  { destruct Henv as [->|[->|[b [-> Hb]]]]; try reflexivity.
    unfold configured. rewrite Hb. rewrite orb_true_r. reflexivity. }
  pose proof (reachable_wf s Hreach) as Hwf.
  rewrite submit_acts, submit_calls, submit_tasks by exact Hwf.
  rewrite Hcfg, app_nil_r. repeat split; try reflexivity.
  - apply submit_error_shown; assumption.
  - apply submit_error_shown; assumption.
Qed.

Lemma misconfigured_base_url_makes_no_call_witness :
  let s := initial JNull JNull JNull in
  let s' := step (Submit (Some "ftp://codeforces.com/api/") "tourist") s in
  acts 1 s' = (reset_actions 0 ++ failure_report CONFIG_MESSAGE 0)%list
  /\ calls s' = calls s
  /\ tasks s' = []
  /\ (tasks s = [] ->
      showError (ui s') = true /\ errorMessage (ui s') = CONFIG_MESSAGE).
Proof.
  apply (misconfigured_base_url_makes_no_call
           (initial JNull JNull JNull) (Some "ftp://codeforces.com/api/")
           "tourist").
  - apply reach_initial.
  - right. right. exists "ftp://codeforces.com/api/". split; reflexivity.
Defined.

(** C2 as stated fails: a base URL that starts with "http" passes the check
    of line 46 whether or not it is a well-formed absolute URL.  With the
    colon missing after the scheme the call is made all the same and no
    error is reported. *)
Lemma malformed_base_url_is_fetched :
  let bad := "http//codeforces.com/api/" in
  let s' := step (Submit (Some bad) "tourist") (initial JNull JNull JNull) in
  spec_absolute_http_url bad = false
  /\ calls s' = [(1, "http//codeforces.com/api/user.info?handles=tourist")]
  /\ acts 1 s' =
     (reset_actions 0 ++
      [CallSetTimeout AbortTimer 10000;
       CallFetch "http//codeforces.com/api/user.info?handles=tourist" 1])%list
  /\ showError (ui s') = false.
Proof.
  repeat split.
Qed.

(** **** Induction over the passing of time *)

Lemma fire_all_ind (P : state -> Prop) due s :
  wf s -> P s ->
  (forall tm s1, In tm due -> wf s1 -> current s1 = current s ->
                 clock s1 = clock s -> P s1 -> P (drain (fire tm s1))) ->
  (forall tm, In tm due -> tm_sub tm <= current s) ->
  P (fire_all due s).
Proof.
  unfold fire_all. intros Hwf HP Hstep Hsub.
  assert (G : forall s1, wf s1 -> current s1 = current s ->
                         clock s1 = clock s -> P s1 ->
                         P (fold_left (fun s tm => drain (fire tm s)) due s1)).
  { clear HP Hwf. induction due as [|tm due IH]; intros s1 Hwf1 Hc Hk HP1.
    - exact HP1.
    - cbn [fold_left].
      assert (Hle : tm_sub tm <= current s1)
        by (rewrite Hc; apply Hsub; left; reflexivity).
      destruct (wf_fire tm s1 Hwf1 Hle) as [Hwf' [Hc' Hk']].
      apply IH.
      + intros tm' s2 Hin. apply Hstep. right. exact Hin.
      + intros tm' Hin. apply Hsub. right. exact Hin.
      + exact Hwf'.
      + congruence.
      + congruence.
      + apply Hstep; try assumption. left. reflexivity. }
  apply G; auto.
Qed.

(** What one millisecond does is what the removal of the due timers does,
    followed by what their callbacks do; a timer that fires does so at the
    very time it was set for. *)
Lemma tick_ind (P : state -> Prop) s :
  wf s -> P (advance s) ->
  (forall tm s1, In tm (timers s) -> tm_due tm = (clock s + 1)%N ->
                 wf s1 -> current s1 = current s ->
                 clock s1 = (clock s + 1)%N -> P s1 ->
                 P (drain (fire tm s1))) ->
  P (tick s).
Proof.
  intros Hwf Hadv Hstep. unfold tick.
  apply fire_all_ind.
  - apply wf_advance. exact Hwf.
  - exact Hadv.
  - intros tm s1 Hin Hwf1 Hc Hk HP.
    apply filter_In in Hin. destruct Hin as [Hin Hdue].
    apply Hstep; try assumption.
    unfold is_due in Hdue. apply N.leb_le in Hdue.
    apply (wf_timers s Hwf) in Hin. lia.
  - intros tm Hin. apply filter_In in Hin. destruct Hin as [Hin _].
    apply (wf_timers s Hwf) in Hin. apply Hin.
Qed.

Lemma elapse_ind (P : state -> Prop) n s :
  wf s -> P s -> (forall s1, wf s1 -> P s1 -> P (tick s1)) ->
  P (N.iter n tick s).
Proof.
  intros Hwf HP Hstep.
  assert (G : wf (N.iter n tick s) /\ P (N.iter n tick s)).
  { induction n using N.peano_ind.
    - split; assumption.
    - rewrite N.iter_succ. destruct IHn as [Hw Hp].
      split; [apply wf_tick; exact Hw | apply Hstep; assumption]. }
  apply G.
Qed.

Lemma step_elapse n s : wf s -> step (Elapse n) s = N.iter n tick s.
Proof.
  intros Hwf. unfold step, deliver. apply drain_nil.
  apply wf_rejected. apply wf_elapse. exact Hwf.
Qed.

(** **** Logs that grow *)

Lemma grows_refl P l : grows P l l.
Proof. exists []. split; [reflexivity|constructor]. Qed.

Lemma grows_cons (P : entry -> Prop) en l l' :
  P en -> grows P l l' -> grows P l (en :: l').
Proof.
  intros Hen [added [-> Hall]]. exists (en :: added).
  split; [reflexivity|constructor; assumption].
Qed.

Lemma grows_trans P l1 l2 l3 :
  grows P l1 l2 -> grows P l2 l3 -> grows P l1 l3.
Proof.
  intros [a [-> Ha]] [b [-> Hb]]. exists (b ++ a)%list.
  split; [apply app_assoc|apply Forall_app; split; assumption].
Qed.

Lemma grows_silent k l l' :
  grows (silent k) l l' ->
  exists later, acts_of k l' = (acts_of k l ++ later)%list
                /\ Forall timer_callback_action later.
Proof.
  intros [added [-> Hall]]. exists (acts_of k added).
  split; [apply acts_of_app|].
  unfold acts_of. apply Forall_forall. intros a Ha.
  apply in_map_iff in Ha. destruct Ha as [en [<- Hen]].
  apply filter_In in Hen. destruct Hen as [Hen Hk].
  apply in_rev in Hen. rewrite Forall_forall in Hall.
  apply (Hall en Hen). apply Nat.eqb_eq. exact Hk.
Qed.

Ltac grow_explicit side :=
  repeat (apply grows_cons; [side|]); apply grows_refl.

(** **** The other macrotasks, case by case *)

(** The callback of a timer in a well-formed state: nothing in flight and
    an abort timer, nothing in flight and an error timer, a sequence in
    flight and an abort timer (which cancels it), a sequence in flight and
    an error timer. *)
Ltac on_fire s Hwf tm :=
  destruct Hwf as [Hr Ht Ha Htm Hd Hl]; destruct_state s;
  destruct tm as [tmk kind due]; proj; subst;
  destruct Ht as [Ht|[[tk tst taw tsig tb tq] [Ht [Hsub [Hsig [Hab Honly]]]]]];
  unfold is_aborted in *; proj; subst;
  destruct kind; exec; unfold is_aborted; proj;
  [ match type of Ha with
    | forall c, In c ?ab -> c <= ?cur =>
        destruct (existsb (Nat.eqb cur) ab) eqn:E
    end; exec
  | idtac
  | rewrite Hab, Nat.eqb_refl; exec; erewrite drain_one by reflexivity; exec
  | idtac ];
  rewrite ?drain_nil by reflexivity.

(** A response or a network failure in a well-formed state. *)
Ltac on_response s Hwf e :=
  destruct Hwf as [Hr Ht Ha Htm Hd Hl]; destruct_state s; proj; subst;
  unfold step;
  destruct Ht as [Ht|[[tk tst taw tsig tb tq] [Ht [Hsub [Hsig [Hab Honly]]]]]];
  unfold is_aborted in *; proj; subst;
  [ destruct e as [env input| k st h | k st b | k st msg | n];
    try contradiction; try discriminate; exec;
    rewrite ?drain_nil by reflexivity
  | destruct e as [env input| k st h | k st b | k st msg | n];
    try contradiction; try discriminate; exec;
    rewrite is_call_explicit;
    match goal with
    | |- context [(?c =? ?k) && stage_eqb ?a ?b] =>
        let Hc := fresh "Hc" in
        let Hk := fresh "Hk" in
        let Hst := fresh "Hst" in
        destruct ((c =? k) && stage_eqb a b) eqn:Hc;
        [ apply andb_prop in Hc; destruct Hc as [Hk Hst];
          apply Nat.eqb_eq in Hk; subst k
        | exec ]
    end;
    [ unfold awaits_fetch; proj; destruct taw; exec;
      unfold is_aborted; proj; rewrite ?Hab
    | idtac
    | destruct taw as [|h]; exec;
      [ idtac
      | rewrite try_resume_eq; proj;
        match goal with
        | |- context [reported ?a ?b ?c] =>
            let err := fresh "err" in
            let v := fresh "v" in
            let Hrep := fresh "Hrep" in
            destruct (reported a b c) as [err|v] eqn:Hrep; exec;
            [ idtac
            | destruct tst; exec; unfold is_aborted; proj; rewrite ?Hab ]
        end ]
    | idtac
    | idtac
    | idtac ];
    rewrite ?drain_nil by reflexivity ].

Lemma retired_response e s j :
  wf s -> is_submit e = false ->
  match e with Elapse _ => False | _ => True end ->
  retired j s ->
  retired j (step e s) /\ grows (silent j) (log s) (log (step e s)).
Proof.
  intros Hwf Hns He. unfold retired.
  on_response s Hwf e; intros Hret; proj.
  all: split; [ try assumption | ].
  all: try (grow_explicit ltac:(unfold silent; proj; intros Heq;
         destruct Hret as [Hlt|[Heq' Hnil]]; try discriminate; try lia)).
  all: try (left; destruct Hret as [Hlt|[Heq' Hnil]]; try discriminate; lia).
  all: destruct Hret as [Hlt|[Heq' Hnil]]; try discriminate; left; lia.
Qed.

Lemma retired_submit env input s j :
  wf s -> retired j s ->
  retired j (step (Submit env input) s)
  /\ grows (silent j) (log s) (log (step (Submit env input) s)).
Proof.
  intros Hwf. unfold retired.
  on_submit s Hwf env; intros Hret; proj.
  all: split; [ left; destruct Hret as [Hlt|[Heq' Hnil]]; try discriminate; lia | ].
  all: grow_explicit ltac:(unfold silent; proj; intros Heq;
         destruct Hret as [Hlt|[Heq' Hnil]]; try discriminate; try lia).
Qed.

Lemma retired_fire tm s j :
  wf s -> retired j s ->
  retired j (drain (fire tm s))
  /\ grows (silent j) (log s) (log (drain (fire tm s))).
Proof.
  intros Hwf. unfold retired.
  on_fire s Hwf tm; intros Hret; proj.
  all: split; [ try assumption | ].
  all: try (grow_explicit ltac:(unfold silent; proj; intros Heq;
         try exact I;
         destruct Hret as [Hlt|[Heq' Hnil]]; try discriminate; try lia)).
  all: destruct Hret as [Hlt|[Heq' Hnil]]; try discriminate; left; lia.
Qed.

Lemma retired_tick s j :
  wf s -> retired j s ->
  retired j (tick s) /\ grows (silent j) (log s) (log (tick s)).
Proof.
  intros Hwf Hret.
  apply (tick_ind (fun s1 => retired j s1
                             /\ grows (silent j) (log s) (log s1))).
  - exact Hwf.
  - split; [exact Hret|apply grows_refl].
  - intros tm s1 _ _ Hwf1 _ _ [Hret1 Hgrow1].
    destruct (retired_fire tm s1 j Hwf1 Hret1) as [Hret2 Hgrow2].
    split; [exact Hret2|].
    eapply grows_trans; eassumption.
Qed.

Lemma retired_step e s j :
  wf s -> retired j s ->
  retired j (step e s) /\ grows (silent j) (log s) (log (step e s)).
Proof.
  intros Hwf Hret. destruct e as [env input| | | |n].
  - apply retired_submit; assumption.
  - apply retired_response; auto.
  - apply retired_response; auto.
  - apply retired_response; auto.
  - rewrite step_elapse by exact Hwf.
    apply (elapse_ind (fun s1 => retired j s1
                                 /\ grows (silent j) (log s) (log s1))).
    + exact Hwf.
    + split; [exact Hret|apply grows_refl].
    + intros s1 Hwf1 [Hret1 Hgrow1].
      destruct (retired_tick s1 j Hwf1 Hret1) as [Hret2 Hgrow2].
      split; [exact Hret2|]. eapply grows_trans; eassumption.
Qed.

(** Once a submission has no invocation left, whatever happens next, all
    that is ever done in its name is done by its timers. *)
Lemma retired_run evs s j :
  wf s -> retired j s ->
  exists later, acts j (run evs s) = (acts j s ++ later)%list
                /\ Forall timer_callback_action later.
Proof.
  intros Hwf Hret. unfold acts. apply grows_silent.
  revert s Hwf Hret. induction evs as [|e evs IH]; intros s Hwf Hret.
  - apply grows_refl.
  - cbn [run fold_left].
    destruct (retired_step e s j Hwf Hret) as [Hret' Hgrow].
    eapply grows_trans; [exact Hgrow|].
    apply IH; [apply wf_step; exact Hwf|exact Hret'].
Qed.

(** **** A submission while another is in flight *)

Ltac prefix_of l tl :=
  match l with
  | tl => constr:(@nil entry)
  | ?x :: ?r => let p := prefix_of r tl in constr:(x :: p)
  end.

Lemma submit_supersedes env input s t :
  wf s -> In t (tasks s) ->
  let k := current s in
  let s' := step (Submit env input) s in
  acts k s' = (acts k s ++ failure_report "Request cancelled" (clock s))%list
  /\ (exists sync,
        log s' =
          (rev (map (mkEntry (clock s) k)
                    (failure_report "Request cancelled" (clock s)))
           ++ sync ++ log s)%list
        /\ Forall (fun en => e_sub en = S k) sync
        /\ In (mkEntry (clock s) (S k) (CallAbort k)) sync)
  /\ retired k s'.
Proof.
  intros Hwf. on_submit s Hwf env; intros Hin; try contradiction.
  all: cbv zeta; proj.
  all: split; [read_log; reflexivity|].
  all: split; [|unfold retired; proj; left; lia].
  all: unfold failure_report; cbn [map rev app].
  all: match goal with
       | |- exists sync, _ :: _ :: _ :: _ :: ?rest = _ /\ _ =>
           match type of Hl with
           | forall en, In en ?old -> _ =>
               let p := prefix_of rest old in exists p
           end
       end.
  all: split; [reflexivity|split; [repeat constructor|cbn [In]; tauto]].
Qed.

(** **** Waiting while a sequence is in flight *)

Lemma calm_refl s : calm s s.
Proof. constructor; auto. lia. Qed.

Lemma calm_advance s s1 :
  (tasks s1 = [] \/ calm s s1) -> tasks (advance s1) = [] \/ calm s (advance s1).
Proof.
  intros [Hnil|Hcalm]; [left; exact Hnil|right].
  destruct Hcalm. destruct_state s1. unfold advance. proj.
  constructor; proj; try assumption. lia.
Qed.

Lemma calm_fire s tm s1 s2 :
  wf s1 -> In tm (timers s1) ->
  wf s2 -> current s2 = current s1 ->
  (tasks s1 = [] -> tasks s2 = []) ->
  (tasks s2 = [] \/ calm s s2) ->
  tasks (drain (fire tm s2)) = [] \/ calm s (drain (fire tm s2)).
Proof.
  intros Hwf1 Hin Hwf2 Hcur Hidle HP.
  assert (Hhide : tasks s2 <> [] -> tm_kind tm = HideTimer ->
                  (tm_sub tm =? current s2) = false).
  { intros Hbusy Hkind. apply Nat.eqb_neq. intros Heq.
    destruct (wf_tasks s1 Hwf1) as [Hnil|[t [_ [_ [_ [_ Honly]]]]]].
    - apply Hbusy, Hidle, Hnil.
    - rewrite Hcur in Heq. rewrite (Honly tm Hin Heq) in Hkind.
      discriminate. }
  clear Hwf1 Hin Hidle Hcur.
  destruct HP as [Hnil|Hcalm].
  - left. revert Hnil Hhide.
    on_fire s2 Hwf2 tm; intros Hnil _; try discriminate; reflexivity.
  - revert Hcalm Hhide.
    on_fire s2 Hwf2 tm; intros Hcalm Hhide; try (left; reflexivity); right.
    destruct Hcalm. unfold acts, calls in *. proj.
    constructor; unfold acts, calls; proj; try assumption; try congruence;
      try lia; try discriminate.
    + rewrite acts_of_cons. proj.
      rewrite <- calm_current0 in *.
      rewrite (Hhide ltac:(discriminate) eq_refl).
      rewrite app_nil_r. exact calm_acts0.
    + rewrite calls_of_cons. proj.
      rewrite app_nil_r. exact calm_calls0.
Qed.

Lemma fire_idle tm s :
  wf s -> tasks s = [] -> tasks (drain (fire tm s)) = [].
Proof.
  intros Hwf. on_fire s Hwf tm; intros Hnil; try discriminate; reflexivity.
Qed.

Lemma calm_tick s s1 :
  wf s1 -> (tasks s1 = [] \/ calm s s1) ->
  tasks (tick s1) = [] \/ calm s (tick s1).
Proof.
  intros Hwf1 HP.
  apply (tick_ind (fun s2 => (tasks s1 = [] -> tasks s2 = [])
                             /\ (tasks s2 = [] \/ calm s s2))).
  - exact Hwf1.
  - split; [intros H; exact H|apply calm_advance; exact HP].
  - intros tm s2 Hin _ Hwf2 Hcur _ [Hidle HP2]. split.
    + intros Hnil. apply fire_idle; [exact Hwf2|apply Hidle; exact Hnil].
    + apply (calm_fire s tm s1 s2); assumption.
Qed.

(** While the awaited response has not come and the invocation is still
    suspended, the passing of time changes nothing for the sequence. *)
Lemma calm_elapse n s :
  wf s -> tasks (step (Elapse n) s) <> [] -> calm s (step (Elapse n) s).
Proof.
  intros Hwf. rewrite step_elapse by exact Hwf. intros Hbusy.
  assert (G : tasks (N.iter n tick s) = [] \/ calm s (N.iter n tick s)).
  { apply (elapse_ind (fun s1 => tasks s1 = [] \/ calm s s1)).
    - exact Hwf.
    - right. apply calm_refl.
    - intros s1 Hwf1 HP. apply calm_tick; assumption. }
  destruct G as [Hnil|Hcalm]; [contradiction|exact Hcalm].
Qed.

(** **** A call and its answer *)

Lemma stage_eqb_refl st : stage_eqb st st = true.
Proof. destruct st; reflexivity. Qed.

Lemma step_headers s k st sig b q h :
  wf s -> tasks s = [mkTask k st AwaitFetch sig b q] ->
  step (Headers k st h) s =
  with_tasks (fun _ => [mkTask k st (AwaitBody h) sig b q]) s.
Proof.
  intros [Hr Ht Ha Htm Hd Hl] Hts. destruct_state s. proj. subst.
  destruct Ht as [Ht|[t [Ht [Hsub [Hsig [Hab Honly]]]]]]; [discriminate|].
  proj. injection Ht as <-. unfold is_aborted in *. proj. subst.
  unfold step. exec. rewrite is_call_explicit, Nat.eqb_refl, stage_eqb_refl.
  exec. unfold is_aborted. proj. rewrite Hab. apply drain_nil. reflexivity.
Qed.

Lemma step_body s k st sig b q h bd :
  wf s -> tasks s = [mkTask k st (AwaitBody h) sig b q] ->
  step (Body k st bd) s =
  match reported st h bd with
  | inl e => catch_block k e (with_tasks (fun _ => []) s)
  | inr v =>
      match st with
      | UserInfo =>
          with_tasks (fun _ => [mkTask k UserRating AwaitFetch k b q])
            (record k (CallFetch (url b UserRating q) k) (setUserInfo k v s))
      | UserRating =>
          with_tasks (fun _ => [mkTask k UserStatus AwaitFetch k b q])
            (record k (CallFetch (url b UserStatus q) k)
                    (setUserRatings k v s))
      | UserStatus =>
          with_tasks (fun _ => [])
            (setLoader k false (clearTimeout k (setUserProblems k v s)))
      end
  end.
Proof.
  intros [Hr Ht Ha Htm Hd Hl] Hts. destruct_state s. proj. subst.
  destruct Ht as [Ht|[t [Ht [Hsub [Hsig [Hab Honly]]]]]]; [discriminate|].
  proj. injection Ht as <-. unfold is_aborted in *. proj. subst.
  unfold step. exec. rewrite is_call_explicit, Nat.eqb_refl, stage_eqb_refl.
  exec. rewrite try_resume_eq. proj.
  destruct (reported st h bd) as [e|v]; exec.
  - apply drain_nil. reflexivity.
  - destruct st; exec; unfold is_aborted; proj; rewrite ?Hab;
      apply drain_nil; reflexivity.
Qed.

Lemma addressed_busy e s :
  is_submit e = false -> match e with Elapse _ => False | _ => True end ->
  addressed e s = true -> tasks s <> [].
Proof.
  intros Hns He Hadd Hnil.
  destruct e; try contradiction; try discriminate; cbn [addressed] in Hadd;
    rewrite Hnil in Hadd; discriminate.
Qed.

Lemma clock_tick s : wf s -> clock (tick s) = (clock s + 1)%N.
Proof.
  intros Hwf. apply (tick_ind (fun s1 => clock s1 = (clock s + 1)%N)).
  - exact Hwf.
  - reflexivity.
  - intros tm s1 _ _ Hwf1 _ Hc _.
    assert (Hle : tm_sub tm <= current s1 \/ True) by (right; exact I).
    clear Hle. revert Hc. on_fire s1 Hwf1 tm; intros Hc; exact Hc.
Qed.

Lemma clock_elapse n s : wf s -> clock (step (Elapse n) s) = (clock s + n)%N.
Proof.
  intros Hwf. rewrite step_elapse by exact Hwf.
  induction n using N.peano_ind.
  - cbn. lia.
  - rewrite N.iter_succ, clock_tick by (apply wf_elapse; exact Hwf). lia.
Qed.

Lemma idle_elapse n s :
  wf s -> tasks s = [] -> tasks (step (Elapse n) s) = [].
Proof.
  intros Hwf Hnil. rewrite step_elapse by exact Hwf.
  apply (elapse_ind (fun s1 => tasks s1 = [])); [exact Hwf|exact Hnil|].
  intros s1 Hwf1 Hnil1.
  apply (tick_ind (fun s2 => tasks s2 = [])); [exact Hwf1|exact Hnil1|].
  intros tm s2 _ _ Hwf2 _ _ Hnil2. apply fire_idle; assumption.
Qed.

Lemma accepted_app l1 l2 s :
  accepted (l1 ++ l2) s = accepted l1 s && accepted l2 (run l1 s).
Proof.
  revert s. induction l1 as [|e l1 IH]; intros s; [reflexivity|].
  cbn [app accepted run fold_left]. rewrite IH.
  rewrite andb_assoc. reflexivity.
Qed.

Lemma run_app l1 l2 s : run (l1 ++ l2) s = run l2 (run l1 s).
Proof. unfold run. apply fold_left_app. Qed.

(** A call that is awaited and whose headers and body reach it: what the
    sequence has done by then. *)
Lemma call_answered s k st b q n h n' bd :
  wf s -> current s = k -> tasks s = [mkTask k st AwaitFetch k b q] ->
  accepted (answer k st n h n' bd) s = true ->
  let s' := run (answer k st n h n' bd) s in
  wf s' /\ current s' = k /\ clock s' = (clock s + n + n')%N
  /\ match reported st h bd with
     | inl e =>
         tasks s' = []
         /\ acts k s' = (acts k s ++ failure_report (classify e) (clock s'))%list
         /\ calls s' = calls s
         /\ slots s' = slots s
         /\ loader (ui s') = false
         /\ showError (ui s') = true
         /\ errorMessage (ui s') = classify e
     | inr v =>
         tasks s' = next_tasks k st b q
         /\ acts k s' =
            (acts k s ++ report_action st v :: next_actions k st b q)%list
         /\ calls s' = (calls s ++ next_calls k st b q)%list
         /\ slots s' = set_slot st v (slots s)
         /\ loader (ui s') =
            match st with UserStatus => false | _ => loader (ui s) end
         /\ (showError (ui s') = true -> showError (ui s) = true)
         /\ errorMessage (ui s') = errorMessage (ui s)
         /\ (st = UserStatus ->
             forall tm, In tm (timers s') -> is_abort_timer_of k tm = false)
     end.
Proof.
  intros Hwf Hcur Hts Hacc s'. subst s'.
  unfold answer in *. cbn [accepted run fold_left] in *.
  set (s1 := step (Elapse n) s) in *.
  set (s2 := step (Headers k st h) s1) in *.
  set (s3 := step (Elapse n') s2) in *.
  apply andb_prop in Hacc. destruct Hacc as [_ Hacc].
  apply andb_prop in Hacc. destruct Hacc as [Hadd1 Hacc].
  apply andb_prop in Hacc. destruct Hacc as [_ Hacc].
  apply andb_prop in Hacc. destruct Hacc as [Hadd3 _].
  assert (Hwf1 : wf s1) by (apply wf_step; exact Hwf).
  assert (Hwf2 : wf s2) by (apply wf_step; exact Hwf1).
  assert (Hwf3 : wf s3) by (apply wf_step; exact Hwf2).
  assert (Hc1 : calm s s1).
  { apply calm_elapse; [exact Hwf|].
    apply (addressed_busy (Headers k st h)); auto. }
  assert (Ht1 : tasks s1 = [mkTask k st AwaitFetch k b q])
    by (rewrite (calm_tasks _ _ Hc1); exact Hts).
  assert (Hs2 : s2 = with_tasks (fun _ => [mkTask k st (AwaitBody h) k b q]) s1)
    by (apply step_headers; assumption).
  assert (Hc3 : calm s2 s3).
  { apply calm_elapse; [exact Hwf2|].
    apply (addressed_busy (Body k st bd)); auto. }
  assert (Ht3 : tasks s3 = [mkTask k st (AwaitBody h) k b q])
    by (rewrite (calm_tasks _ _ Hc3), Hs2; reflexivity).
  assert (Hk1 : clock s1 = (clock s + n)%N) by (apply clock_elapse; exact Hwf).
  assert (Hk3 : clock s3 = (clock s2 + n')%N)
    by (apply clock_elapse; exact Hwf2).
  split; [apply wf_step; exact Hwf3|].
  rewrite (step_body s3 k st k b q h bd Hwf3 Ht3).
  destruct Hc1 as [_ c1cur _ c1acts c1calls c1ld c1msg c1i c1r c1p c1sh _].
  destruct Hc3 as [_ c3cur _ c3acts c3calls c3ld c3msg c3i c3r c3p c3sh _].
  clearbody s3. clearbody s1. rewrite Hs2 in *. clear Hs2 Hwf2 Hadd1 Hadd3.
  unfold with_tasks, acts, calls, slots in *. proj.
  rewrite c1cur, Hcur in *.
  clear Hwf Hwf1 Hwf3.
  destruct_state s3. destruct_state s1. destruct_state s. proj. subst.
  destruct (reported st h bd) as [e|v].
  - exec. read_log. unfold slots, failure_report. proj.
    rewrite ?c3acts, ?c1acts, ?c3calls, ?c1calls.
    repeat split; try congruence; try lia.
  - destruct st; exec; read_log; unfold slots, set_slot; proj;
      rewrite ?c3acts, ?c1acts, ?c3calls, ?c1calls;
      repeat split; try congruence; try lia; try discriminate;
      try (intros Hse; apply c1sh, c3sh, Hse).
    intros _ tm Hin. apply filter_In in Hin. destruct Hin as [_ Hin].
    apply negb_true_iff in Hin. exact Hin.
Qed.

Lemma accepted_answer_busy s k st n h n' bd :
  wf s -> accepted (answer k st n h n' bd) s = true -> tasks s <> [].
Proof.
  intros Hwf Hacc Hnil. unfold answer in Hacc. cbn [accepted] in Hacc.
  apply andb_prop in Hacc. destruct Hacc as [_ Hacc].
  apply andb_prop in Hacc. destruct Hacc as [Hadd _].
  apply (addressed_busy (Headers k st h)) in Hadd; auto.
  apply Hadd. apply idle_elapse; assumption.
Qed.

Lemma submit_started env input s :
  wf s ->
  let s' := step (Submit env input) s in
  current s' = S (current s) /\ clock s' = clock s
  /\ slots s' = (JNull, JNull, JNull)
  /\ (tasks s = [] -> configured env <> None ->
      showError (ui s') = false /\ loader (ui s') = true).
Proof.
  intros Hwf. on_submit s Hwf env; cbv zeta; unfold slots; proj;
    repeat split; try reflexivity; intros; try discriminate; congruence.
Qed.

Lemma ok_response_validates h b :
  ok_response h b ->
  exists data, validateResponse h b = inr data
               /\ get_prop data "status" = inr (JStr "OK").
Proof.
  intros [Hct [data [Hjson Hstatus]]]. exists data. split; [|exact Hstatus].
  unfold validateResponse. rewrite Hct, Hjson, Hstatus. reflexivity.
Qed.

Lemma get_prop_total data key key' v :
  get_prop data key = inr v -> exists v', get_prop data key' = inr v'.
Proof.
  destruct data; cbn; intros H; try discriminate; eexists; reflexivity.
Qed.

Lemma ok_response_reported st h b :
  ok_response h b -> st <> UserInfo -> exists v, reported st h b = inr v.
Proof.
  intros Hok Hst. destruct (ok_response_validates h b Hok) as [data [Hv Hs]].
  destruct (get_prop_total data "status" "result" _ Hs) as [r Hr].
  exists r. unfold reported. rewrite Hv, Hr.
  destruct st; [contradiction|reflexivity|reflexivity].
Qed.

(** **** What time does while a sequence stays in flight *)

Lemma is_due_later c1 c2 tm :
  (c1 <= c2)%N -> is_due c1 tm = true -> is_due c2 tm = true.
Proof.
  unfold is_due. intros Hle H. apply N.leb_le in H. apply N.leb_le. lia.
Qed.

Lemma pending_pending c1 c2 l :
  (c1 <= c2)%N -> pending c2 (pending c1 l) = pending c2 l.
Proof.
  intros Hle. unfold pending. induction l as [|tm l IH]; [reflexivity|].
  cbn [filter]. destruct (is_due c1 tm) eqn:E1; cbn [negb].
  - rewrite (is_due_later c1 c2 tm Hle E1). cbn [negb]. exact IH.
  - cbn [filter]. rewrite IH. reflexivity.
Qed.

Lemma none_due_pending c1 c2 l :
  (c1 <= c2)%N ->
  none_due c1 l && none_due c2 (pending c1 l) = none_due c2 l.
Proof.
  intros Hle. unfold none_due, pending. induction l as [|tm l IH]; [reflexivity|].
  cbn [filter forallb]. destruct (is_due c1 tm) eqn:E1; cbn [negb andb].
  - rewrite (is_due_later c1 c2 tm Hle E1). reflexivity.
  - cbn [forallb]. rewrite <- IH.
    destruct (is_due c2 tm); cbn [negb andb];
      [apply andb_false_r|reflexivity].
Qed.

Lemma pending_all now l :
  (forall tm, In tm l -> (now < tm_due tm)%N) -> pending now l = l.
Proof.
  intros H. unfold pending. induction l as [|tm l IH]; [reflexivity|].
  cbn [filter]. unfold is_due at 1.
  assert (E : (tm_due tm <=? now)%N = false)
    by (apply N.leb_gt, H; left; reflexivity).
  rewrite E. cbn [negb]. rewrite IH; [reflexivity|].
  intros tm' Hin. apply H. right. exact Hin.
Qed.

Lemma none_due_all now l :
  (forall tm, In tm l -> (now < tm_due tm)%N) -> none_due now l = true.
Proof.
  intros H. unfold none_due. apply forallb_forall. intros tm Hin.
  unfold is_due. apply negb_true_iff, N.leb_gt, H, Hin.
Qed.

Lemma none_due_filter now l :
  none_due now l =
  match filter (is_due now) l with [] => true | _ :: _ => false end.
Proof.
  unfold none_due. induction l as [|tm l IH]; [reflexivity|].
  cbn [forallb filter]. destruct (is_due now tm); cbn [negb andb];
    [reflexivity|exact IH].
Qed.

(** A callback after which a sequence is still in flight was that of an
    error timer: it hid the error and did nothing else. *)
Lemma busy_fire tm s :
  wf s -> tasks (drain (fire tm s)) <> [] ->
  tm_kind tm = HideTimer
  /\ tasks (drain (fire tm s)) = tasks s
  /\ timers (drain (fire tm s)) = timers s
  /\ showError (ui (drain (fire tm s))) = false
  /\ errorMessage (ui (drain (fire tm s))) = errorMessage (ui s).
Proof.
  intros Hwf. on_fire s Hwf tm; intros Hbusy;
    try (exfalso; apply Hbusy; reflexivity); repeat split.
Qed.

Lemma idle_fire_all due s :
  wf s -> (forall tm, In tm due -> tm_sub tm <= current s) ->
  tasks s = [] -> tasks (fire_all due s) = [].
Proof.
  intros Hwf Hsub Hnil.
  apply (fire_all_ind (fun s1 => tasks s1 = [])); try assumption.
  intros tm s1 _ Hwf1 _ _ Hnil1. apply fire_idle; assumption.
Qed.

Lemma busy_fire_all due s :
  wf s -> (forall tm, In tm due -> tm_sub tm <= current s) ->
  tasks (fire_all due s) <> [] ->
  (forall tm, In tm due -> tm_kind tm = HideTimer)
  /\ tasks (fire_all due s) = tasks s
  /\ timers (fire_all due s) = timers s
  /\ showError (ui (fire_all due s)) =
     showError (ui s) && match due with [] => true | _ :: _ => false end
  /\ errorMessage (ui (fire_all due s)) = errorMessage (ui s).
Proof.
  revert s. induction due as [|tm due IH]; intros s Hwf Hsub Hbusy.
  - cbn. rewrite andb_true_r. repeat split. intros tm [].
  - change (fire_all (tm :: due) s) with (fire_all due (drain (fire tm s))) in *.
    assert (Hle : tm_sub tm <= current s) by (apply Hsub; left; reflexivity).
    destruct (wf_fire tm s Hwf Hle) as [Hwf' [Hc' Hk']].
    assert (Hsub' : forall tm', In tm' due -> tm_sub tm' <= current (drain (fire tm s))).
    { intros tm' Hin. rewrite Hc'. apply Hsub. right. exact Hin. }
    assert (Hbusy' : tasks (drain (fire tm s)) <> []).
    { intros Hnil. apply Hbusy. apply idle_fire_all; assumption. }
    destruct (busy_fire tm s Hwf Hbusy') as [Hkind [Hts [Htms [Hse Hmsg]]]].
    destruct (IH _ Hwf' Hsub' Hbusy) as [Hkinds [Hts' [Htms' [Hse' Hmsg']]]].
    split; [intros tm' [<-|Hin]; [exact Hkind|apply Hkinds, Hin]|].
    split; [congruence|]. split; [congruence|].
    split; [|congruence].
    rewrite Hse', Hse. rewrite andb_false_r. reflexivity.
Qed.

Lemma busy_tick s :
  wf s -> tasks (tick s) <> [] ->
  (forall tm, In tm (timers s) -> is_due (clock s + 1) tm = true ->
              tm_kind tm = HideTimer)
  /\ tasks (tick s) = tasks s
  /\ timers (tick s) = pending (clock s + 1) (timers s)
  /\ showError (ui (tick s)) =
     showError (ui s) && none_due (clock s + 1) (timers s)
  /\ errorMessage (ui (tick s)) = errorMessage (ui s).
Proof.
  intros Hwf Hbusy. unfold tick in *.
  assert (Hsub : forall tm, In tm (filter (is_due (clock s + 1)) (timers s)) ->
                            tm_sub tm <= current (advance s)).
  { intros tm Hin. apply filter_In in Hin. destruct Hin as [Hin _].
    apply (wf_timers s Hwf) in Hin. apply Hin. }
  destruct (busy_fire_all _ _ (wf_advance s Hwf) Hsub Hbusy)
    as [Hkinds [Hts [Htms [Hse Hmsg]]]].
  split.
  { intros tm Hin Hdue. apply Hkinds. apply filter_In. split; assumption. }
  split; [exact Hts|]. split; [exact Htms|].
  split; [|exact Hmsg].
  rewrite Hse, none_due_filter. reflexivity.
Qed.

Lemma idle_tick s : wf s -> tasks s = [] -> tasks (tick s) = [].
Proof.
  intros Hwf Hnil.
  apply (tick_ind (fun s2 => tasks s2 = [])); [exact Hwf|exact Hnil|].
  intros tm s2 _ _ Hwf2 _ _ Hnil2. apply fire_idle; assumption.
Qed.

(** While a sequence stays in flight, the passing of time does one thing:
    the error timers that come due hide the error. *)
Lemma busy_elapse n s :
  wf s -> tasks (step (Elapse n) s) <> [] ->
  let s' := step (Elapse n) s in
  (forall tm, In tm (timers s) -> is_due (clock s') tm = true ->
              tm_kind tm = HideTimer)
  /\ timers s' = pending (clock s') (timers s)
  /\ showError (ui s') = showError (ui s) && none_due (clock s') (timers s)
  /\ errorMessage (ui s') = errorMessage (ui s).
Proof.
  intros Hwf. cbv zeta. rewrite step_elapse by exact Hwf.
  induction n using N.peano_ind; intros Hbusy.
  - cbn [N.iter]. 
    rewrite pending_all, none_due_all by (intros tm Hin; apply (wf_timers s Hwf), Hin).
    rewrite andb_true_r. repeat split.
    intros tm Hin Hdue. apply (wf_timers s Hwf) in Hin.
    unfold is_due in Hdue. apply N.leb_le in Hdue. lia.
  - rewrite N.iter_succ in *.
    assert (Hwfn : wf (N.iter n tick s)) by (apply wf_elapse; exact Hwf).
    assert (Hclk : clock (N.iter n tick s) = (clock s + n)%N).
    { rewrite <- step_elapse by exact Hwf. apply clock_elapse. exact Hwf. }
    assert (Hbusyn : tasks (N.iter n tick s) <> []).
    { intros Hnil. apply Hbusy. apply idle_tick; assumption. }
    destruct (IHn Hbusyn) as [Hk [Htms [Hse Hmsg]]].
    destruct (busy_tick _ Hwfn Hbusy) as [Hk' [_ [Htms' [Hse' Hmsg']]]].
    rewrite (clock_tick _ Hwfn) in *. rewrite Hclk in *.
    split.
    { intros tm Hin Hdue.
      destruct (is_due (clock s + n) tm) eqn:E; [apply Hk; assumption|].
      apply Hk'; [|exact Hdue]. rewrite Htms. apply filter_In.
      split; [exact Hin|]. rewrite E. reflexivity. }
    split.
    { rewrite Htms', Htms. apply pending_pending. lia. }
    split; [|congruence].
    rewrite Hse', Hse, Htms, <- andb_assoc.
    rewrite none_due_pending by lia. reflexivity.
Qed.

Lemma due_is_hide c1 c2 l l' :
  (c1 <= c2)%N -> l' = pending c1 l ->
  (forall tm, In tm l -> is_due c1 tm = true -> tm_kind tm = HideTimer) ->
  (forall tm, In tm l' -> is_due c2 tm = true -> tm_kind tm = HideTimer) ->
  forall tm, In tm l -> is_due c2 tm = true -> tm_kind tm = HideTimer.
Proof.
  intros Hle -> H1 H2 tm Hin Hdue.
  destruct (is_due c1 tm) eqn:E; [apply H1; assumption|].
  apply H2; [|exact Hdue]. apply filter_In. split; [exact Hin|].
  rewrite E. reflexivity.
Qed.

(** A call that is awaited and answered well: the timers that came due
    meanwhile were error timers, and what they did was to hide the error. *)
Lemma answer_shows s k st b q n h n' bd v :
  wf s -> current s = k -> tasks s = [mkTask k st AwaitFetch k b q] ->
  accepted (answer k st n h n' bd) s = true ->
  reported st h bd = inr v ->
  let s' := run (answer k st n h n' bd) s in
  (forall tm, In tm (timers s) -> is_due (clock s') tm = true ->
              tm_kind tm = HideTimer)
  /\ timers s' =
     match st with
     | UserStatus =>
         filter (fun tm => negb (is_abort_timer_of k tm))
                (pending (clock s') (timers s))
     | _ => pending (clock s') (timers s)
     end
  /\ showError (ui s') = showError (ui s) && none_due (clock s') (timers s)
  /\ (clock s <= clock s')%N.
Proof.
  intros Hwf Hcur Hts Hacc Hrep s'. subst s'.
  unfold answer in *. cbn [accepted run fold_left] in *.
  set (s1 := step (Elapse n) s) in *.
  set (s2 := step (Headers k st h) s1) in *.
  set (s3 := step (Elapse n') s2) in *.
  apply andb_prop in Hacc. destruct Hacc as [_ Hacc].
  apply andb_prop in Hacc. destruct Hacc as [Hadd1 Hacc].
  apply andb_prop in Hacc. destruct Hacc as [_ Hacc].
  apply andb_prop in Hacc. destruct Hacc as [Hadd3 _].
  assert (Hwf1 : wf s1) by (apply wf_step; exact Hwf).
  assert (Hwf2 : wf s2) by (apply wf_step; exact Hwf1).
  assert (Hwf3 : wf s3) by (apply wf_step; exact Hwf2).
  assert (Hb1 : tasks s1 <> [])
    by (apply (addressed_busy (Headers k st h)); auto).
  assert (Hb3 : tasks s3 <> [])
    by (apply (addressed_busy (Body k st bd)); auto).
  assert (Hc1 : calm s s1) by (apply calm_elapse; assumption).
  assert (Ht1 : tasks s1 = [mkTask k st AwaitFetch k b q])
    by (rewrite (calm_tasks _ _ Hc1); exact Hts).
  assert (Hs2 : s2 = with_tasks (fun _ => [mkTask k st (AwaitBody h) k b q]) s1)
    by (apply step_headers; assumption).
  assert (Hc3 : calm s2 s3) by (apply calm_elapse; assumption).
  assert (Ht3 : tasks s3 = [mkTask k st (AwaitBody h) k b q])
    by (rewrite (calm_tasks _ _ Hc3), Hs2; reflexivity).
  assert (Hk1 : clock s1 = (clock s + n)%N) by (apply clock_elapse; exact Hwf).
  assert (Hk3 : clock s3 = (clock s2 + n')%N)
    by (apply clock_elapse; exact Hwf2).
  destruct (busy_elapse n s Hwf Hb1) as [Hd1 [Htm1 [Hse1 _]]].
  destruct (busy_elapse n' s2 Hwf2 Hb3) as [Hd3 [Htm3 [Hse3 _]]].
  fold s1 in Hd1, Htm1, Hse1. fold s3 in Hd3, Htm3, Hse3.
  assert (Hk2 : clock s2 = clock s1) by (rewrite Hs2; reflexivity).
  assert (Htm2 : timers s2 = timers s1) by (rewrite Hs2; reflexivity).
  assert (Hse2 : showError (ui s2) = showError (ui s1))
    by (rewrite Hs2; reflexivity).
  assert (Hle : (clock s1 <= clock s3)%N) by lia.
  assert (Hend : clock (step (Body k st bd) s3) = clock s3
                 /\ showError (ui (step (Body k st bd) s3)) = showError (ui s3)
                 /\ timers (step (Body k st bd) s3) =
                    match st with
                    | UserStatus =>
                        filter (fun tm => negb (is_abort_timer_of k tm))
                               (timers s3)
                    | _ => timers s3
                    end).
  { rewrite (step_body s3 k st k b q h bd Hwf3 Ht3), Hrep.
    destruct st; repeat split. }
  destruct Hend as [Hke [Hsee Htme]].
  rewrite Hke, Hsee, Htme.
  assert (Hp : timers s3 = pending (clock s3) (timers s)).
  { rewrite Htm3, Htm2, Htm1. apply pending_pending. exact Hle. }
  split.
  { apply (due_is_hide (clock s1) (clock s3) (timers s) (timers s1) Hle Htm1 Hd1).
    rewrite <- Htm2. exact Hd3. }
  split; [rewrite Hp; destruct st; reflexivity|].
  split; [|lia].
  rewrite Hse3, Hse2, Hse1, Htm2, Htm1, <- andb_assoc.
  rewrite none_due_pending by exact Hle. reflexivity.
Qed.

(** **** C3: three calls that succeed *)

Lemma submit_cancels env input s API_BASE :
  wf s -> tasks s <> [] -> configured env = Some API_BASE ->
  let s' := step (Submit env input) s in
  showError (ui s') = true
  /\ errorMessage (ui s') = "Request cancelled"
  /\ timers s' =
     (timers s ++ [mkTimer (S (current s)) AbortTimer (clock s + TIMEOUT);
                   mkTimer (current s) HideTimer (clock s + TIMEOUT)])%list.
Proof.
  intros Hwf. on_submit s Hwf env; intros Hbusy Hsome; cbv zeta; proj;
    try (contradiction Hbusy; reflexivity); try discriminate.
  repeat split. rewrite <- app_assoc. reflexivity.
Qed.

(** C3, as the code has it.  When the three calls of a submission are
    answered with JSON content type and status "OK", the submission does,
    in this order: the reset, the timer, the profile call, the profile
    setter, the rating call, the rating setter, the submission-history
    call, its setter, [clearTimeout], [setLoader(false)].  Each call but the
    first follows the setter of the call before it.  At the end the three
    slots hold the three results, the loading flag is off, the timeout of
    the submission is disarmed, nothing is in flight, and the submission has
    reported no error; no error is shown provided no earlier sequence was
    in flight when the submission was made.  When one was, the message is
    the "Request cancelled" of that sequence, and it is shown at the end
    unless the timer of an earlier error has come due by then and hidden
    it. *)
Theorem three_ok_answers_fill_the_slots_in_order
  s env input n1 h1 m1 b1 n2 h2 m2 b2 n3 h3 m3 b3 :
  reachable s ->
  let k := S (current s) in
  let trace :=
    Submit env input
    :: (answer k UserInfo n1 h1 m1 b1 ++ answer k UserRating n2 h2 m2 b2
        ++ answer k UserStatus n3 h3 m3 b3)%list in
  accepted trace s = true ->
  ok_response h1 b1 -> ok_response h2 b2 -> ok_response h3 b3 ->
  let s' := run trace s in
  exists API_BASE v1 v2 v3,
    configured env = Some API_BASE
    /\ reported UserInfo h1 b1 = inr v1
    /\ reported UserRating h2 b2 = inr v2
    /\ reported UserStatus h3 b3 = inr v3
    /\ acts k s' =
       (reset_actions (current s) ++
        [CallSetTimeout AbortTimer (clock s + TIMEOUT);
         CallFetch (url API_BASE UserInfo (trim input)) k;
         SetUserInfo v1;
         CallFetch (url API_BASE UserRating (trim input)) k;
         SetUserRatings v2;
         CallFetch (url API_BASE UserStatus (trim input)) k;
         SetUserProblems v3;
         CallClearTimeout;
         SetLoader false])%list
    /\ calls s' =
       (calls s ++
        [(k, url API_BASE UserInfo (trim input));
         (k, url API_BASE UserRating (trim input));
         (k, url API_BASE UserStatus (trim input))])%list
    /\ slots s' = (v1, v2, v3)
    /\ loader (ui s') = false
    /\ (forall tm, In tm (timers s') -> is_abort_timer_of k tm = false)
    /\ tasks s' = []
    /\ (tasks s = [] -> showError (ui s') = false)
    /\ (tasks s <> [] ->
        errorMessage (ui s') = "Request cancelled"
        /\ (showError (ui s') = true <->
            forall tm, In tm (timers s) -> tm_kind tm = HideTimer ->
                       (clock s' < tm_due tm)%N)).
Proof.
  intros Hreach k trace Hacc Hok1 Hok2 Hok3 s'. subst s' trace.
  pose proof (reachable_wf s Hreach) as Hwf.
  cbn [accepted run fold_left] in *.
  apply andb_prop in Hacc. destruct Hacc as [_ Hacc].
  rewrite !accepted_app in Hacc. rewrite !run_app.
  apply andb_prop in Hacc. destruct Hacc as [Hacc1 Hacc].
  apply andb_prop in Hacc. destruct Hacc as [Hacc2 Hacc3].
  set (s0 := step (Submit env input) s) in *.
  assert (Hwf0 : wf s0) by (apply wf_step; exact Hwf).
  pose proof (accepted_answer_busy _ _ _ _ _ _ _ Hwf0 Hacc1) as Hbusy0.
  pose proof (submit_tasks env input s Hwf) as Ht0.
  pose proof (submit_acts env input s Hwf) as Ha0.
  pose proof (submit_calls env input s Hwf) as Hc0.
  destruct (submit_started env input s Hwf) as [Hcur0 [Hclk0 [Hsl0 Hui0]]].
  pose proof (fun base Hbusy => submit_cancels env input s base Hwf Hbusy)
    as Hover.
  fold s0 in Ht0, Ha0, Hc0, Hcur0, Hclk0, Hsl0, Hui0, Hover.
  fold k in Ht0, Ha0, Hc0, Hcur0, Hover.
  destruct (configured env) as [base|] eqn:Hcfg; [|contradiction].
  (* the profile call *)
  destruct (call_answered s0 k UserInfo base (trim input) n1 h1 m1 b1
              Hwf0 Hcur0 Ht0 Hacc1) as [Hwf1 [Hcur1 [Hclk1 Hrep1]]].
  pose proof (fun v => answer_shows s0 k UserInfo base (trim input) n1 h1 m1 b1
                         v Hwf0 Hcur0 Ht0 Hacc1) as Hshow1.
  set (s1 := run (answer k UserInfo n1 h1 m1 b1) s0) in *.
  pose proof (accepted_answer_busy _ _ _ _ _ _ _ Hwf1 Hacc2) as Hbusy1.
  destruct (reported UserInfo h1 b1) as [e1|v1];
    [destruct Hrep1 as [Hnil _]; contradiction|].
  destruct Hrep1 as [Ht1 [Ha1 [Hc1 [Hsl1 [Hld1 [Hsh1 [Hmsg1 _]]]]]]].
  destruct (Hshow1 v1 eq_refl) as [Hd1 [Htm1 [Hse1 Hle1]]]. clear Hshow1.
  (* the rating call *)
  destruct (call_answered s1 k UserRating base (trim input) n2 h2 m2 b2
              Hwf1 Hcur1 Ht1 Hacc2) as [Hwf2 [Hcur2 [Hclk2 Hrep2]]].
  pose proof (fun v => answer_shows s1 k UserRating base (trim input) n2 h2 m2
                         b2 v Hwf1 Hcur1 Ht1 Hacc2) as Hshow2.
  set (s2 := run (answer k UserRating n2 h2 m2 b2) s1) in *.
  pose proof (accepted_answer_busy _ _ _ _ _ _ _ Hwf2 Hacc3) as Hbusy2.
  destruct (reported UserRating h2 b2) as [e2|v2];
    [destruct Hrep2 as [Hnil _]; contradiction|].
  destruct Hrep2 as [Ht2 [Ha2 [Hc2 [Hsl2 [Hld2 [Hsh2 [Hmsg2 _]]]]]]].
  destruct (Hshow2 v2 eq_refl) as [Hd2 [Htm2 [Hse2 Hle2]]]. clear Hshow2.
  (* the submission-history call *)
  destruct (call_answered s2 k UserStatus base (trim input) n3 h3 m3 b3
              Hwf2 Hcur2 Ht2 Hacc3) as [Hwf3 [Hcur3 [Hclk3 Hrep3]]].
  pose proof (fun v => answer_shows s2 k UserStatus base (trim input) n3 h3 m3
                         b3 v Hwf2 Hcur2 Ht2 Hacc3) as Hshow3.
  set (s3 := run (answer k UserStatus n3 h3 m3 b3) s2) in *.
  destruct (ok_response_reported UserStatus h3 b3 Hok3 ltac:(discriminate))
    as [v3 Hv3].
  rewrite Hv3 in Hrep3.
  destruct Hrep3 as [Ht3 [Ha3 [Hc3 [Hsl3 [Hld3 [Hsh3 [Hmsg3 Htm3]]]]]]].
  destruct (Hshow3 v3 Hv3) as [Hd3 [_ [Hse3 Hle3]]]. clear Hshow3.
  exists base, v1, v2, v3.
  split; [reflexivity|]. split; [reflexivity|]. split; [reflexivity|].
  split; [exact Hv3|].
  split.
  { rewrite Ha3, Ha2, Ha1, Ha0. cbn [report_action next_actions].
    repeat rewrite <- app_assoc. reflexivity. }
  split.
  { rewrite Hc3, Hc2, Hc1, Hc0. cbn [next_calls].
    repeat rewrite <- app_assoc. rewrite app_nil_r. reflexivity. }
  split.
  { rewrite Hsl3, Hsl2, Hsl1, Hsl0. reflexivity. }
  split; [exact Hld3|].
  split; [apply Htm3; reflexivity|].
  split; [exact Ht3|].
  split.
  { intros Hidle.
    destruct (Hui0 Hidle ltac:(discriminate)) as [Hshow _].
    destruct (showError (ui s3)) eqn:E; [|reflexivity].
    rewrite (Hsh1 (Hsh2 (Hsh3 eq_refl))) in Hshow. discriminate. }
  intros Hbusy. destruct (Hover base Hbusy eq_refl) as [Hse0 [Hmsg0 Htm0]].
  split; [congruence|].
  (* the timers of [s0] that came due were error timers *)
  assert (Hd : forall tm, In tm (timers s0) -> is_due (clock s3) tm = true ->
                          tm_kind tm = HideTimer).
  { apply (due_is_hide (clock s2) (clock s3) (timers s0) (timers s2) Hle3).
    - rewrite Htm2, Htm1. apply pending_pending. exact Hle2.
    - apply (due_is_hide (clock s1) (clock s2) (timers s0) (timers s1) Hle2
               Htm1 Hd1 Hd2).
    - exact Hd3. }
  assert (Hse : showError (ui s3) = none_due (clock s3) (timers s0)).
  { rewrite Hse3, Hse2, Hse1, Hse0, Htm2, Htm1. cbn [andb].
    rewrite pending_pending by exact Hle2.
    rewrite none_due_pending by exact Hle2.
    rewrite none_due_pending by lia. reflexivity. }
  assert (Hearly : (clock s3 < clock s + TIMEOUT)%N).
  { destruct (is_due (clock s3) (mkTimer k AbortTimer (clock s + TIMEOUT)))
      eqn:E.
    - assert (Habs : tm_kind (mkTimer k AbortTimer (clock s + TIMEOUT))
                     = HideTimer).
      { apply Hd; [|exact E]. rewrite Htm0. apply in_or_app. right.
        left. reflexivity. }
      discriminate Habs.
    - unfold is_due in E. cbn [tm_due] in E. apply N.leb_gt in E. exact E. }
  rewrite Hse. unfold none_due. rewrite forallb_forall. split.
  - intros Hall tm Hin _.
    assert (Hin0 : In tm (timers s0))
      by (rewrite Htm0; apply in_or_app; left; exact Hin).
    apply Hall in Hin0. apply negb_true_iff in Hin0. unfold is_due in Hin0.
    apply N.leb_gt in Hin0. exact Hin0.
  - intros Hall tm Hin. apply negb_true_iff.
    destruct (is_due (clock s3) tm) eqn:E; [|reflexivity]. exfalso.
    pose proof (Hd tm Hin E) as Hkind.
    rewrite Htm0 in Hin. apply in_app_or in Hin.
    destruct Hin as [Hin|[<-|[<-|[]]]].
    + apply (Hall tm Hin) in Hkind. unfold is_due in E. apply N.leb_le in E.
      lia.
    + discriminate Hkind.
    + unfold is_due in E. cbn [tm_due] in E. apply N.leb_le in E. lia.
Qed.

(** **** C4 and C5: a call that fails stops the sequence *)

Lemma classify_non_json text :
  classify (Error ("API returned non-JSON response: " ++ text)) = NON_JSON_NOTICE.
Proof. reflexivity. Qed.

Lemma validate_non_json h b :
  includes "application/json" (match h with Some x => x | None => "" end)
  = false ->
  validateResponse h b =
  inl (Error ("API returned non-JSON response: " ++ slice0 50 (raw b) ++ "...")).
Proof.
  intros Hct. unfold validateResponse. rewrite Hct. reflexivity.
Qed.

Lemma validate_failed h b data status comment :
  includes "application/json" (match h with Some x => x | None => "" end)
  = true ->
  json b = inr data -> get_prop data "status" = inr status ->
  strict_neq_str status "OK" = true ->
  get_prop data "comment" = inr comment ->
  validateResponse h b =
  inl (Error (to_string (or_else comment (JStr "Unknown API error")))).
Proof.
  intros Hct Hjson Hst Hneq Hc. unfold validateResponse.
  rewrite Hct, Hjson, Hst, Hneq, Hc. reflexivity.
Qed.

Lemma classify_plain msg :
  includes "non-JSON" msg = false -> classify (Error msg) = msg.
Proof.
  intros H. unfold classify. cbn [name message Error]. rewrite H. reflexivity.
Qed.

(** A submission and the answer to its profile call. *)
Lemma profile_answered s env input n h m b :
  wf s ->
  let k := S (current s) in
  accepted (answer k UserInfo n h m b) (step (Submit env input) s) = true ->
  let s' := run (answer k UserInfo n h m b) (step (Submit env input) s) in
  exists API_BASE,
    configured env = Some API_BASE
    /\ wf s' /\ current s' = k /\ clock s' = (clock s + n + m)%N
    /\ match reported UserInfo h b with
       | inl e =>
           tasks s' = []
           /\ acts k s' =
              (reset_actions (current s) ++
               [CallSetTimeout AbortTimer (clock s + TIMEOUT);
                CallFetch (url API_BASE UserInfo (trim input)) k] ++
               failure_report (classify e) (clock s + n + m))%list
           /\ calls s' =
              (calls s ++ [(k, url API_BASE UserInfo (trim input))])%list
           /\ slots s' = (JNull, JNull, JNull)
           /\ loader (ui s') = false
           /\ showError (ui s') = true
           /\ errorMessage (ui s') = classify e
       | inr v =>
           tasks s' = [mkTask k UserRating AwaitFetch k API_BASE (trim input)]
           /\ acts k s' =
              (reset_actions (current s) ++
               [CallSetTimeout AbortTimer (clock s + TIMEOUT);
                CallFetch (url API_BASE UserInfo (trim input)) k;
                SetUserInfo v;
                CallFetch (url API_BASE UserRating (trim input)) k])%list
           /\ calls s' =
              (calls s ++ [(k, url API_BASE UserInfo (trim input));
                           (k, url API_BASE UserRating (trim input))])%list
           /\ slots s' = (v, JNull, JNull)
       end.
Proof.
  intros Hwf k Hacc s'. subst s'.
  set (s0 := step (Submit env input) s) in *.
  assert (Hwf0 : wf s0) by (apply wf_step; exact Hwf).
  pose proof (accepted_answer_busy _ _ _ _ _ _ _ Hwf0 Hacc) as Hbusy0.
  pose proof (submit_tasks env input s Hwf) as Ht0.
  pose proof (submit_acts env input s Hwf) as Ha0.
  pose proof (submit_calls env input s Hwf) as Hc0.
  destruct (submit_started env input s Hwf) as [Hcur0 [Hclk0 [Hsl0 Hui0]]].
  fold s0 in Ht0, Ha0, Hc0, Hcur0, Hclk0, Hsl0, Hui0.
  fold k in Ht0, Ha0, Hc0, Hcur0.
  destruct (configured env) as [base|] eqn:Hcfg; [|contradiction].
  destruct (call_answered s0 k UserInfo base (trim input) n h m b
              Hwf0 Hcur0 Ht0 Hacc) as [Hwf1 [Hcur1 [Hclk1 Hrep1]]].
  exists base. split; [reflexivity|]. split; [exact Hwf1|].
  split; [exact Hcur1|]. split; [rewrite Hclk1, Hclk0; reflexivity|].
  destruct (reported UserInfo h b) as [e|v].
  - destruct Hrep1 as [Ht1 [Ha1 [Hc1 [Hsl1 [Hld1 [Hsh1 Hmsg1]]]]]].
    repeat split; try assumption.
    + rewrite Ha1, Ha0, Hclk1, Hclk0. repeat rewrite <- app_assoc.
      reflexivity.
    + rewrite Hc1, Hc0. reflexivity.
    + rewrite Hsl1, Hsl0. reflexivity.
  - destruct Hrep1 as [Ht1 [Ha1 [Hc1 [Hsl1 _]]]].
    repeat split; try assumption.
    + rewrite Ha1, Ha0. cbn [report_action next_actions].
      repeat rewrite <- app_assoc. reflexivity.
    + rewrite Hc1, Hc0. cbn [next_calls]. repeat rewrite <- app_assoc.
      reflexivity.
    + rewrite Hsl1, Hsl0. reflexivity.
Qed.

Lemma retired_idle s : wf s -> tasks s = [] -> retired (current s) s.
Proof. intros _ Hnil. right. split; [reflexivity|exact Hnil]. Qed.

(** C4, as the code has it.  When the profile call is answered with a
    content type that does not include "application/json", the validator
    throws the error whose message holds the first 50 characters of the
    body; the catch block replaces that message by the fixed notice of lines
    86-89, which holds nothing of the body, and reports the notice as the
    one error of the submission.  The rating call and the submission-history
    call are never made: from then on only the timers of the submission act
    in its name. *)
Theorem non_json_profile_answer_ends_the_sequence s env input n h m b :
  reachable s ->
  let k := S (current s) in
  let trace := Submit env input :: answer k UserInfo n h m b in
  accepted trace s = true ->
  includes "application/json" (match h with Some x => x | None => "" end)
  = false ->
  let s' := run trace s in
  validateResponse h b =
    inl (Error ("API returned non-JSON response: " ++ slice0 50 (raw b) ++ "..."))
  /\ (exists API_BASE,
        configured env = Some API_BASE
        /\ acts k s' =
           (reset_actions (current s) ++
            [CallSetTimeout AbortTimer (clock s + TIMEOUT);
             CallFetch (url API_BASE UserInfo (trim input)) k] ++
            failure_report NON_JSON_NOTICE (clock s + n + m))%list
        /\ calls s' = (calls s ++ [(k, url API_BASE UserInfo (trim input))])%list)
  /\ showError (ui s') = true
  /\ errorMessage (ui s') = NON_JSON_NOTICE
  /\ tasks s' = []
  /\ forall evs, exists later,
       acts k (run evs s') = (acts k s' ++ later)%list
       /\ Forall timer_callback_action later.
Proof.
  intros Hreach k trace Hacc Hct s'. subst s' trace k.
  pose proof (reachable_wf s Hreach) as Hwf.
  cbn [accepted] in Hacc. apply andb_prop in Hacc. destruct Hacc as [_ Hacc].
  cbn [run fold_left].
  fold (run (answer (S (current s)) UserInfo n h m b)
            (step (Submit env input) s)).
  destruct (profile_answered s env input n h m b Hwf Hacc)
    as [base [Hcfg [Hwf1 [Hcur1 [Hclk1 Hrep]]]]].
  pose proof (validate_non_json h b Hct) as Hval.
  unfold reported in Hrep. rewrite Hval in Hrep.
  rewrite classify_non_json in Hrep.
  destruct Hrep as [Ht1 [Ha1 [Hc1 [Hsl1 [Hld1 [Hsh1 Hmsg1]]]]]].
  split; [exact Hval|].
  split; [exists base; repeat split; assumption|].
  repeat split; try assumption.
  intros evs. apply retired_run; [exact Hwf1|].
  pose proof (retired_idle _ Hwf1 Ht1) as Hret.
  rewrite Hcur1 in Hret. exact Hret.
Qed.

(** C5, as the code has it.  When the profile call has succeeded and the
    rating call is answered by a JSON payload whose status is not "OK", the
    message the validator throws is the payload's comment if that is truthy
    and "Unknown API error" otherwise, and the catch block reports what
    [classify] makes of it: the comment itself, word for word, when it is a
    non-empty string without "non-JSON" in it; the fallback when the comment
    is absent (or empty, or otherwise falsy).  The submission-history call
    is never made. *)
Theorem failed_rating_answer_reports_the_comment
  s env input n1 h1 m1 b1 n2 h2 m2 b2 data status comment :
  reachable s ->
  let k := S (current s) in
  let trace :=
    Submit env input
    :: (answer k UserInfo n1 h1 m1 b1 ++ answer k UserRating n2 h2 m2 b2)%list in
  accepted trace s = true ->
  ok_response h1 b1 ->
  includes "application/json" (match h2 with Some x => x | None => "" end)
  = true ->
  json b2 = inr data ->
  get_prop data "status" = inr status -> strict_neq_str status "OK" = true ->
  get_prop data "comment" = inr comment ->
  let s' := run trace s in
  let thrown := to_string (or_else comment (JStr "Unknown API error")) in
  (exists API_BASE v1,
     configured env = Some API_BASE
     /\ reported UserInfo h1 b1 = inr v1
     /\ acts k s' =
        (reset_actions (current s) ++
         [CallSetTimeout AbortTimer (clock s + TIMEOUT);
          CallFetch (url API_BASE UserInfo (trim input)) k;
          SetUserInfo v1;
          CallFetch (url API_BASE UserRating (trim input)) k] ++
         failure_report (classify (Error thrown))
                        (clock s + n1 + m1 + n2 + m2))%list
     /\ calls s' =
        (calls s ++ [(k, url API_BASE UserInfo (trim input));
                     (k, url API_BASE UserRating (trim input))])%list)
  /\ showError (ui s') = true
  /\ errorMessage (ui s') = classify (Error thrown)
  /\ (forall c, comment = JStr c -> c <> "" -> includes "non-JSON" c = false ->
      classify (Error thrown) = c)
  /\ (truthy comment = false -> classify (Error thrown) = "Unknown API error")
  /\ tasks s' = []
  /\ forall evs, exists later,
       acts k (run evs s') = (acts k s' ++ later)%list
       /\ Forall timer_callback_action later.
Proof.
  intros Hreach k trace Hacc Hok1 Hct Hjson Hst Hneq Hcom s' thrown.
  subst s' trace k.
  pose proof (reachable_wf s Hreach) as Hwf.
  cbn [accepted] in Hacc. apply andb_prop in Hacc. destruct Hacc as [_ Hacc].
  rewrite accepted_app in Hacc.
  apply andb_prop in Hacc. destruct Hacc as [Hacc1 Hacc2].
  cbn [run fold_left]. fold (run (answer (S (current s)) UserInfo n1 h1 m1 b1
               ++ answer (S (current s)) UserRating n2 h2 m2 b2)%list
              (step (Submit env input) s)).
  rewrite run_app.
  destruct (profile_answered s env input n1 h1 m1 b1 Hwf Hacc1)
    as [base [Hcfg [Hwf1 [Hcur1 [Hclk1 Hrep]]]]].
  set (k := S (current s)) in *.
  set (s1 := run (answer k UserInfo n1 h1 m1 b1) (step (Submit env input) s)) in *.
  pose proof (accepted_answer_busy _ _ _ _ _ _ _ Hwf1 Hacc2) as Hbusy1.
  destruct (reported UserInfo h1 b1) as [e1|v1];
    [destruct Hrep as [Hnil _]; contradiction|].
  destruct Hrep as [Ht1 [Ha1 [Hc1 Hsl1]]].
  destruct (call_answered s1 k UserRating base (trim input) n2 h2 m2 b2
              Hwf1 Hcur1 Ht1 Hacc2) as [Hwf2 [Hcur2 [Hclk2 Hrep2]]].
  set (s2 := run (answer k UserRating n2 h2 m2 b2) s1) in *.
  pose proof (validate_failed h2 b2 data status comment Hct Hjson Hst Hneq Hcom)
    as Hval.
  unfold reported in Hrep2. rewrite Hval in Hrep2. fold thrown in Hrep2.
  destruct Hrep2 as [Ht2 [Ha2 [Hc2 [Hsl2 [Hld2 [Hsh2 Hmsg2]]]]]].
  split.
  { exists base, v1. split; [exact Hcfg|]. split; [reflexivity|]. split.
    - rewrite Ha2, Ha1, Hclk2, Hclk1. repeat rewrite <- app_assoc.
      reflexivity.
    - rewrite Hc2, Hc1. reflexivity. }
  split; [exact Hsh2|]. split; [exact Hmsg2|].
  split.
  { intros c -> Hne Hplain. subst thrown. unfold or_else. cbn [truthy].
    destruct (String.eqb_spec c ""); [contradiction|]. cbn [negb to_string].
    apply classify_plain. exact Hplain. }
  split.
  { intros Hfalsy. subst thrown. unfold or_else. rewrite Hfalsy. reflexivity. }
  split; [exact Ht2|].
  intros evs. apply retired_run; [exact Hwf2|].
  pose proof (retired_idle _ Hwf2 Ht2) as Hret.
  rewrite Hcur2 in Hret. exact Hret.
Qed.

(** **** The timeout of a submission that is left alone *)

Lemma fire_all_reaches (R Q : state -> Prop) due x s :
  wf s -> NoDup due -> In x due ->
  (forall tm, In tm due -> tm_sub tm <= current s) ->
  R s ->
  (forall tm s1, In tm due -> tm <> x -> wf s1 -> current s1 = current s ->
                 clock s1 = clock s -> R s1 -> R (drain (fire tm s1))) ->
  (forall s1, wf s1 -> current s1 = current s -> clock s1 = clock s ->
              R s1 -> Q (drain (fire x s1))) ->
  (forall tm s1, In tm due -> tm <> x -> wf s1 -> current s1 = current s ->
                 clock s1 = clock s -> Q s1 -> Q (drain (fire tm s1))) ->
  Q (fire_all due s).
Proof.
  intros Hwf Hnd Hx Hsub HR HRR HRQ HQQ. unfold fire_all.
  assert (G : forall s1, wf s1 -> current s1 = current s ->
                         clock s1 = clock s ->
              (In x due -> R s1 ->
               Q (fold_left (fun s tm => drain (fire tm s)) due s1))
              /\ (~ In x due -> Q s1 ->
                  Q (fold_left (fun s tm => drain (fire tm s)) due s1))).
  { clear Hx HR Hwf.
    induction due as [|tm due IH]; intros s1 Hwf1 Hc Hk.
    - split; [intros []|intros _ HQ; exact HQ].
    - inversion Hnd as [|? ? Hnotin Hnd']; subst.
      assert (Hle : tm_sub tm <= current s1)
        by (rewrite Hc; apply Hsub; left; reflexivity).
      destruct (wf_fire tm s1 Hwf1 Hle) as [Hwf' [Hc' Hk']].
      assert (IH' := IH Hnd'
                (fun tm' Hin => Hsub tm' (or_intror Hin))
                (fun tm' s2 Hin => HRR tm' s2 (or_intror Hin))
                (fun tm' s2 Hin => HQQ tm' s2 (or_intror Hin))
                (drain (fire tm s1)) Hwf'
                ltac:(congruence) ltac:(congruence)).
      destruct IH' as [IHin IHout].
      cbn [fold_left]. split.
      + intros [->|Hin] HR1.
        * apply IHout; [exact Hnotin|]. apply HRQ; assumption.
        * apply IHin; [exact Hin|].
          apply HRR; try assumption; [left; reflexivity|].
          intros ->. contradiction.
      + intros Hnot HQ1. apply IHout.
        * intros Hin. apply Hnot. right. exact Hin.
        * apply HQQ; try assumption; [left; reflexivity|].
          intros ->. apply Hnot. left. reflexivity. }
  destruct (G s Hwf eq_refl eq_refl) as [Gin _]. apply Gin; assumption.
Qed.

Lemma waiting_fire k t0 start tm s :
  wf s -> tm_sub tm <> k -> (t0 < clock s)%N ->
  waiting k t0 start s ->
  waiting k t0 start (drain (fire tm s))
  /\ (forall x, In x (timers s) -> In x (timers (drain (fire tm s)))).
Proof.
  intros Hwf. unfold waiting, acts.
  on_fire s Hwf tm; intros Hne Hclk [Hcur [Hmine Hcase]]; proj; subst.
  all: apply Nat.eqb_neq in Hne.
  all: (split; [split; [reflexivity|split]|]).
  all: try (intros x Hx; try apply in_or_app; auto; fail).
  all: repeat rewrite acts_of_cons; proj; rewrite ?Hne, ?Nat.eqb_refl;
       repeat rewrite <- app_assoc; cbn [app]; rewrite ?app_nil_r.
  all: try exact Hmine.
  all: try (destruct Hcase as [[Hbusy Hacts]|[Hidle [Hab' Hacts]]];
            [ try (exfalso; apply Hbusy; reflexivity);
              try (left; split; [exact Hbusy|exact Hacts])
            | try discriminate;
              right; split; [reflexivity|split; [|exact Hacts]];
              cbn [existsb]; rewrite ?Hab', ?orb_true_r; reflexivity ]).
  - intros x Hx Hk. apply in_app_or in Hx. destruct Hx as [Hx|[<-|[]]].
    + apply Hmine; assumption.
    + right. proj. lia.
  - right. split; [reflexivity|]. split.
    + cbn [existsb]. rewrite Nat.eqb_refl. reflexivity.
    + destruct Hcase as [[Hbusy Hacts]|[Hidle _]]; [|discriminate].
      exists clk. rewrite Hacts. reflexivity.
  - destruct Hcase as [[Hbusy Hacts]|[Hidle [Hab' Hacts]]]; [|discriminate].
    left. split; [exact Hbusy|exact Hacts].
Qed.

Lemma timeout_fire k t0 start s :
  wf s -> clock s = (t0 + TIMEOUT)%N ->
  waiting k t0 start s ->
  timed_out k t0 start (drain (fire (mkTimer k AbortTimer (t0 + TIMEOUT)) s)).
Proof.
  intros Hwf Hclk [Hcur [Hmine Hcase]].
  remember (mkTimer k AbortTimer (t0 + TIMEOUT)) as tm eqn:Etm.
  revert Etm Hclk Hcur Hmine Hcase. unfold timed_out, acts.
  on_fire s Hwf tm; intros Etm Hclk Hcur Hmine Hcase;
    try discriminate; injection Etm as -> ->; proj; subst.
  all: unfold is_aborted in *; proj.
  all: repeat rewrite acts_of_cons; proj; rewrite ?Nat.eqb_refl;
       repeat rewrite <- app_assoc; cbn [app]; rewrite ?app_nil_r.
  all: destruct Hcase as [[Hbusy Hacts]|[Hidle [Hab' [t Hacts]]]];
       try (exfalso; apply Hbusy; reflexivity); try discriminate.
  all: split; [reflexivity|]. all: split; [reflexivity|].
  all: split; [cbn [existsb]; rewrite ?Nat.eqb_refl, ?Hab'; reflexivity|].
  all: split; [cbn [In]; tauto|]. all: split; [cbn [In]; tauto|].
  - right. exists t. rewrite Hacts. repeat rewrite <- app_assoc. reflexivity.
  - congruence.
  - left. rewrite Hacts. reflexivity.
Qed.

Lemma timed_out_fire k t0 start tm s :
  wf s -> tm_sub tm <> k ->
  timed_out k t0 start s -> timed_out k t0 start (drain (fire tm s)).
Proof.
  intros Hwf. unfold timed_out, acts, is_aborted.
  on_fire s Hwf tm; intros Hne [Hcur [Hidle [Hab' [Hin1 [Hin2 Hacts]]]]];
    try discriminate; proj; subst.
  all: apply Nat.eqb_neq in Hne.
  all: repeat rewrite acts_of_cons; proj; rewrite ?Hne;
       repeat rewrite <- app_assoc; cbn [app]; rewrite ?app_nil_r.
  all: repeat split; try assumption; try reflexivity;
       try (cbn [In]; tauto);
       cbn [existsb]; rewrite ?Hab', ?orb_true_r; reflexivity.
Qed.

Lemma waiting_advance k t0 start s :
  waiting k t0 start s -> waiting k t0 start (advance s).
Proof.
  intros [Hcur [Hmine Hcase]]. destruct_state s.
  unfold waiting, advance, acts, is_aborted in *. proj.
  split; [exact Hcur|]. split; [|exact Hcase].
  intros tm Hin. apply filter_In in Hin. destruct Hin as [Hin _].
  apply Hmine. exact Hin.
Qed.

Lemma own_timer_not_due k t0 start s tm :
  waiting k t0 start s -> In tm (timers s) ->
  tm <> mkTimer k AbortTimer (t0 + TIMEOUT) ->
  (tm_due tm <= t0 + TIMEOUT)%N -> tm_sub tm <> k.
Proof.
  intros [_ [Hmine _]] Hin Hne Hdue Hk.
  destruct (Hmine tm Hin Hk) as [->|Hlate]; [apply Hne; reflexivity|lia].
Qed.

Lemma waiting_tick k t0 start s :
  wf s -> (t0 <= clock s)%N -> (clock s + 1 < t0 + TIMEOUT)%N ->
  waiting k t0 start s ->
  In (mkTimer k AbortTimer (t0 + TIMEOUT)) (timers s) ->
  waiting k t0 start (tick s)
  /\ In (mkTimer k AbortTimer (t0 + TIMEOUT)) (timers (tick s)).
Proof.
  intros Hwf Hlo Hhi Hwait Hin.
  apply (tick_ind (fun s1 => waiting k t0 start s1
            /\ In (mkTimer k AbortTimer (t0 + TIMEOUT)) (timers s1))).
  - exact Hwf.
  - split; [apply waiting_advance; exact Hwait|].
    unfold advance. proj. apply filter_In. split; [exact Hin|].
    unfold is_due. proj. apply negb_true_iff, N.leb_gt. lia.
  - intros tm s1 Htm Hdue Hwf1 Hcur Hclk [Hwait1 Hin1].
    assert (Hne : tm_sub tm <> k).
    { apply (own_timer_not_due k t0 start s tm Hwait Htm); [|lia].
      intros ->. proj. lia. }
    destruct (waiting_fire k t0 start tm s1 Hwf1 Hne ltac:(lia) Hwait1)
      as [Hwait2 Hkeep].
    split; [exact Hwait2|apply Hkeep; exact Hin1].
Qed.

Lemma timeout_tick k t0 start s :
  wf s -> (clock s + 1 = t0 + TIMEOUT)%N ->
  waiting k t0 start s ->
  In (mkTimer k AbortTimer (t0 + TIMEOUT)) (timers s) ->
  timed_out k t0 start (tick s).
Proof.
  intros Hwf Hclk Hwait Hin. unfold tick.
  apply (fire_all_reaches (waiting k t0 start) (timed_out k t0 start)
           _ (mkTimer k AbortTimer (t0 + TIMEOUT))).
  - apply wf_advance. exact Hwf.
  - apply NoDup_filter. apply wf_distinct. exact Hwf.
  - apply filter_In. split; [exact Hin|].
    unfold is_due. proj. apply N.leb_le. lia.
  - intros tm Htm. apply filter_In in Htm. destruct Htm as [Htm _].
    apply (wf_timers s Hwf) in Htm. apply Htm.
  - apply waiting_advance. exact Hwait.
  - intros tm s1 Htm Hne Hwf1 Hcur Hclk1 Hwait1.
    apply filter_In in Htm. destruct Htm as [Htm Hdue].
    unfold is_due in Hdue. apply N.leb_le in Hdue.
    apply waiting_fire; try assumption.
    + apply (own_timer_not_due k t0 start s tm Hwait Htm Hne). lia.
    + rewrite Hclk1. unfold advance. proj. unfold TIMEOUT in *. lia.
  - intros s1 Hwf1 Hcur Hclk1 Hwait1.
    apply timeout_fire; try assumption.
    rewrite Hclk1. unfold advance. proj. exact Hclk.
  - intros tm s1 Htm Hne Hwf1 Hcur Hclk1 Hout1.
    apply filter_In in Htm. destruct Htm as [Htm Hdue].
    unfold is_due in Hdue. apply N.leb_le in Hdue.
    apply timed_out_fire; try assumption.
    apply (own_timer_not_due k t0 start s tm Hwait Htm Hne). lia.
Qed.

Lemma waiting_elapse k t0 start s n :
  wf s -> clock s = t0 -> (n < TIMEOUT)%N ->
  waiting k t0 start s ->
  In (mkTimer k AbortTimer (t0 + TIMEOUT)) (timers s) ->
  waiting k t0 start (N.iter n tick s)
  /\ In (mkTimer k AbortTimer (t0 + TIMEOUT)) (timers (N.iter n tick s)).
Proof.
  intros Hwf Hclk Hn Hwait Hin.
  induction n using N.peano_ind.
  - split; assumption.
  - rewrite N.iter_succ.
    destruct (IHn ltac:(lia)) as [Hw Hi].
    assert (Hc : clock (N.iter n tick s) = (t0 + n)%N).
    { rewrite <- step_elapse by exact Hwf. rewrite clock_elapse by exact Hwf.
      lia. }
    apply waiting_tick; try assumption.
    + apply wf_elapse. exact Hwf.
    + lia.
    + lia.
Qed.

Lemma timed_out_after k t0 start s :
  wf s -> clock s = t0 ->
  waiting k t0 start s ->
  In (mkTimer k AbortTimer (t0 + TIMEOUT)) (timers s) ->
  timed_out k t0 start (step (Elapse TIMEOUT) s).
Proof.
  intros Hwf Hclk Hwait Hin. rewrite step_elapse by exact Hwf.
  replace (N.iter TIMEOUT tick s) with (tick (N.iter 9999 tick s))
    by (symmetry; exact (N.iter_succ 9999 _ tick s)).
  destruct (waiting_elapse k t0 start s 9999 Hwf Hclk ltac:(reflexivity)
              Hwait Hin) as [Hw Hi].
  apply timeout_tick; try assumption.
  - apply wf_elapse. exact Hwf.
  - rewrite <- step_elapse by exact Hwf. rewrite clock_elapse by exact Hwf.
    unfold TIMEOUT. lia.
Qed.

Lemma undisturbed_advance k t0 start s :
  undisturbed k t0 start s -> undisturbed k t0 start (advance s).
Proof.
  intros [Hcur [Hbusy [Hacts Honly]]]. destruct_state s.
  unfold undisturbed, advance, acts in *. proj.
  repeat split; try assumption.
  intros tm Hin. apply filter_In in Hin. destruct Hin as [Hin _].
  apply Honly. exact Hin.
Qed.

Lemma undisturbed_fire k t0 start tm s :
  wf s -> tm_kind tm = HideTimer -> tm_sub tm <> k ->
  undisturbed k t0 start s -> undisturbed k t0 start (drain (fire tm s)).
Proof.
  intros Hwf. unfold undisturbed, acts.
  on_fire s Hwf tm; intros Hkind Hne [Hcur [Hbusy [Hacts Hlone]]];
    try discriminate; proj; subst.
  - exfalso. apply Hbusy. reflexivity.
  - apply Nat.eqb_neq in Hne. rewrite acts_of_cons. proj.
    rewrite Hne, app_nil_r. repeat split; assumption.
Qed.

Lemma cancelled_fire k t0 start tm s :
  wf s -> tm_kind tm = HideTimer -> tm_sub tm <> k ->
  cancelled_by_timeout k t0 start s ->
  cancelled_by_timeout k t0 start (drain (fire tm s)).
Proof.
  intros Hwf. unfold cancelled_by_timeout, acts.
  on_fire s Hwf tm; intros Hkind Hne [Hcur [Hidle Hacts]];
    try discriminate; proj; subst.
  apply Nat.eqb_neq in Hne. rewrite acts_of_cons. proj.
  rewrite Hne, app_nil_r. repeat split; assumption.
Qed.

Lemma undisturbed_timeout k t0 start s :
  wf s -> clock s = (t0 + TIMEOUT)%N ->
  undisturbed k t0 start s ->
  cancelled_by_timeout k t0 start
    (drain (fire (mkTimer k AbortTimer (t0 + TIMEOUT)) s)).
Proof.
  intros Hwf Hclk [Hcur [Hbusy [Hacts _]]].
  remember (mkTimer k AbortTimer (t0 + TIMEOUT)) as tm eqn:Etm.
  revert Etm Hclk Hcur Hbusy Hacts. unfold cancelled_by_timeout, acts.
  on_fire s Hwf tm; intros Etm Hclk Hcur Hbusy Hacts;
    try discriminate; injection Etm as -> ->; proj; subst;
    try (exfalso; apply Hbusy; reflexivity).
  repeat rewrite acts_of_cons. proj. rewrite Nat.eqb_refl.
  repeat rewrite <- app_assoc. repeat split; reflexivity.
Qed.

(** A timer that is due while [k] waits undisturbed, other than the timeout
    of [k], is the error timer of an earlier submission. *)
Lemma due_timer_is_foreign k t0 start s tm :
  wf s -> undisturbed k t0 start s -> In tm (timers s) ->
  tm <> mkTimer k AbortTimer (t0 + TIMEOUT) ->
  tm_kind tm = HideTimer /\ tm_sub tm <> k.
Proof.
  intros Hwf [Hcur [Hbusy [_ Hlone]]] Hin Hne.
  assert (Hkind : tm_kind tm = HideTimer).
  { destruct (tm_kind tm) eqn:E; [|reflexivity].
    exfalso. apply Hne. apply Hlone; assumption. }
  split; [exact Hkind|].
  intros Hk. destruct (wf_tasks s Hwf) as [Hnil|[t [_ [_ [_ [_ Honly]]]]]].
  - contradiction.
  - rewrite (Honly tm Hin) in Hkind by congruence. discriminate.
Qed.

Lemma undisturbed_tick k t0 start s :
  wf s -> (clock s + 1 < t0 + TIMEOUT)%N ->
  undisturbed k t0 start s -> undisturbed k t0 start (tick s).
Proof.
  intros Hwf Hhi Hund.
  apply (tick_ind (undisturbed k t0 start)).
  - exact Hwf.
  - apply undisturbed_advance. exact Hund.
  - intros tm s1 Hin Hdue Hwf1 _ _ Hund1.
    destruct (due_timer_is_foreign k t0 start s tm Hwf Hund Hin)
      as [Hkind Hne].
    + intros ->. proj. lia.
    + apply undisturbed_fire; assumption.
Qed.

Lemma undisturbed_elapse k t0 start s n :
  wf s -> clock s = t0 -> (n < TIMEOUT)%N ->
  undisturbed k t0 start s -> undisturbed k t0 start (N.iter n tick s).
Proof.
  intros Hwf Hclk Hn Hund. induction n using N.peano_ind; [exact Hund|].
  rewrite N.iter_succ.
  apply undisturbed_tick.
  - apply wf_elapse. exact Hwf.
  - rewrite <- step_elapse by exact Hwf. rewrite clock_elapse by exact Hwf.
    lia.
  - apply IHn. lia.
Qed.

Lemma undisturbed_timeout_tick k t0 start s :
  wf s -> (clock s + 1 = t0 + TIMEOUT)%N ->
  undisturbed k t0 start s ->
  In (mkTimer k AbortTimer (t0 + TIMEOUT)) (timers s) ->
  cancelled_by_timeout k t0 start (tick s).
Proof.
  intros Hwf Hclk Hund Hin. unfold tick.
  apply (fire_all_reaches (undisturbed k t0 start)
           (cancelled_by_timeout k t0 start)
           _ (mkTimer k AbortTimer (t0 + TIMEOUT))).
  - apply wf_advance. exact Hwf.
  - apply NoDup_filter. apply wf_distinct. exact Hwf.
  - apply filter_In. split; [exact Hin|].
    unfold is_due. proj. apply N.leb_le. lia.
  - intros tm Htm. apply filter_In in Htm. destruct Htm as [Htm _].
    apply (wf_timers s Hwf) in Htm. apply Htm.
  - apply undisturbed_advance. exact Hund.
  - intros tm s1 Htm Hne Hwf1 _ _ Hund1.
    apply filter_In in Htm. destruct Htm as [Htm _].
    destruct (due_timer_is_foreign k t0 start s tm Hwf Hund Htm Hne).
    apply undisturbed_fire; assumption.
  - intros s1 Hwf1 _ Hclk1 Hund1.
    apply undisturbed_timeout; try assumption.
    rewrite Hclk1. unfold advance. proj. exact Hclk.
  - intros tm s1 Htm Hne Hwf1 _ _ Hcan.
    apply filter_In in Htm. destruct Htm as [Htm _].
    destruct (due_timer_is_foreign k t0 start s tm Hwf Hund Htm Hne).
    apply cancelled_fire; assumption.
Qed.

Lemma cancelled_by_timeout_after k t0 start s :
  wf s -> clock s = t0 ->
  undisturbed k t0 start s ->
  In (mkTimer k AbortTimer (t0 + TIMEOUT)) (timers s) ->
  cancelled_by_timeout k t0 start (step (Elapse TIMEOUT) s).
Proof.
  intros Hwf Hclk Hund Hin. rewrite step_elapse by exact Hwf.
  replace (N.iter TIMEOUT tick s) with (tick (N.iter 9999 tick s))
    by (symmetry; exact (N.iter_succ 9999 _ tick s)).
  pose proof (undisturbed_elapse k t0 start s 9999 Hwf Hclk
                ltac:(reflexivity) Hund) as Hund'.
  assert (Hwait : waiting k t0 start s).
  { destruct Hund as [Hcur [Hb [Hacts Hlone]]].
    split; [exact Hcur|]. split.
    - intros tm Htm Hk. left.
      destruct (wf_tasks s Hwf) as [Hnil|[t [_ [_ [_ [_ Honly]]]]]];
        [contradiction|].
      apply Hlone; [exact Htm|]. apply Honly; [exact Htm|congruence].
    - left. split; assumption. }
  destruct (waiting_elapse k t0 start s 9999 Hwf Hclk ltac:(reflexivity)
              Hwait Hin) as [_ Hin'].
  assert (Hwf' : wf (N.iter 9999 tick s)) by (apply wf_elapse; exact Hwf).
  assert (Hclk' : (clock (N.iter 9999 tick s) + 1 = t0 + TIMEOUT)%N).
  { rewrite <- step_elapse by exact Hwf. rewrite clock_elapse by exact Hwf.
    unfold TIMEOUT. lia. }
  exact (undisturbed_timeout_tick k t0 start _ Hwf' Hclk' Hund' Hin').
Qed.

Lemma submit_undisturbed env input s API_BASE :
  wf s -> configured env = Some API_BASE ->
  (forall tm, In tm (timers s) -> tm_kind tm = HideTimer) ->
  undisturbed (S (current s)) (clock s)
    (start_actions (current s) (clock s) API_BASE (trim input))
    (step (Submit env input) s).
Proof.
  intros Hwf Hsome Hhide. revert Hsome.
  on_submit s Hwf env; intros Hsome; try discriminate;
    injection Hsome as <-;
    unfold undisturbed, acts, start_actions, reset_actions, url; proj.
  all: split; [reflexivity|]. all: split; [discriminate|].
  all: split; [read_log; rewrite Hnone; reflexivity|].
  all: intros tm Hin Hkind; split_in Hin; try contradiction;
       try (apply Hhide in Hin; congruence);
       try (symmetry; exact Hin);
       subst tm; discriminate Hkind.
Qed.

Lemma submit_waits env input s API_BASE :
  wf s -> configured env = Some API_BASE ->
  let k := S (current s) in
  let s' := step (Submit env input) s in
  waiting k (clock s) (start_actions (current s) (clock s) API_BASE (trim input))
          s'
  /\ In (mkTimer k AbortTimer (clock s + TIMEOUT)) (timers s')
  /\ clock s' = clock s.
Proof.
  intros Hwf.
  on_submit s Hwf env; intros Hsome; try discriminate;
    injection Hsome as <-; cbv zeta;
    unfold waiting, acts, start_actions, reset_actions, url; proj.
  all: split; [split; [reflexivity|split]|split; [|reflexivity]].
  all: try (repeat rewrite in_app_iff; cbn [In]; tauto).
  all: try (left; split; [discriminate|]; read_log; rewrite Hnone;
            reflexivity).
  all: intros tm Hin Hk; split_in Hin; try contradiction;
       try (apply Htm in Hin; lia);
       try (left; symmetry; exact Hin);
       try (subst tm; proj; lia).
Qed.

Lemma late_answer_is_dropped e s k :
  wf s -> tasks s = [] -> answers k e -> step e s = s.
Proof.
  intros Hwf Hnil He. unfold step.
  assert (Hd : deliver e s = s).
  { destruct e; try contradiction; cbn [deliver]; rewrite Hnil; reflexivity. }
  rewrite Hd. apply drain_nil. apply wf_rejected. exact Hwf.
Qed.

(** **** C10: what a failure leaves in place *)

Lemma catch_block_effect k e s :
  catch_block k e s =
  mkState (clock s) (current s) (aborted s)
          (timers s ++ [mkTimer k HideTimer (clock s + TIMEOUT)])
          (tasks s) (rejected s)
          (mkUi false true (classify e) (userInfo (ui s)) (userRatings (ui s))
                (userProblems (ui s)))
          (mkEntry (clock s) k (CallSetTimeout HideTimer (clock s + TIMEOUT))
           :: mkEntry (clock s) k (SetShowError true)
           :: mkEntry (clock s) k (SetErrorMessage (classify e))
           :: mkEntry (clock s) k (SetLoader false)
           :: log s).
Proof. destruct_state s. reflexivity. Qed.

Lemma fire_keeps_slots tm s :
  wf s ->
  slots (drain (fire tm s)) = slots s
  /\ (tasks (drain (fire tm s)) = tasks s \/ tasks (drain (fire tm s)) = []).
Proof.
  intros Hwf. unfold slots.
  on_fire s Hwf tm; proj; split; try reflexivity; auto.
Qed.

Lemma tick_keeps_slots s :
  wf s ->
  slots (tick s) = slots s /\ (tasks (tick s) = tasks s \/ tasks (tick s) = []).
Proof.
  intros Hwf.
  apply (tick_ind (fun s1 => slots s1 = slots s
                             /\ (tasks s1 = tasks s \/ tasks s1 = []))).
  - exact Hwf.
  - split; [reflexivity|left; reflexivity].
  - intros tm s1 _ _ Hwf1 _ _ [Hsl Hts].
    destruct (fire_keeps_slots tm s1 Hwf1) as [Hsl' Hts'].
    split; [congruence|].
    destruct Hts' as [->| ->]; [exact Hts|right; reflexivity].
Qed.

Lemma elapse_keeps_slots n s :
  wf s ->
  slots (step (Elapse n) s) = slots s
  /\ (tasks (step (Elapse n) s) = tasks s \/ tasks (step (Elapse n) s) = []).
Proof.
  intros Hwf. rewrite step_elapse by exact Hwf.
  apply (elapse_ind (fun s1 => slots s1 = slots s
                               /\ (tasks s1 = tasks s \/ tasks s1 = []))).
  - exact Hwf.
  - split; [reflexivity|left; reflexivity].
  - intros s1 Hwf1 [Hsl Hts].
    destruct (tick_keeps_slots s1 Hwf1) as [Hsl' Hts'].
    split; [congruence|].
    destruct Hts' as [->| ->]; [exact Hts|right; reflexivity].
Qed.

Lemma response_keeps_earlier_slots e s :
  wf s -> is_submit e = false ->
  match e with Elapse _ => False | _ => True end ->
  ((forall t, In t (tasks s) -> t_stage t <> UserInfo) ->
   userInfo (ui (step e s)) = userInfo (ui s)
   /\ forall t, In t (tasks (step e s)) -> t_stage t <> UserInfo)
  /\ ((forall t, In t (tasks s) -> t_stage t = UserStatus) ->
      userRatings (ui (step e s)) = userRatings (ui s)
      /\ forall t, In t (tasks (step e s)) -> t_stage t = UserStatus).
Proof.
  intros Hwf Hns He.
  on_response s Hwf e; split; intros Hstage;
    try (pose proof (Hstage _ (or_introl eq_refl)) as Hst0; proj;
         try contradiction; try discriminate);
    (split; [reflexivity|]); intros t Hin; cbn [In] in Hin;
    try contradiction; try (apply Hstage; exact Hin);
    destruct Hin as [<-|[]]; proj; congruence.
Qed.

(** A stage that has been passed is not come back to without a new
    submission, and its slot is not written again. *)
Lemma step_keeps_earlier_slots e s :
  wf s -> is_submit e = false ->
  ((forall t, In t (tasks s) -> t_stage t <> UserInfo) ->
   userInfo (ui (step e s)) = userInfo (ui s)
   /\ forall t, In t (tasks (step e s)) -> t_stage t <> UserInfo)
  /\ ((forall t, In t (tasks s) -> t_stage t = UserStatus) ->
      userRatings (ui (step e s)) = userRatings (ui s)
      /\ forall t, In t (tasks (step e s)) -> t_stage t = UserStatus).
Proof.
  intros Hwf Hns. destruct e as [env input|k st h|k st b|k st msg|n];
    try discriminate;
    try (apply response_keeps_earlier_slots; [exact Hwf|reflexivity|exact I]).
  destruct (elapse_keeps_slots n s Hwf) as [Hsl Hts].
  unfold slots in Hsl. injection Hsl as Hi Hr Hp.
  split; intros Hst; (split; [assumption|]);
    intros t Hin; destruct Hts as [Hts|Hts]; rewrite Hts in Hin;
    try contradiction; apply Hst; exact Hin.
Qed.

Lemma run_keeps_earlier_slots evs s :
  wf s -> Forall (fun e => is_submit e = false) evs ->
  ((forall t, In t (tasks s) -> t_stage t <> UserInfo) ->
   userInfo (ui (run evs s)) = userInfo (ui s))
  /\ ((forall t, In t (tasks s) -> t_stage t = UserStatus) ->
      userRatings (ui (run evs s)) = userRatings (ui s)).
Proof.
  intros Hwf Hall. revert s Hwf.
  induction Hall as [|e evs He Hall IH]; intros s Hwf.
  - split; reflexivity.
  - cbn [run fold_left]. fold (run evs (step e s)).
    destruct (step_keeps_earlier_slots e s Hwf He) as [Hinfo Hrat].
    destruct (IH (step e s) (wf_step e s Hwf)) as [IHinfo IHrat].
    split; intros Hst.
    + destruct (Hinfo Hst) as [Heq Hst']. rewrite (IHinfo Hst'). exact Heq.
    + destruct (Hrat Hst) as [Heq Hst']. rewrite (IHrat Hst'). exact Heq.
Qed.

(** C10.  The catch block writes the loading flag, the error message and
    the error flag, arms the error timer and nothing else: the three result
    slots keep their values.  So once the profile has been reported (the
    sequence is past the profile stage), whatever fails afterwards and
    however, the profile slot keeps its value until the next submission;
    and so does the rating slot once the sequence is at the last stage. *)
Theorem later_failure_keeps_earlier_results s evs :
  reachable s -> Forall (fun e => is_submit e = false) evs ->
  (forall k error s1,
     slots (catch_block k error s1) = slots s1
     /\ loader (ui (catch_block k error s1)) = false
     /\ showError (ui (catch_block k error s1)) = true
     /\ errorMessage (ui (catch_block k error s1)) = classify error
     /\ tasks (catch_block k error s1) = tasks s1
     /\ current (catch_block k error s1) = current s1
     /\ aborted (catch_block k error s1) = aborted s1
     /\ timers (catch_block k error s1) =
        (timers s1 ++ [mkTimer k HideTimer (clock s1 + TIMEOUT)])%list
     /\ acts k (catch_block k error s1) =
        (acts k s1 ++ failure_report (classify error) (clock s1))%list)
  /\ ((forall t, In t (tasks s) -> t_stage t <> UserInfo) ->
      userInfo (ui (run evs s)) = userInfo (ui s))
  /\ ((forall t, In t (tasks s) -> t_stage t = UserStatus) ->
      userRatings (ui (run evs s)) = userRatings (ui s)).
Proof.
  intros Hreach Hall. split.
  - intros k error s1. rewrite catch_block_effect. unfold slots, acts. proj.
    repeat split. repeat rewrite acts_of_cons. proj.
    rewrite Nat.eqb_refl. repeat rewrite <- app_assoc. reflexivity.
  - apply run_keeps_earlier_slots; [apply reachable_wf; exact Hreach|exact Hall].
Qed.

(** **** C8: the error timers *)

Lemma hide_timer_survives_clear k j d :
  negb (is_abort_timer_of k (mkTimer j HideTimer d)) = true.
Proof. unfold is_abort_timer_of. proj. rewrite andb_false_r. reflexivity. Qed.

(** Membership in the timers of a state written out in full. *)
Ltac timer_here :=
  repeat rewrite in_app_iff; cbn [In];
  first
    [ tauto
    | apply filter_In; split;
      [ assumption | apply hide_timer_survives_clear ] ].

Ltac serve IH :=
  let t := fresh "t" in
  let j := fresh "j" in
  let Hin := fresh "Hin" in
  intros t j Hin; cbn [In] in Hin;
  repeat (destruct Hin as [Hin|Hin];
          [ first [ discriminate
                  | injection Hin as <- <-; left; timer_here ]
          | ]);
  apply IH in Hin; destruct Hin as [Hin|[Hin|Hin]];
  [ left; timer_here
  | try contradiction; right; left; cbn [In] in *; tauto
  | right; right; cbn [In]; tauto ].

Ltac still_recent IH :=
  let Hse := fresh "Hse" in
  intros Hse; proj;
  first
    [ discriminate
    | match goal with
      | |- context [mkEntry ?t ?j (SetShowError true) :: _] =>
          exists t, j; split; [ cbn [In]; tauto | left; timer_here ]
      end
    | let t := fresh "t" in
      let j := fresh "j" in
      let Hin := fresh "Hin" in
      let Htm := fresh "Htm" in
      destruct (IH Hse) as [t [j [Hin [Htm|Htm]]]];
      (exists t, j; split;
       [ cbn [In]; tauto
       | first [ left; timer_here
               | try contradiction; right; cbn [In] in *; tauto ] ]) ].

Lemma hides_initial info ratings problems :
  hides (initial info ratings problems).
Proof.
  split; [intros t j []|intros Hse; discriminate].
Qed.

Lemma hides_submit env input s :
  wf s -> hides s -> hides (step (Submit env input) s).
Proof.
  intros Hwf. unfold hides.
  on_submit s Hwf env; intros [Hserved Hrecent];
    unfold served_upto, recent_upto in *; proj;
    (split; [serve Hserved|still_recent Hrecent]).
Qed.

Lemma hides_response e s :
  wf s -> is_submit e = false ->
  match e with Elapse _ => False | _ => True end ->
  hides s -> hides (step e s).
Proof.
  intros Hwf Hns He. unfold hides.
  on_response s Hwf e; intros [Hserved Hrecent];
    unfold served_upto, recent_upto in *; proj;
    (split; [try assumption; serve Hserved
            |try assumption; still_recent Hrecent]).
Qed.

Lemma hides_fire tm rest s :
  wf s -> tm_due tm = clock s ->
  served_upto (tm :: rest) s /\ recent_upto (tm :: rest) s ->
  served_upto rest (drain (fire tm s)) /\ recent_upto rest (drain (fire tm s)).
Proof.
  intros Hwf. unfold served_upto, recent_upto.
  on_fire s Hwf tm; intros Hnow [Hserved Hrecent]; proj; subst; split.
  (* the errors shown so far *)
  all: try (intros t j Hin; cbn [In] in Hin;
            repeat (destruct Hin as [Hin|Hin];
                    [ first [ discriminate
                            | injection Hin as <- <-; left; timer_here ]
                    | ]);
            apply Hserved in Hin; cbn [In] in Hin;
            destruct Hin as [Hin|[[Hin|Hin]|Hin]];
            [ left; timer_here
            | first [ discriminate
                    | injection Hin as <- <-; right; right; cbn [In]; tauto ]
            | right; left; exact Hin
            | right; right; cbn [In]; tauto ]).
  (* the error that is visible *)
  all: intros Hse; proj; try discriminate.
  all: try (match goal with
            | |- context [mkEntry ?t ?j (SetShowError true) :: _] =>
                exists t, j; split; [ cbn [In]; tauto | left; timer_here ]
            end).
  all: destruct (Hrecent Hse) as [t [j [Hin [Hhere|Hthere]]]];
       (exists t, j; split; [cbn [In]; tauto|]);
       [ left; timer_here
       | cbn [In] in Hthere; destruct Hthere as [Heq|Hthere];
         [ discriminate | right; exact Hthere ] ].
Qed.

Lemma hides_fire_all due s :
  wf s -> (forall tm, In tm due -> tm_due tm = clock s /\ tm_sub tm <= current s) ->
  served_upto due s /\ recent_upto due s -> hides (fire_all due s).
Proof.
  unfold fire_all. revert s.
  induction due as [|tm due IH]; intros s Hwf Hdue Hinv; [exact Hinv|].
  cbn [fold_left].
  destruct (Hdue tm (or_introl eq_refl)) as [Hnow Hle].
  destruct (wf_fire tm s Hwf Hle) as [Hwf' [Hcur Hclk]].
  apply IH.
  - exact Hwf'.
  - intros tm' Hin. rewrite Hcur, Hclk. apply Hdue. right. exact Hin.
  - apply hides_fire; assumption.
Qed.

Lemma hides_tick s : wf s -> hides s -> hides (tick s).
Proof.
  intros Hwf [Hserved Hrecent]. unfold tick. apply hides_fire_all.
  - apply wf_advance. exact Hwf.
  - intros tm Hin. apply filter_In in Hin. destruct Hin as [Hin Hdue].
    unfold is_due in Hdue. apply N.leb_le in Hdue.
    apply (wf_timers s Hwf) in Hin. unfold advance. proj. lia.
  - assert (Hpart : forall tm, In tm (timers s) ->
              In tm (timers (advance s))
              \/ In tm (filter (is_due (clock s + 1)) (timers s))).
    { intros tm Hin. unfold advance. proj.
      destruct (is_due (clock s + 1) tm) eqn:E.
      - right. apply filter_In. split; assumption.
      - left. apply filter_In. split; [assumption|]. rewrite E. reflexivity. }
    split.
    + intros t j Hin. change (log (advance s)) with (log s) in *.
      destruct (Hserved t j Hin) as [Htm|[[]|Hlog]].
      * destruct (Hpart _ Htm); [left|right; left]; assumption.
      * right. right. exact Hlog.
    + intros Hse. change (ui (advance s)) with (ui s) in Hse.
      destruct (Hrecent Hse) as [t [j [Hin [Htm|[]]]]].
      exists t, j. split; [exact Hin|]. apply Hpart. exact Htm.
Qed.

Lemma hides_step e s : wf s -> hides s -> hides (step e s).
Proof.
  intros Hwf Hh. destruct e as [env input| | | |n].
  - apply hides_submit; assumption.
  - apply hides_response; auto.
  - apply hides_response; auto.
  - apply hides_response; auto.
  - rewrite step_elapse by exact Hwf.
    apply (elapse_ind hides); [exact Hwf|exact Hh|].
    intros s1 Hwf1 Hh1. apply hides_tick; assumption.
Qed.

Lemma reachable_hides s : reachable s -> hides s.
Proof.
  induction 1 as [|e s Hreach IH]; [apply hides_initial|].
  apply hides_step; [apply reachable_wf; exact Hreach|exact IH].
Qed.

Lemma submit_keeps_timers env input s tm :
  wf s -> In tm (timers s) -> In tm (timers (step (Submit env input) s)).
Proof.
  intros Hwf. on_submit s Hwf env; intros Hin; proj;
    repeat rewrite in_app_iff; tauto.
Qed.

(** C8, as the code has it.  The timer that an error arms when it is shown
    is never disarmed: it stays armed until ten seconds after the error was
    shown and fires at that very time, whether or not a submission was made
    in between, hiding whatever error is visible then.  Hence an error that
    is visible was shown less than ten seconds ago.  A submission, in any
    state, begins by calling abort, turning the loading flag on and hiding
    the error; the timers that were armed stay armed. *)
Theorem error_timers_fire_after_ten_seconds s :
  reachable s ->
  (forall t j, In (mkEntry t j (SetShowError true)) (log s) ->
     ((clock s < t + 10000)%N
      /\ In (mkTimer j HideTimer (t + 10000)) (timers s))
     \/ In (mkEntry (t + 10000) j (SetShowError false)) (log s))
  /\ (showError (ui s) = true ->
      exists t j, In (mkEntry t j (SetShowError true)) (log s)
                  /\ (clock s < t + 10000)%N)
  /\ (forall env input,
        (exists rest,
           acts (S (current s)) (step (Submit env input) s) =
           CallAbort (current s) :: SetLoader true :: SetShowError false
           :: rest)
        /\ forall tm, In tm (timers s) ->
                      In tm (timers (step (Submit env input) s))).
Proof.
  intros Hreach. pose proof (reachable_wf s Hreach) as Hwf.
  destruct (reachable_hides s Hreach) as [Hserved Hrecent].
  change 10000%N with TIMEOUT.
  split; [|split].
  - intros t j Hin. destruct (Hserved t j Hin) as [Htm|[[]|Hlog]].
    + left. split; [|exact Htm].
      apply (wf_timers s Hwf) in Htm. apply Htm.
    + right. exact Hlog.
  - intros Hse. destruct (Hrecent Hse) as [t [j [Hin [Htm|[]]]]].
    exists t, j. split; [exact Hin|].
    apply (wf_timers s Hwf) in Htm. apply Htm.
  - intros env input. split.
    + rewrite submit_acts by exact Hwf. unfold reset_actions. cbn [app].
      eexists. reflexivity.
    + intros tm Hin. apply submit_keeps_timers; assumption.
Qed.

(** **** Runs on a page *)

Lemma reachable_run evs s : reachable s -> reachable (run evs s).
Proof.
  revert s. induction evs as [|e evs IH]; intros s H; [exact H|].
  apply IH. apply reach_step. exact H.
Defined.

(** C1 as stated fails.  "tourist" is searched for and, 200 ms later and
    before any response, "Petr": after the second submission has begun (its
    abort call, its reset, its timer and its call come first), the first
    sequence reports its own outcome, "Request cancelled", turning the
    loading flag off and the error on while the second search is in flight.
    The second sequence then succeeds and its results are shown next to the
    error of the first: two outcomes are reported, not one. *)
Lemma superseded_sequence_reports_after_new_submission :
  skipn 8 (history (run [Elapse 200; Submit (Some CF) "Petr"] searching)) =
    [(200%N, 2, CallAbort 1); (200%N, 2, SetLoader true);
     (200%N, 2, SetShowError false); (200%N, 2, SetUserInfo JNull);
     (200%N, 2, SetUserRatings JNull); (200%N, 2, SetUserProblems JNull);
     (200%N, 2, CallSetTimeout AbortTimer 10200);
     (200%N, 2, CallFetch "https://codeforces.com/api/user.info?handles=Petr" 2);
     (200%N, 1, SetLoader false);
     (200%N, 1, SetErrorMessage "Request cancelled");
     (200%N, 1, SetShowError true);
     (200%N, 1, CallSetTimeout HideTimer 10200)]
  /\ ui (run [Elapse 200; Submit (Some CF) "Petr"] searching) =
     mkUi false true "Request cancelled" JNull JNull JNull
  /\ ui (run ([Elapse 200; Submit (Some CF) "Petr"] ++ three_answers 2)
             searching) =
     mkUi false true "Request cancelled" tourist rating_changes submissions.
Proof.
  vm_compute. repeat split.
Qed.

(** C3: the theorem at a fresh page, for a search whose three calls are
    answered well. *)
Lemma three_ok_answers_fill_the_slots_in_order_witness :
  reachable fresh_page
  /\ accepted (Submit (Some CF) "tourist" :: three_answers 1) fresh_page = true
  /\ ok_response JSON (ok_body (JArr [tourist]))
  /\ ok_response JSON (ok_body rating_changes)
  /\ ok_response JSON (ok_body submissions)
  /\ loader (ui (run (Submit (Some CF) "tourist" :: three_answers 1)
                     fresh_page)) = false
  /\ tasks (run (Submit (Some CF) "tourist" :: three_answers 1) fresh_page)
     = []
  /\ showError (ui (run (Submit (Some CF) "tourist" :: three_answers 1)
                        fresh_page)) = false.
Proof.
  assert (H0 : reachable fresh_page) by apply reach_initial.
  assert (H1 : accepted (Submit (Some CF) "tourist" :: three_answers 1)
                        fresh_page = true) by (vm_compute; reflexivity).
  assert (H2 : ok_response JSON (ok_body (JArr [tourist])))
    by (split; [reflexivity|eexists; split; reflexivity]).
  assert (H3 : ok_response JSON (ok_body rating_changes))
    by (split; [reflexivity|eexists; split; reflexivity]).
  assert (H4 : ok_response JSON (ok_body submissions))
    by (split; [reflexivity|eexists; split; reflexivity]).
  repeat (split; [assumption|]).
  destruct (three_ok_answers_fill_the_slots_in_order
              fresh_page (Some CF) "tourist"
              120 JSON 30 (ok_body (JArr [tourist]))
              150 JSON 40 (ok_body rating_changes)
              300 JSON 80 (ok_body submissions) H0 H1 H2 H3 H4)
    as [b [v1 [v2 [v3 [_ [_ [_ [_ [_ [_ [_ [Hld [_ [Hts [Hshow _]]]]]]]]]]]]]]].
  split; [exact Hld|]. split; [exact Hts|]. apply Hshow. reflexivity.
Defined.

(** C3 as stated fails.  The second search is made 200 ms after the first,
    which is still in flight; its three calls are answered with JSON and
    status "OK" and its results fill the slots, yet an error is shown: the
    "Request cancelled" of the first. *)
Lemma error_shown_beside_three_ok_answers :
  accepted ([Elapse 200; Submit (Some CF) "Petr"] ++ three_answers 2)
           searching = true
  /\ (ok_response JSON (ok_body (JArr [tourist]))
      /\ ok_response JSON (ok_body rating_changes)
      /\ ok_response JSON (ok_body submissions))
  /\ slots (run ([Elapse 200; Submit (Some CF) "Petr"] ++ three_answers 2)
                searching) = (tourist, rating_changes, submissions)
  /\ showError (ui (run ([Elapse 200; Submit (Some CF) "Petr"]
                         ++ three_answers 2) searching)) = true
  /\ errorMessage (ui (run ([Elapse 200; Submit (Some CF) "Petr"]
                            ++ three_answers 2) searching))
     = "Request cancelled"
  /\ messages 2 (run ([Elapse 200; Submit (Some CF) "Petr"]
                      ++ three_answers 2) searching) = [].
Proof.
  split; [vm_compute; reflexivity|]. split.
  - repeat split; try reflexivity; eexists; split; reflexivity.
  - vm_compute. repeat split.
Qed.

(** C4: the theorem at a fresh page, for a search whose profile call is
    answered by a page of HTML. *)
Lemma non_json_profile_answer_ends_the_sequence_witness :
  reachable fresh_page
  /\ accepted (Submit (Some CF) "tourist"
               :: answer 1 UserInfo 120 HTML 30 html_body) fresh_page = true
  /\ includes "application/json" "text/html; charset=utf-8" = false
  /\ errorMessage (ui (run (Submit (Some CF) "tourist"
                            :: answer 1 UserInfo 120 HTML 30 html_body)
                           fresh_page)) = NON_JSON_NOTICE.
Proof.
  assert (H0 : reachable fresh_page) by apply reach_initial.
  assert (H1 : accepted (Submit (Some CF) "tourist"
                         :: answer 1 UserInfo 120 HTML 30 html_body)
                        fresh_page = true) by (vm_compute; reflexivity).
  assert (H2 : includes "application/json" "text/html; charset=utf-8" = false)
    by reflexivity.
  repeat (split; [assumption|]).
  destruct (non_json_profile_answer_ends_the_sequence
              fresh_page (Some CF) "tourist" 120 HTML 30 html_body H0 H1 H2)
    as [_ [_ [_ [Hmsg _]]]].
  exact Hmsg.
Defined.

(** C4 as stated fails.  The validator's error does hold the first 50
    characters of the body, but that is not what is reported: the catch
    block sees "non-JSON" in its message and reports the fixed notice, in
    which nothing of the body appears. *)
Lemma reported_notice_holds_nothing_of_the_body :
  validateResponse HTML html_body =
    inl (Error "API returned non-JSON response: <!DOCTYPE html><html><head><title>Codeforces</titl...")
  /\ messages 1 (run (Submit (Some CF) "tourist"
                      :: answer 1 UserInfo 120 HTML 30 html_body) fresh_page)
     = [NON_JSON_NOTICE]
  /\ errorMessage (ui (run (Submit (Some CF) "tourist"
                            :: answer 1 UserInfo 120 HTML 30 html_body)
                           fresh_page)) = NON_JSON_NOTICE
  /\ includes (slice0 50 (raw html_body)) NON_JSON_NOTICE = false
  /\ includes "<!DOCTYPE" NON_JSON_NOTICE = false.
Proof.
  vm_compute. repeat split.
Qed.

(** C5: the theorem at a fresh page, for a search whose rating call is
    answered with status "FAILED" and a comment. *)
Lemma failed_rating_answer_reports_the_comment_witness :
  reachable fresh_page
  /\ accepted (Submit (Some CF) "tourist"
               :: (answer 1 UserInfo 120 JSON 30 (ok_body (JArr [tourist]))
                   ++ answer 1 UserRating 150 JSON 40
                        (failed_body "Call limit exceeded"))%list)
              fresh_page = true
  /\ ok_response JSON (ok_body (JArr [tourist]))
  /\ errorMessage
       (ui (run (Submit (Some CF) "tourist"
                 :: (answer 1 UserInfo 120 JSON 30 (ok_body (JArr [tourist]))
                     ++ answer 1 UserRating 150 JSON 40
                          (failed_body "Call limit exceeded"))%list)
                fresh_page)) = "Call limit exceeded".
Proof.
  assert (H0 : reachable fresh_page) by apply reach_initial.
  assert (H1 : accepted
                 (Submit (Some CF) "tourist"
                  :: (answer 1 UserInfo 120 JSON 30 (ok_body (JArr [tourist]))
                      ++ answer 1 UserRating 150 JSON 40
                           (failed_body "Call limit exceeded"))%list)
                 fresh_page = true) by (vm_compute; reflexivity).
  assert (H2 : ok_response JSON (ok_body (JArr [tourist])))
    by (split; [reflexivity|eexists; split; reflexivity]).
  repeat (split; [assumption|]).
  destruct (failed_rating_answer_reports_the_comment
              fresh_page (Some CF) "tourist"
              120 JSON 30 (ok_body (JArr [tourist]))
              150 JSON 40 (failed_body "Call limit exceeded")
              (JObj [("status", JStr "FAILED");
                     ("comment", JStr "Call limit exceeded")])
              (JStr "FAILED") (JStr "Call limit exceeded")
              H0 H1 H2 eq_refl eq_refl eq_refl eq_refl eq_refl)
    as [_ [_ [Hmsg [Hverbatim _]]]].
  refine (eq_trans Hmsg _). apply (Hverbatim "Call limit exceeded").
  - reflexivity.
  - discriminate.
  - reflexivity.
Defined.

(** C5 as stated fails, in two ways.  A comment that is present but empty
    gives way to the fallback "Unknown API error"; and a comment in which
    "non-JSON" occurs is not reported at all: the catch block takes the
    error for the validator's other error and reports the fixed notice. *)
Lemma comment_is_not_always_reported_verbatim :
  get_prop (JObj [("status", JStr "FAILED"); ("comment", JStr "")]) "comment"
    = inr (JStr "")
  /\ errorMessage
       (ui (run (answer 1 UserRating 150 JSON 40 (failed_body ""))
                profile_shown)) = "Unknown API error"
  /\ errorMessage
       (ui (run (answer 1 UserRating 150 JSON 40
                   (failed_body "Internal error: non-JSON reply from backend"))
                profile_shown)) = NON_JSON_NOTICE
  /\ accepted (answer 1 UserRating 150 JSON 40 (failed_body "")) profile_shown
     = true
  /\ accepted (answer 1 UserRating 150 JSON 40
                 (failed_body "Internal error: non-JSON reply from backend"))
              profile_shown = true
  /\ userInfo (ui profile_shown) = tourist.
Proof.
  vm_compute. repeat split.
Qed.

(** C8: the theorem at the page of [two_failures], ten seconds after the
    first search. *)
Lemma error_timers_fire_after_ten_seconds_witness :
  reachable (run [Elapse 3000] two_failures)
  /\ In (mkEntry 10000 1 (SetShowError false))
        (log (run [Elapse 3000] two_failures)).
Proof.
  assert (H0 : reachable (run [Elapse 3000] two_failures)).
  { apply reachable_run. unfold two_failures. apply reachable_run.
    unfold searching. apply reach_step. apply reach_initial. }
  split; [exact H0|].
  destruct (error_timers_fire_after_ten_seconds _ H0) as [Hserved _].
  destruct (Hserved 0%N 1) as [[Hearly _]|Hfired].
  - vm_compute. tauto.
  - vm_compute in Hearly. discriminate Hearly.
  - exact Hfired.
Defined.

(** C8 as stated fails.  The error of the second search is shown at 7000 ms
    and no submission follows; at 10000 ms, three seconds later, the timer
    of the error of the first search, which the second submission did not
    disarm, fires and hides it. *)
Lemma stale_error_timer_hides_a_later_error :
  clock two_failures = 7000%N
  /\ skipn 20 (history two_failures) =
     [(7000%N, 2, SetLoader false);
      (7000%N, 2, SetErrorMessage "Failed to fetch");
      (7000%N, 2, SetShowError true);
      (7000%N, 2, CallSetTimeout HideTimer 17000)]
  /\ showError (ui two_failures) = true
  /\ showError (ui (run [Elapse 2999] two_failures)) = true
  /\ showError (ui (run [Elapse 3000] two_failures)) = false
  /\ skipn 24 (history (run [Elapse 3000] two_failures)) =
     [(10000%N, 1, CallAbort 2); (10000%N, 1, Uncaught TIMED_OUT);
      (10000%N, 1, SetShowError false)].
Proof.
  vm_compute. repeat split.
Qed.

(** C10: the theorem at the page that shows the profile, for a rating call
    that fails. *)
Lemma later_failure_keeps_earlier_results_witness :
  reachable profile_shown
  /\ Forall (fun e => is_submit e = false)
            (answer 1 UserRating 150 JSON 40 (failed_body "Call limit exceeded"))
  /\ userInfo (ui (run (answer 1 UserRating 150 JSON 40
                          (failed_body "Call limit exceeded")) profile_shown))
     = tourist.
Proof.
  assert (H0 : reachable profile_shown).
  { unfold profile_shown. apply reachable_run. unfold searching.
    apply reach_step. apply reach_initial. }
  assert (H1 : Forall (fun e => is_submit e = false)
                 (answer 1 UserRating 150 JSON 40
                    (failed_body "Call limit exceeded")))
    by (repeat constructor).
  split; [exact H0|]. split; [exact H1|].
  destruct (later_failure_keeps_earlier_results profile_shown _ H0 H1)
    as [_ [Hinfo _]].
  refine (eq_trans (Hinfo _) _).
  - intros t Hin. vm_compute in Hin. destruct Hin as [<-|[]].
    intros Hstage. discriminate Hstage.
  - vm_compute. reflexivity.
Defined.

(** **** C6, C7 and C9: where the code departs from the claims *)

Lemma abort_current k s :
  In (mkEntry (clock s) k (CallAbort (current s))) (log (abort k s))
  /\ is_aborted (current s) (abort k s) = true.
Proof.
  unfold abort. destruct (is_aborted (current s) s) eqn:E.
  - split; [left; reflexivity|exact E].
  - split; [left; reflexivity|].
    unfold is_aborted. cbn [aborted existsb]. rewrite Nat.eqb_refl. reflexivity.
Qed.

(** C6 fails on the code.  The callback of the timeout calls [abort] on
    the controller that is current when the timer fires, not on the one of
    the submission that set the timer, and nothing disarms the timer of a
    submission that is superseded (the defect of C7).  Here "Petr" is
    searched for 3000 ms after "tourist", and no response arrives.  The
    token of the first submission is invalidated by the second submission,
    at 3000 ms; at 10000 ms the timer of the first fires and what it
    invalidates is the token of the second, whose search is seven seconds
    old: that search reports "Request cancelled", and its three answers,
    which arrive within its own ten seconds, are dropped. *)
Theorem timeout_of_a_superseded_submission_aborts_the_later_one :
  (forall k due s,
     fire (mkTimer k AbortTimer due) s =
       record k (Uncaught TIMED_OUT) (abort k s)
     /\ In (mkEntry (clock s) k (CallAbort (current s))) (log (abort k s))
     /\ is_aborted (current s) (abort k s) = true)
  /\ clock superseded_waiting = 9999%N
  /\ current superseded_waiting = 2
  /\ aborted superseded_waiting = [1; 0]
  /\ timers superseded_waiting =
     [mkTimer 1 AbortTimer 10000; mkTimer 2 AbortTimer 13000;
      mkTimer 1 HideTimer 13000]
  /\ tasks superseded_waiting = [mkTask 2 UserInfo AwaitFetch 2 CF "Petr"]
  /\ skipn 8 (history (run [Elapse 1] superseded_waiting)) =
     [(3000%N, 2, CallAbort 1); (3000%N, 2, SetLoader true);
      (3000%N, 2, SetShowError false); (3000%N, 2, SetUserInfo JNull);
      (3000%N, 2, SetUserRatings JNull); (3000%N, 2, SetUserProblems JNull);
      (3000%N, 2, CallSetTimeout AbortTimer 13000);
      (3000%N, 2, CallFetch "https://codeforces.com/api/user.info?handles=Petr" 2);
      (3000%N, 1, SetLoader false);
      (3000%N, 1, SetErrorMessage "Request cancelled");
      (3000%N, 1, SetShowError true);
      (3000%N, 1, CallSetTimeout HideTimer 13000);
      (10000%N, 1, CallAbort 2); (10000%N, 1, Uncaught TIMED_OUT);
      (10000%N, 2, SetLoader false);
      (10000%N, 2, SetErrorMessage "Request cancelled");
      (10000%N, 2, SetShowError true);
      (10000%N, 2, CallSetTimeout HideTimer 20000)]
  /\ aborted (run [Elapse 1] superseded_waiting) = [2; 1; 0]
  /\ tasks (run [Elapse 1] superseded_waiting) = []
  /\ ui (run [Elapse 1] superseded_waiting) =
     mkUi false true "Request cancelled" JNull JNull JNull
  /\ clock (run (Elapse 1 :: three_answers 2) superseded_waiting) = 10720%N
  /\ history (run (Elapse 1 :: three_answers 2) superseded_waiting) =
     history (run [Elapse 1] superseded_waiting)
  /\ slots (run (Elapse 1 :: three_answers 2) superseded_waiting) =
     (JNull, JNull, JNull).
Proof.
  split.
  - intros k due s. split; [reflexivity|apply abort_current].
  - vm_compute. repeat split.
Qed.

(** C7 fails on the code.  The catch block arms the error timer and leaves
    the timeout of the submission armed ([clearTimeout] is called on the
    path of success only); and its callback aborts whatever controller is
    current when it fires.  Here the first search fails after one second,
    a second search is made at 5000 ms; the timeout of the first, still
    armed, fires at 10000 ms and aborts the second search, which was made
    five seconds before. *)
Theorem failed_submission_leaves_its_timeout_armed :
  (forall k error s,
     timers (catch_block k error s) =
     (timers s ++ [mkTimer k HideTimer (clock s + TIMEOUT)])%list)
  /\ clock second_search_waiting = 9999%N
  /\ timers second_search_waiting =
     [mkTimer 1 AbortTimer 10000; mkTimer 1 HideTimer 11000;
      mkTimer 2 AbortTimer 15000]
  /\ tasks second_search_waiting = [mkTask 2 UserInfo AwaitFetch 2 CF "tourist"]
  /\ skipn 20 (history (run [Elapse 1] second_search_waiting)) =
     [(10000%N, 1, CallAbort 2); (10000%N, 1, Uncaught TIMED_OUT);
      (10000%N, 2, SetLoader false);
      (10000%N, 2, SetErrorMessage "Request cancelled");
      (10000%N, 2, SetShowError true);
      (10000%N, 2, CallSetTimeout HideTimer 20000)]
  /\ tasks (run [Elapse 1] second_search_waiting) = [].
Proof.
  split.
  - intros k error s. rewrite catch_block_effect. reflexivity.
  - vm_compute. repeat split.
Qed.

(** C9 fails on the code.  The callback of the timeout throws its error
    when the timer fires, long after [handleSearch] has left the try block
    at its first await: nothing catches it.  What the catch block gets, and
    reports, is the AbortError of the call that the callback aborted; the
    message "Request timed out (10 seconds)" is never reported. *)
Theorem timeout_error_escapes_the_catch_block :
  (forall k due s,
     fire (mkTimer k AbortTimer due) s =
     record k (Uncaught TIMED_OUT) (abort k s))
  /\ skipn 8 (history (run [Elapse 10000] searching)) =
     [(10000%N, 1, CallAbort 1);
      (10000%N, 1,
       Uncaught (mkError "Error" "Request timed out (10 seconds)"));
      (10000%N, 1, SetLoader false);
      (10000%N, 1, SetErrorMessage "Request cancelled");
      (10000%N, 1, SetShowError true);
      (10000%N, 1, CallSetTimeout HideTimer 20000)]
  /\ messages 1 (run [Elapse 10000] searching) = ["Request cancelled"]
  /\ errorMessage (ui (run [Elapse 10000] searching)) = "Request cancelled".
Proof.
  split; [intros k due s; reflexivity|].
  vm_compute. repeat split.
Qed.

(** **** The validator *)

(** What [new Error] makes of a comment that is a number: the digits of an
    integer below [10^21], and above it the shortest decimal that denotes
    the same double, with an exponent. *)
Lemma numeric_comment_samples :
  to_string (JNum 0) = "0"
  /\ to_string (JNum (-1500)) = "-1500"
  /\ to_string (JNum 9007199254740993) = "9007199254740992"
  /\ to_string (JNum 18446744073709551616) = "18446744073709552000"
  /\ to_string (JNum 100000000000000000000) = "100000000000000000000"
  /\ to_string (JNum 1000000000000000000000) = "1e+21"
  /\ to_string (JNum 1180591620717411303424) = "1.1805916207174113e+21"
  /\ to_string (JNum (-123456789012345678901234567890)) =
     "-1.2345678901234568e+29"
  /\ to_string (JNum (2 ^ 1024)) = "Infinity".
Proof.
  vm_compute. repeat split.
Qed.

Lemma validate_ok header b data :
  includes "application/json" (match header with Some h => h | None => "" end)
  = true ->
  json b = inr data -> get_prop data "status" = inr (JStr "OK") ->
  validateResponse header b = inr data.
Proof.
  intros Hct Hjson Hst. unfold validateResponse.
  rewrite Hct, Hjson, Hst. reflexivity.
Qed.

(** X1.  The validator returns a payload exactly when the content-type
    header includes "application/json", the body parses, and the [status]
    of the parsed value is the string "OK"; what it returns is the parsed
    value itself.  In every other case it throws. *)
Theorem validator_accepts_json_with_status_ok_only header b data :
  validateResponse header b = inr data <->
  includes "application/json" (match header with Some h => h | None => "" end)
  = true
  /\ json b = inr data
  /\ get_prop data "status" = inr (JStr "OK").
Proof.
  split; [|intros [Hct [Hjson Hst]]; apply validate_ok; assumption].
  unfold validateResponse.
  destruct (includes "application/json" _); cbn [negb]; [|discriminate].
  destruct (json b) as [msg|d]; [discriminate|].
  destruct (get_prop d "status") as [e|status] eqn:Hst; [discriminate|].
  destruct (strict_neq_str status "OK") eqn:Hneq.
  - destruct (get_prop d "comment"); discriminate.
  - intros H. injection H as ->. split; [reflexivity|]. split; [reflexivity|].
    rewrite Hst. destruct status; try discriminate Hneq.
    cbn [strict_neq_str] in Hneq. apply negb_false_iff in Hneq.
    apply String.eqb_eq in Hneq. subst. reflexivity.
Qed.

Lemma slice0_length n s :
  String.length (slice0 n s) = Nat.min n (String.length s).
Proof.
  unfold slice0. revert s. induction n as [|n IH]; intros s.
  - destruct s; reflexivity.
  - destruct s as [|c s]; [reflexivity|]. cbn. rewrite IH. reflexivity.
Qed.

Lemma slice0_prefix n s : String.prefix (slice0 n s) s = true.
Proof.
  unfold slice0. revert s. induction n as [|n IH]; intros s.
  - destruct s; reflexivity.
  - destruct s as [|c s]; [reflexivity|]. cbn.
    destruct (Ascii.ascii_dec c c); [apply IH|contradiction].
Qed.

(** X2.  A response whose content-type header is missing, or does not
    include "application/json", is rejected whatever its body holds, were
    it a well-formed payload with status "OK": the body is read as text
    and the error quotes its beginning, the whole of it when it is shorter
    than 50 characters and never more than 50. *)
Theorem non_json_answer_is_rejected_whatever_its_body header b :
  includes "application/json" (match header with Some h => h | None => "" end)
  = false ->
  exists quoted,
    validateResponse header b =
      inl (Error ("API returned non-JSON response: " ++ quoted ++ "..."))
    /\ String.prefix quoted (raw b) = true
    /\ String.length quoted = Nat.min 50 (String.length (raw b)).
Proof.
  intros Hct. exists (slice0 50 (raw b)).
  split; [apply validate_non_json; exact Hct|].
  split; [apply slice0_prefix|apply slice0_length].
Qed.

(** X2 at a response that has no content-type header and a body that is a
    well-formed profile payload. *)
Lemma non_json_answer_is_rejected_whatever_its_body_witness :
  includes "application/json" "" = false
  /\ exists quoted,
       validateResponse None (ok_body (JArr [tourist])) =
         inl (Error ("API returned non-JSON response: " ++ quoted ++ "..."))
       /\ String.prefix quoted (raw (ok_body (JArr [tourist]))) = true
       /\ String.length quoted =
          Nat.min 50 (String.length (raw (ok_body (JArr [tourist])))).
Proof.
  split; [reflexivity|].
  exact (non_json_answer_is_rejected_whatever_its_body
           None (ok_body (JArr [tourist])) eq_refl).
Defined.

(** **** The handle *)

Lemma trimStart_blank s : blank s = true -> trimStart s = "".
Proof.
  induction s as [|c s IH]; [reflexivity|]. cbn. intros H.
  apply andb_prop in H. destruct H as [Hc Hs]. rewrite Hc. apply IH, Hs.
Qed.

Lemma trimEnd_blank s : blank s = true -> trimEnd s = "".
Proof.
  induction s as [|c s IH]; [reflexivity|]. cbn. intros H.
  apply andb_prop in H. destruct H as [Hc Hs]. rewrite (IH Hs), Hc. reflexivity.
Qed.

Lemma trimStart_pad l s : blank l = true -> trimStart (l ++ s) = trimStart s.
Proof.
  induction l as [|c l IH]; [reflexivity|]. cbn. intros H.
  apply andb_prop in H. destruct H as [Hc Hl]. rewrite Hc. apply IH, Hl.
Qed.

Lemma trimEnd_pad s r : blank r = true -> trimEnd (s ++ r) = trimEnd s.
Proof.
  intros Hr. induction s as [|c s IH]; [apply trimEnd_blank, Hr|].
  cbn. rewrite IH. reflexivity.
Qed.

Lemma trim_pad l s r :
  blank l = true -> blank r = true -> trim (l ++ s ++ r) = trim s.
Proof.
  intros Hl Hr. unfold trim. rewrite trimStart_pad by exact Hl.
  induction s as [|c s IH].
  - cbn [append]. rewrite trimStart_blank by exact Hr. reflexivity.
  - cbn [append trimStart]. destruct (is_space c); [exact IH|].
    change (String c (s ++ r)) with (String c s ++ r).
    apply trimEnd_pad. exact Hr.
Qed.

Lemma trim_blank s : blank s = true -> trim s = "".
Proof.
  intros H. unfold trim. rewrite trimStart_blank by exact H. reflexivity.
Qed.

Lemma append_empty s : (s ++ "")%string = s.
Proof.
  induction s as [|c s IH]; [reflexivity|]. cbn. rewrite IH. reflexivity.
Qed.

(** X3.  White space around the handle plays no part: a submission of the
    handle with white space before and after it leaves the page in the very
    state the submission of the handle alone does. *)
Theorem surrounding_white_space_is_ignored env l handle r s :
  blank l = true -> blank r = true ->
  step (Submit env (l ++ handle ++ r)) s = step (Submit env handle) s.
Proof.
  intros Hl Hr. unfold step, deliver, handleSearch.
  rewrite (trim_pad l handle r Hl Hr). reflexivity.
Qed.

(** X3 at a handle typed with two spaces before it and a tabulation and a
    no-break space after it. *)
Lemma surrounding_white_space_is_ignored_witness :
  blank "  " = true
  /\ blank (String (ascii_of_nat 9) (String (ascii_of_nat 160) "")) = true
  /\ step (Submit (Some CF)
             ("  " ++ "tourist"
              ++ String (ascii_of_nat 9) (String (ascii_of_nat 160) "")))
          fresh_page
     = step (Submit (Some CF) "tourist") fresh_page.
Proof.
  split; [reflexivity|]. split; [reflexivity|].
  exact (surrounding_white_space_is_ignored
           (Some CF) "  " "tourist"
           (String (ascii_of_nat 9) (String (ascii_of_nat 160) ""))
           fresh_page eq_refl eq_refl).
Defined.

(** X4.  The handle is not checked: when the field is empty or holds white
    space only and the configuration passes, the submission makes the
    profile call all the same, with nothing after "handles=", and waits for
    its answer. *)
Theorem blank_handle_is_searched_for s env input API_BASE :
  reachable s -> blank input = true -> configured env = Some API_BASE ->
  let k := S (current s) in
  let s' := step (Submit env input) s in
  calls s' = (calls s ++ [(k, (API_BASE ++ "user.info?handles=")%string)])%list
  /\ tasks s' = [mkTask k UserInfo AwaitFetch k API_BASE ""].
Proof.
  intros Hreach Hblank Hcfg k s'. subst s' k.
  pose proof (reachable_wf s Hreach) as Hwf.
  rewrite submit_calls, submit_tasks by exact Hwf.
  rewrite Hcfg, (trim_blank input Hblank). unfold url. cbn [endpoint].
  rewrite append_empty. split; reflexivity.
Qed.

(** X4 at a fresh page, for a field that holds a space, a no-break space
    and a line feed. *)
Lemma blank_handle_is_searched_for_witness :
  let field :=
    String (ascii_of_nat 32)
      (String (ascii_of_nat 160) (String (ascii_of_nat 10) "")) in
  reachable fresh_page /\ blank field = true
  /\ configured (Some CF) = Some CF
  /\ calls (step (Submit (Some CF) field) fresh_page) =
     (calls fresh_page
      ++ [(1, (CF ++ "user.info?handles=")%string)])%list.
Proof.
  intros field.
  assert (H0 : reachable fresh_page) by apply reach_initial.
  split; [exact H0|]. split; [reflexivity|]. split; [reflexivity|].
  exact (proj1 (blank_handle_is_searched_for
                  fresh_page (Some CF) field CF H0 eq_refl eq_refl)).
Defined.

(** **** What holds of every state, case by case *)

Lemma elapse_stable (P : state -> Prop) n s :
  wf s -> P s ->
  (forall s1, wf s1 -> P s1 -> P (advance s1)) ->
  (forall tm s1, wf s1 -> tm_sub tm <= current s1 -> P s1 ->
                 P (drain (fire tm s1))) ->
  P (step (Elapse n) s).
Proof.
  intros Hwf HP Hadv Hfire. rewrite step_elapse by exact Hwf.
  apply elapse_ind; [exact Hwf|exact HP|].
  intros s1 Hwf1 HP1. apply tick_ind; [exact Hwf1|apply Hadv; assumption|].
  intros tm s2 Hin _ Hwf2 Hcur _ HP2. apply Hfire; try assumption.
  rewrite Hcur. apply (wf_timers s1 Hwf1) in Hin. apply Hin.
Qed.

(** A property of the fresh page that submissions, responses, the removal
    of the timers that fall due and the callbacks of timers keep holds of
    every state the page can be in. *)
Lemma invariant_ind (P : state -> Prop) :
  (forall info ratings problems, P (initial info ratings problems)) ->
  (forall env input s, wf s -> P s -> P (step (Submit env input) s)) ->
  (forall e s, wf s -> is_submit e = false ->
               match e with Elapse _ => False | _ => True end ->
               P s -> P (step e s)) ->
  (forall s, wf s -> P s -> P (advance s)) ->
  (forall tm s, wf s -> tm_sub tm <= current s -> P s ->
                P (drain (fire tm s))) ->
  forall s, reachable s -> P s.
Proof.
  intros Hinit Hsub Hresp Hadv Hfire s Hreach.
  induction Hreach as [|e s Hreach IH]; [apply Hinit|].
  pose proof (reachable_wf s Hreach) as Hwf.
  destruct e as [env input| | | |n].
  - apply Hsub; assumption.
  - apply Hresp; auto.
  - apply Hresp; auto.
  - apply Hresp; auto.
  - apply elapse_stable; assumption.
Qed.

Ltac in_log H :=
  cbn [In] in H;
  repeat match type of H with _ \/ _ => destruct H as [H|H] end.

Ltac find_entry := cbn [In]; repeat (first [left; reflexivity | right]).

(** **** One sequence, one live controller *)

(** X5.  At most one invocation of [handleSearch] is ever suspended: it is
    the one of the latest submission, the signal it gave its call is the
    one of the current controller, and that signal is not aborted.  No
    rejection is left waiting for its catch block. *)
Theorem at_most_one_sequence_is_in_flight s :
  reachable s ->
  rejected s = []
  /\ (tasks s = []
      \/ exists t, tasks s = [t] /\ t_sub t = current s
                   /\ t_signal t = current s
                   /\ is_aborted (t_signal t) s = false).
Proof.
  intros Hreach. pose proof (reachable_wf s Hreach) as Hwf.
  split; [apply (wf_rejected s Hwf)|].
  destruct (wf_tasks s Hwf) as [Hnil|[t [Ht [Hsub [Hsig [Hab _]]]]]].
  - left. exact Hnil.
  - right. exists t. rewrite Hsig. repeat split; assumption.
Qed.

(** X5 at the page whose second search was made while the first was in
    flight. *)
Lemma at_most_one_sequence_is_in_flight_witness :
  reachable searching_again
  /\ rejected searching_again = []
  /\ (tasks searching_again = []
      \/ exists t, tasks searching_again = [t]
                   /\ t_sub t = current searching_again
                   /\ t_signal t = current searching_again
                   /\ is_aborted (t_signal t) searching_again = false).
Proof.
  assert (H0 : reachable searching_again)
    by (apply reach_step; apply reach_step; apply reach_initial).
  split; [exact H0|].
  exact (at_most_one_sequence_is_in_flight searching_again H0).
Defined.

Lemma superseded_aborted s :
  reachable s -> forall c, c < current s -> is_aborted c s = true.
Proof.
  revert s.
  apply (invariant_ind
           (fun s => forall c, c < current s -> is_aborted c s = true)).
  - intros info ratings problems c Hc. cbn in Hc. lia.
  - intros env input s Hwf. unfold is_aborted.
    on_submit s Hwf env; intros IH c Hc; proj; cbn [existsb];
      (destruct (Nat.eqb_spec c cur) as [->|Hne];
       [ first [ reflexivity | exact E ]
       | cbn [orb]; apply IH; lia ]).
  - intros e s Hwf Hns He. unfold is_aborted.
    on_response s Hwf e; intros IH c Hlt; proj; apply IH; exact Hlt.
  - intros s _ IH c Hc. apply IH. exact Hc.
  - intros tm s Hwf _. unfold is_aborted.
    on_fire s Hwf tm; intros IH c Hc; proj; cbn [existsb];
      rewrite ?(IH c Hc), ?orb_true_r; reflexivity.
Qed.

(** X6.  Every controller the component has replaced is aborted: the one
    of [useRef] and those of all submissions but the latest; and no
    controller is aborted that has not been created.  So only the current
    controller can be live. *)
Theorem superseded_controllers_are_aborted s c :
  reachable s ->
  (c < current s -> is_aborted c s = true)
  /\ (is_aborted c s = true -> c <= current s).
Proof.
  intros Hreach. split; [apply superseded_aborted; exact Hreach|].
  unfold is_aborted. intros Hab. apply existsb_exists in Hab.
  destruct Hab as [x [Hin Heq]]. apply Nat.eqb_eq in Heq. subst x.
  apply (wf_aborted s (reachable_wf s Hreach)). exact Hin.
Qed.

(** X6 at the page whose second search was made while the first was in
    flight: the controllers 0 and 1 are aborted. *)
Lemma superseded_controllers_are_aborted_witness :
  reachable searching_again
  /\ is_aborted 0 searching_again = true
  /\ is_aborted 1 searching_again = true.
Proof.
  assert (H0 : reachable searching_again)
    by (apply reach_step; apply reach_step; apply reach_initial).
  split; [exact H0|]. split.
  - apply (superseded_controllers_are_aborted searching_again 0 H0).
    vm_compute. lia.
  - apply (superseded_controllers_are_aborted searching_again 1 H0).
    vm_compute. lia.
Defined.

(** X7.  Although every call reads the signal off the shared reference
    when it is made (lines 58, 65 and 72), none is ever given the signal of
    another submission's controller: the signal of a call is the one of the
    controller its own submission created. *)
Theorem every_fetch_carries_its_own_signal s :
  reachable s ->
  forall en u sig, In en (log s) -> e_act en = CallFetch u sig ->
                   sig = e_sub en.
Proof.
  revert s.
  apply (invariant_ind
           (fun s => forall en u sig, In en (log s) ->
                       e_act en = CallFetch u sig -> sig = e_sub en)).
  - intros info ratings problems en u sig [].
  - intros env input s Hwf IH.
    on_submit s Hwf env; intros en u sig Hin Hact; proj; in_log Hin;
      try (subst en; proj; first [discriminate Hact | congruence]);
      eapply IH; eassumption.
  - intros e s Hwf Hns He IH.
    on_response s Hwf e; intros en u sig Hin Hact; proj; in_log Hin;
      try (subst en; proj; first [discriminate Hact | congruence]);
      eapply IH; eassumption.
  - intros s _ IH. exact IH.
  - intros tm s Hwf _ IH.
    on_fire s Hwf tm; intros en u sig Hin Hact; proj; in_log Hin;
      try (subst en; proj; first [discriminate Hact | congruence]);
      eapply IH; eassumption.
Qed.

(** X7 at the page that shows the profile of the first search: its rating
    call was given signal 1. *)
Lemma every_fetch_carries_its_own_signal_witness :
  let en :=
    mkEntry 150 1
      (CallFetch "https://codeforces.com/api/user.rating?handle=tourist" 1) in
  reachable profile_shown /\ In en (log profile_shown) /\ 1 = e_sub en.
Proof.
  intros en.
  assert (H0 : reachable profile_shown).
  { unfold profile_shown. apply reachable_run. unfold searching.
    apply reach_step. apply reach_initial. }
  assert (H1 : In en (log profile_shown)) by (vm_compute; tauto).
  split; [exact H0|]. split; [exact H1|].
  exact (every_fetch_carries_its_own_signal profile_shown H0 en _ _ H1
           eq_refl).
Defined.

(** **** The calls of a submission *)

Lemma fetched_of_cons k en l :
  fetched_of k (en :: l) =
  (fetched_of k l ++
   match e_act en with
   | CallFetch u _ => if e_sub en =? k then [u] else []
   | _ => []
   end)%list.
Proof.
  unfold fetched_of. rewrite calls_of_cons, filter_app, map_app.
  destruct (e_act en); cbn [filter map]; try reflexivity.
  cbn [fst]. destruct (e_sub en =? k); reflexivity.
Qed.

Lemma fetched_of_fresh k l :
  (forall en, In en l -> e_sub en < k) -> fetched_of k l = [].
Proof.
  induction l as [|en l IH]; intros H; [reflexivity|].
  rewrite fetched_of_cons, IH by (intros x Hx; apply H; right; exact Hx).
  assert (E : (e_sub en =? k) = false).
  { apply Nat.eqb_neq. specialize (H en (or_introl eq_refl)). lia. }
  rewrite E. destruct (e_act en); reflexivity.
Qed.

(** Reads [fetched] off a log written out in full. *)
Ltac read_fetched :=
  unfold fetched in *; proj;
  repeat rewrite fetched_of_cons; proj; cbv beta iota;
  rewrite ?app_nil_r.

(** Keeps what was known of submission [k] before the step, when the step
    leaves its calls as they are and it has no invocation afterwards, or
    the one it had. *)
Ltac same_calls IH k :=
  let b := fresh "b" in
  let q := fresh "q" in
  let n := fresh "n" in
  let Hf := fresh "Hf" in
  let Ht := fresh "Ht" in
  destruct (IH k) as [b [q [n [Hf Ht]]]];
  exists b, q, n; split; [exact Hf|];
  let t := fresh "t" in
  let Hin := fresh "Hin" in
  let Hs := fresh "Hs" in
  intros t Hin Hs; cbn [In] in Hin;
  first
    [ contradiction
    | apply Ht; assumption
    | destruct Hin as [<-|[]]; proj;
      first [ lia | congruence
            | apply (Ht _ (or_introl eq_refl)); assumption ] ].

Lemma in_sequence_submit env input s :
  wf s -> in_sequence s -> in_sequence (step (Submit env input) s).
Proof.
  intros Hwf IH. unfold in_sequence in *.
  on_submit s Hwf env; intros k0; read_fetched.
  all: assert (Hnew : fetched_of (S cur) lg = [])
         by (apply fetched_of_fresh; intros en Hen; apply Hl in Hen; lia).
  all: destruct (Nat.eqb_spec (S cur) k0) as [<-|Hne];
       [ rewrite Hnew;
         first
           [ exists b, (trim input), 1; split; [reflexivity|];
             intros t [<-|[]] _; repeat split
           | exists EmptyString, EmptyString, 0; split; [reflexivity|];
             intros t [] ]
       | rewrite ?app_nil_r; same_calls IH k0 ].
Qed.

Lemma in_sequence_response e s :
  wf s -> is_submit e = false ->
  match e with Elapse _ => False | _ => True end ->
  in_sequence s -> in_sequence (step e s).
Proof.
  intros Hwf Hns He IH. unfold in_sequence in *.
  on_response s Hwf e; try exact IH; intros k0; read_fetched; cbn [negb].
  all: try (same_calls IH k0).
  all: destruct (Nat.eqb_spec cur k0) as [<-|Hne];
       [ destruct (IH cur) as [b0 [q0 [n0 [Hf0 Ht0]]]];
         destruct (Ht0 _ (or_introl eq_refl) eq_refl) as [Hb [Hq Hn]];
         proj; exists b0, q0, (S n0); subst; rewrite Hf0;
         split; [reflexivity|]; intros t [<-|[]] _; repeat split
       | rewrite app_nil_r; same_calls IH k0 ].
Qed.

Lemma in_sequence_fire tm s :
  wf s -> in_sequence s -> in_sequence (drain (fire tm s)).
Proof.
  intros Hwf IH. unfold in_sequence in *.
  on_fire s Hwf tm; intros k0; read_fetched; same_calls IH k0.
Qed.

Lemma reachable_in_sequence s : reachable s -> in_sequence s.
Proof.
  revert s. apply (invariant_ind in_sequence).
  - intros info ratings problems k.
    exists EmptyString, EmptyString, 0. split; [reflexivity|intros t []].
  - intros env input s Hwf IH. apply in_sequence_submit; assumption.
  - intros e s Hwf Hns He IH. apply in_sequence_response; assumption.
  - intros s _ IH. exact IH.
  - intros tm s Hwf _ IH. apply in_sequence_fire; assumption.
Qed.

(** X8.  Whatever happens, the calls a submission has made are the first
    [n] of the three calls of one search, in their order and all for the
    same base URL and the same handle: never more than three, never one
    out of turn, never one twice.  While the sequence is in flight, [n] is
    the number of the stage it waits at. *)
Theorem calls_of_a_submission_are_the_first_of_the_three s k :
  reachable s ->
  exists API_BASE searchValue n,
    n <= 3
    /\ fetched k s = firstn n (three_urls API_BASE searchValue)
    /\ forall t, In t (tasks s) -> t_sub t = k ->
         t_base t = API_BASE /\ t_query t = searchValue
         /\ n = stage_number (t_stage t).
Proof.
  intros Hreach.
  destruct (reachable_in_sequence s Hreach k) as [b [q [n [Hf Ht]]]].
  destruct (le_lt_dec n 3) as [Hle|Hgt].
  - exists b, q, n. split; [exact Hle|]. split; assumption.
  - exists b, q, 3. split; [lia|]. split.
    + rewrite Hf. apply firstn_all2. cbn. lia.
    + intros t Hin Hs. destruct (Ht t Hin Hs) as [_ [_ Hn]].
      destruct (t_stage t); cbn in Hn; lia.
Qed.

(** X8 at the page that shows the profile of the first search. *)
Lemma calls_of_a_submission_are_the_first_of_the_three_witness :
  reachable profile_shown
  /\ exists API_BASE searchValue n,
       n <= 3
       /\ fetched 1 profile_shown = firstn n (three_urls API_BASE searchValue)
       /\ forall t, In t (tasks profile_shown) -> t_sub t = 1 ->
            t_base t = API_BASE /\ t_query t = searchValue
            /\ n = stage_number (t_stage t).
Proof.
  assert (H0 : reachable profile_shown).
  { unfold profile_shown. apply reachable_run. unfold searching.
    apply reach_step. apply reach_initial. }
  split; [exact H0|].
  exact (calls_of_a_submission_are_the_first_of_the_three profile_shown 1 H0).
Defined.

(** **** The timeout of every submission *)

Lemma loader_means_in_flight s :
  reachable s ->
  loader (ui s) = true -> showError (ui s) = false /\ tasks s <> [].
Proof.
  revert s.
  apply (invariant_ind
           (fun s => loader (ui s) = true ->
                     showError (ui s) = false /\ tasks s <> [])).
  - intros info ratings problems H. discriminate H.
  - intros env input s Hwf.
    on_submit s Hwf env; intros IH Hld; proj; try discriminate Hld;
      (split; [reflexivity|discriminate]).
  - intros e s Hwf Hns He.
    on_response s Hwf e; intros IH Hld; proj; try discriminate Hld;
      try (apply IH; exact Hld);
      (split; [apply IH; exact Hld|discriminate]).
  - intros s _ IH. exact IH.
  - intros tm s Hwf _.
    on_fire s Hwf tm; intros IH Hld; proj; try discriminate Hld;
      try (apply IH; exact Hld);
      (split; [reflexivity|apply IH; exact Hld]).
Qed.

Lemma timers_are_near s :
  reachable s ->
  forall tm, In tm (timers s) -> (tm_due tm <= clock s + TIMEOUT)%N.
Proof.
  revert s.
  apply (invariant_ind
           (fun s => forall tm, In tm (timers s) ->
                                (tm_due tm <= clock s + TIMEOUT)%N)).
  - intros info ratings problems tm [].
  - intros env input s Hwf.
    on_submit s Hwf env; intros IH tm Hin; proj; split_in Hin;
      try (subst tm; proj; lia); try contradiction; apply IH; exact Hin.
  - intros e s Hwf Hns He.
    on_response s Hwf e; intros IH tm Hin; proj; split_in Hin;
      try (subst tm; proj; lia); try contradiction; apply IH; exact Hin.
  - intros s _ IH tm Hin. unfold advance in *. proj.
    apply filter_In in Hin. destruct Hin as [Hin _]. apply IH in Hin. lia.
  - intros tm0 s Hwf _.
    on_fire s Hwf tm0; intros IH tm Hin; proj; split_in Hin;
      try (subst tm; proj; lia); try contradiction; apply IH; exact Hin.
Qed.

Lemma set_for_ten_seconds s :
  reachable s ->
  forall en kind d, In en (log s) -> e_act en = CallSetTimeout kind d ->
                    d = (e_time en + TIMEOUT)%N.
Proof.
  revert s.
  apply (invariant_ind
           (fun s => forall en kind d, In en (log s) ->
                       e_act en = CallSetTimeout kind d ->
                       d = (e_time en + TIMEOUT)%N)).
  - intros info ratings problems en kind d [].
  - intros env input s Hwf IH.
    on_submit s Hwf env; intros en kind d Hin Hact; proj; in_log Hin;
      try (subst en; proj; first [discriminate Hact | congruence]);
      eapply IH; eassumption.
  - intros e s Hwf Hns He IH.
    on_response s Hwf e; intros en kind d Hin Hact; proj; in_log Hin;
      try (subst en; proj; first [discriminate Hact | congruence]);
      eapply IH; eassumption.
  - intros s _ IH. exact IH.
  - intros tm s Hwf _ IH.
    on_fire s Hwf tm; intros en kind d Hin Hact; proj; in_log Hin;
      try (subst en; proj; first [discriminate Hact | congruence]);
      eapply IH; eassumption.
Qed.

Lemma reachable_started s : reachable s -> started s.
Proof.
  revert s. apply (invariant_ind started); unfold started.
  - intros info ratings problems H. contradiction H. reflexivity.
  - intros env input s Hwf IH.
    on_submit s Hwf env; intros Hbusy; proj;
      try (contradiction Hbusy; reflexivity).
    all: split; [eexists; find_entry|].
    all: intros en Hin Hsub; in_log Hin;
         try (subst en; proj; split; discriminate).
    all: destruct en as [et es ea]; apply Hl in Hin; proj; lia.
  - intros e s Hwf Hns He IH.
    on_response s Hwf e; intros Hbusy; proj;
      try (contradiction Hbusy; reflexivity);
      try (apply IH; exact Hbusy).
    all: destruct (IH ltac:(discriminate)) as [[t0 Hset] Hnone].
    all: split; [exists t0; cbn [In]; tauto|].
    all: intros en Hin Hsub; in_log Hin;
         try (subst en; proj; split; discriminate);
         destruct en as [et es ea]; apply (Hnone _ Hin); assumption.
  - intros s _ IH. exact IH.
  - intros tm s Hwf _ IH.
    on_fire s Hwf tm; intros Hbusy; proj;
      try (contradiction Hbusy; reflexivity).
    all: destruct (IH ltac:(discriminate)) as [[t0 Hset] Hnone].
    all: split; [exists t0; cbn [In]; tauto|].
    all: intros en Hin Hsub; in_log Hin;
         try (subst en; proj; split; discriminate);
         destruct en as [et es ea]; apply (Hnone _ Hin); assumption.
Qed.

Ltac timer_kept :=
  repeat rewrite in_app_iff; cbn [In]; tauto.

(** What has become of the timeout of an entry of the log, in a state
    written out in full. *)
Ltac fate IH :=
  let t := fresh "t" in
  let j := fresh "j" in
  let Hin := fresh "Hin" in
  intros t j Hin; in_log Hin;
  try discriminate Hin;
  try (injection Hin; intros; subst; left; timer_kept);
  apply IH in Hin;
  destruct Hin as [Hin|[Hin|[[Hin [c [Hle Hcall]]]|[t' Hin]]]];
  [ first
      [ left; timer_kept
      | match goal with
        | |- In (mkTimer ?j _ _) (filter _ _) \/ _ =>
            match type of Hin with
            | In _ ?tms =>
                match goal with
                | Htm : forall tm, In tm tms -> _ /\ tm_sub tm <= ?cur |- _ =>
                    destruct (Nat.eqb_spec j cur) as [->|Hne];
                    [ right; right; right; eexists; find_entry
                    | left; apply filter_In; split; [exact Hin|];
                      unfold is_abort_timer_of; proj;
                      rewrite (proj2 (Nat.eqb_neq _ _) Hne); reflexivity ]
                end
            end
        end ]
  | right; left; exact Hin
  | right; right; left; split;
    [ cbn [In]; tauto | exists c; split; [exact Hle | cbn [In]; tauto] ]
  | right; right; right; exists t'; cbn [In]; tauto ].

Lemma timeouts_initial info ratings problems :
  timeouts_upto [] (initial info ratings problems).
Proof. intros t k []. Qed.

Lemma timeouts_submit env input s :
  wf s -> timeouts_upto [] s -> timeouts_upto [] (step (Submit env input) s).
Proof.
  intros Hwf IH. unfold timeouts_upto in *.
  on_submit s Hwf env; proj; fate IH.
Qed.

Lemma timeouts_response e s :
  wf s -> is_submit e = false ->
  match e with Elapse _ => False | _ => True end ->
  timeouts_upto [] s -> timeouts_upto [] (step e s).
Proof.
  intros Hwf Hns He IH. unfold timeouts_upto in *.
  on_response s Hwf e; proj; try exact IH; fate IH.
Qed.

Lemma timeouts_fire tm rest s :
  wf s -> tm_due tm = clock s -> tm_sub tm <= current s ->
  timeouts_upto (tm :: rest) s -> timeouts_upto rest (drain (fire tm s)).
Proof.
  intros Hwf. unfold timeouts_upto.
  on_fire s Hwf tm; intros Hnow Hcur IH; proj; subst.
  all: intros t j Hin; in_log Hin; try discriminate Hin.
  all: apply IH in Hin; cbn [In] in Hin.
  all: destruct Hin as [Hin|[[Hin|Hin]|[[Hin [c [Hle Hcall]]]|[t' Hin]]]].
  all: try (left; timer_kept).
  all: try (right; left; exact Hin).
  all: try (right; right; left; split;
            [ cbn [In]; tauto | exists c; split; [exact Hle | cbn [In]; tauto] ]).
  all: try (right; right; right; exists t'; cbn [In]; tauto).
  all: try discriminate Hin.
  all: injection Hin as <- <-; right; right; left;
       (split; [find_entry | eexists; split; [exact Hcur | find_entry]]).
Qed.

Lemma timeouts_fire_all due s :
  wf s ->
  (forall tm, In tm due -> tm_due tm = clock s /\ tm_sub tm <= current s) ->
  timeouts_upto due s -> timeouts_upto [] (fire_all due s).
Proof.
  unfold fire_all. revert s.
  induction due as [|tm due IH]; intros s Hwf Hdue Hinv; [exact Hinv|].
  cbn [fold_left].
  destruct (Hdue tm (or_introl eq_refl)) as [Hnow Hle].
  destruct (wf_fire tm s Hwf Hle) as [Hwf' [Hcur Hclk]].
  apply IH.
  - exact Hwf'.
  - intros tm' Hin. rewrite Hcur, Hclk. apply Hdue. right. exact Hin.
  - apply timeouts_fire; assumption.
Qed.

Lemma due_or_later s tm :
  In tm (timers s) ->
  In tm (timers (advance s))
  \/ In tm (filter (is_due (clock s + 1)) (timers s)).
Proof.
  intros Hin. unfold advance. proj.
  destruct (is_due (clock s + 1) tm) eqn:E.
  - right. apply filter_In. split; assumption.
  - left. apply filter_In. split; [assumption|]. rewrite E. reflexivity.
Qed.

Lemma due_now s tm :
  wf s -> In tm (filter (is_due (clock s + 1)) (timers s)) ->
  tm_due tm = clock (advance s) /\ tm_sub tm <= current (advance s).
Proof.
  intros Hwf Hin. apply filter_In in Hin. destruct Hin as [Hin Hdue].
  unfold is_due in Hdue. apply N.leb_le in Hdue.
  apply (wf_timers s Hwf) in Hin. unfold advance. proj. lia.
Qed.

Lemma timeouts_tick s : wf s -> timeouts_upto [] s -> timeouts_upto [] (tick s).
Proof.
  intros Hwf IH. unfold tick. apply timeouts_fire_all.
  - apply wf_advance. exact Hwf.
  - intros tm Hin. apply due_now; assumption.
  - intros t k Hin. change (log (advance s)) with (log s) in *.
    destruct (IH t k Hin) as [Htm|[[]|Hrest]].
    + destruct (due_or_later _ _ Htm); [left|right; left]; assumption.
    + right. right. exact Hrest.
Qed.

Lemma reachable_timeouts s : reachable s -> timeouts_upto [] s.
Proof.
  induction 1 as [info ratings problems|e s Hreach IH];
    [apply timeouts_initial|].
  pose proof (reachable_wf s Hreach) as Hwf.
  destruct e as [env input| | | |n].
  - apply timeouts_submit; assumption.
  - apply timeouts_response; auto.
  - apply timeouts_response; auto.
  - apply timeouts_response; auto.
  - rewrite step_elapse by exact Hwf.
    apply (elapse_ind (timeouts_upto [])); [exact Hwf|exact IH|].
    intros s1 Hwf1 H1. apply timeouts_tick; assumption.
Qed.

(** X9.  The timeout a submission sets is set for ten seconds later, and
    has one of three fates: it is still armed; or it has fired, at the very
    time it was set for, and its callback called [abort] on the controller
    that was current then and threw "Request timed out (10 seconds)", which
    nothing caught; or the submission has called [clearTimeout], which it
    does at the end of a sequence whose three calls succeeded and nowhere
    else.  A failure or a later submission does not disarm it. *)
Theorem every_timeout_is_armed_cleared_or_thrown s t k d :
  reachable s ->
  In (mkEntry t k (CallSetTimeout AbortTimer d)) (log s) ->
  d = (t + 10000)%N
  /\ (((clock s < d)%N /\ In (mkTimer k AbortTimer d) (timers s))
      \/ (In (mkEntry d k (Uncaught TIMED_OUT)) (log s)
          /\ exists c, k <= c /\ In (mkEntry d k (CallAbort c)) (log s))
      \/ exists t', In (mkEntry t' k CallClearTimeout) (log s)).
Proof.
  intros Hreach Hin.
  pose proof (set_for_ten_seconds s Hreach _ _ _ Hin eq_refl) as Hd.
  cbn [e_time] in Hd. subst d. split; [reflexivity|].
  destruct (reachable_timeouts s Hreach t k Hin) as [Htm|[[]|[Hfired|Hclear]]].
  - left. split; [|exact Htm].
    apply (wf_timers s (reachable_wf s Hreach)) in Htm. apply Htm.
  - right. left. exact Hfired.
  - right. right. exact Hclear.
Qed.

(** X9 at the page of [two_failures], for the timeout of the second search,
    which failed at 7000 ms. *)
Lemma every_timeout_is_armed_cleared_or_thrown_witness :
  let s := two_failures in
  reachable s
  /\ In (mkEntry 6000 2 (CallSetTimeout AbortTimer 16000)) (log s)
  /\ (16000%N = (6000 + 10000)%N
      /\ (((clock s < 16000)%N /\ In (mkTimer 2 AbortTimer 16000) (timers s))
          \/ (In (mkEntry 16000 2 (Uncaught TIMED_OUT)) (log s)
              /\ exists c, 2 <= c
                           /\ In (mkEntry 16000 2 (CallAbort c)) (log s))
          \/ exists t', In (mkEntry t' 2 CallClearTimeout) (log s))).
Proof.
  intros s.
  assert (H0 : reachable s).
  { unfold s, two_failures. apply reachable_run. unfold searching.
    apply reach_step. apply reach_initial. }
  assert (H1 : In (mkEntry 6000 2 (CallSetTimeout AbortTimer 16000)) (log s))
    by (vm_compute; tauto).
  split; [exact H0|]. split; [exact H1|].
  exact (every_timeout_is_armed_cleared_or_thrown s 6000 2 16000 H0 H1).
Defined.

(** **** The end of a sequence, and of all activity *)

(** What the passing of time does to the sequence in flight: nothing, or
    an abort cancels it. *)
Lemma elapse_outcome n s :
  wf s ->
  let s' := step (Elapse n) s in
  current s' = current s
  /\ (forall en, In en (log s) -> In en (log s'))
  /\ (tasks s' = tasks s
      \/ (tasks s' = [] /\ is_aborted (current s) s' = true
          /\ errorMessage (ui s') = "Request cancelled")).
Proof.
  intros Hwf. cbv zeta.
  apply (elapse_stable
           (fun s1 => current s1 = current s
                      /\ (forall en, In en (log s) -> In en (log s1))
                      /\ (tasks s1 = tasks s
                          \/ (tasks s1 = [] /\ is_aborted (current s) s1 = true
                              /\ errorMessage (ui s1) = "Request cancelled")))).
  - exact Hwf.
  - split; [reflexivity|]. split; [intros en H; exact H|left; reflexivity].
  - intros s1 _ H. exact H.
  - intros tm s1 Hwf1 _. unfold is_aborted.
    set (c := current s). set (ts := tasks s). set (l := log s).
    clearbody c ts l.
    on_fire s1 Hwf1 tm; intros [Hcur [Hlog Hts]]; proj;
      (split; [exact Hcur|]);
      (split; [intros en Hen; cbn [In]; auto 10|]).
    all: destruct Hts as [Hts|[Hnil [Hab' Hmsg]]]; try discriminate Hnil.
    all: try (left; exact Hts).
    all: right; split; [reflexivity|].
    all: try (split; [|exact Hmsg];
              cbn [existsb]; rewrite ?Hab', ?orb_true_r; reflexivity).
    all: split; [|reflexivity].
    all: rewrite <- Hcur; cbn [existsb]; rewrite Nat.eqb_refl; reflexivity.
Qed.

Lemma deadline s t0 n :
  reachable s -> tasks s <> [] ->
  In (mkEntry t0 (current s) (CallSetTimeout AbortTimer (t0 + TIMEOUT))) (log s) ->
  (t0 + TIMEOUT <= clock s + n)%N ->
  let s' := step (Elapse n) s in
  tasks s' = [] /\ is_aborted (current s) s' = true
  /\ errorMessage (ui s') = "Request cancelled"
  /\ loader (ui s') = false.
Proof.
  intros Hreach Hbusy Hset Hlate s'.
  pose proof (reachable_wf s Hreach) as Hwf.
  assert (Hreach' : reachable s') by (apply reach_step; exact Hreach).
  pose proof (reachable_wf s' Hreach') as Hwf'.
  pose proof (clock_elapse n s Hwf) as Hclk. fold s' in Hclk.
  destruct (elapse_outcome n s Hwf) as [Hcur [Hlog Hts]].
  fold s' in Hcur, Hlog, Hts. clearbody s'.
  assert (Hnil : tasks s' = []).
  { destruct Hts as [Hsame|[Hnil _]]; [|exact Hnil].
    exfalso.
    assert (Hbusy' : tasks s' <> []) by (rewrite Hsame; exact Hbusy).
    destruct (reachable_started s' Hreach' Hbusy') as [_ Hnone].
    apply Hlog in Hset. rewrite <- Hcur in Hset.
    destruct (reachable_timeouts s' Hreach' _ _ Hset)
      as [Htm|[[]|[[Hfired _]|[t' Hclear]]]].
    - apply (wf_timers s' Hwf') in Htm. cbn [tm_due] in Htm. lia.
    - apply (proj2 (Hnone _ Hfired eq_refl)). reflexivity.
    - apply (proj1 (Hnone _ Hclear eq_refl)). reflexivity. }
  split; [exact Hnil|].
  destruct Hts as [Hsame|[_ [Hab Hmsg]]];
    [rewrite Hsame in Hnil; contradiction|].
  split; [exact Hab|]. split; [exact Hmsg|].
  destruct (loader (ui s')) eqn:Hld; [|reflexivity].
  destruct (loader_means_in_flight s' Hreach' Hld) as [_ Hb]. contradiction.
Qed.

Lemma response_keeps e s :
  wf s -> is_submit e = false ->
  match e with Elapse _ => False | _ => True end ->
  current s <= current (step e s)
  /\ forall en, In en (log s) -> In en (log (step e s)).
Proof.
  intros Hwf Hns He.
  on_response s Hwf e; proj;
    (split; [lia|intros en Hen; cbn [In]; auto 20]).
Qed.

Lemma step_keeps e s :
  wf s ->
  current s <= current (step e s)
  /\ forall en, In en (log s) -> In en (log (step e s)).
Proof.
  intros Hwf. destruct e as [env input| | | |n];
    try (apply response_keeps; [exact Hwf|reflexivity|exact I]).
  - on_submit s Hwf env; proj;
      (split; [lia|intros en Hen; cbn [In]; auto 20]).
  - destruct (elapse_outcome n s Hwf) as [Hcur [Hlog _]].
    split; [rewrite Hcur; lia|exact Hlog].
Qed.

Lemma run_keeps evs s :
  wf s ->
  current s <= current (run evs s)
  /\ forall en, In en (log s) -> In en (log (run evs s)).
Proof.
  revert s. induction evs as [|e evs IH]; intros s Hwf.
  - split; [apply le_n|intros en H; exact H].
  - cbn [run fold_left]. fold (run evs (step e s)).
    destruct (step_keeps e s Hwf) as [Hc Hl].
    destruct (IH (step e s) (wf_step e s Hwf)) as [Hc' Hl'].
    split; [lia|intros en H; apply Hl', Hl, H].
Qed.

Lemma no_sequence_outlives_its_timeout s t0 evs :
  reachable s ->
  In (mkEntry t0 (current s) (CallSetTimeout AbortTimer (t0 + TIMEOUT))) (log s) ->
  (t0 + TIMEOUT <= clock (run evs s))%N ->
  forall t, In t (tasks (run evs s)) -> t_sub t <> current s.
Proof.
  intros Hreach Hset Hlate t Hin Hsub.
  pose proof (reachable_wf s Hreach) as Hwf.
  assert (Hreach' : reachable (run evs s)) by (apply reachable_run; exact Hreach).
  pose proof (reachable_wf _ Hreach') as Hwf'.
  destruct (run_keeps evs s Hwf) as [_ Hlog].
  set (s' := run evs s) in *. clearbody s'.
  assert (Hcur : current s' = current s).
  { destruct (wf_tasks s' Hwf') as [Hnil|[t1 [Ht1 [Hs1 _]]]].
    - rewrite Hnil in Hin. destruct Hin.
    - rewrite Ht1 in Hin. destruct Hin as [<-|[]]. congruence. }
  assert (Hbusy : tasks s' <> []) by (intros H; rewrite H in Hin; destruct Hin).
  destruct (reachable_started s' Hreach' Hbusy) as [_ Hnone].
  apply Hlog in Hset. rewrite <- Hcur in Hset.
  destruct (reachable_timeouts s' Hreach' _ _ Hset)
    as [Htm|[[]|[[Hfired _]|[t' Hclear]]]].
  - apply (wf_timers s' Hwf') in Htm. cbn [tm_due] in Htm. lia.
  - apply (proj2 (Hnone _ Hfired eq_refl)). reflexivity.
  - apply (proj1 (Hnone _ Hclear eq_refl)). reflexivity.
Qed.

(** X10.  The ten seconds of the timeout run from the submission, not from
    each call, and no sequence outlives them.  A sequence that is in flight
    was submitted less than ten seconds ago; whatever happens next, once
    the clock is ten seconds past its submission no invocation of it is
    left, however many of its calls were answered meanwhile; and when
    nothing but time passes until then, it ends cancelled: its controller
    is aborted, the loading flag is off and the message is "Request
    cancelled". *)
Theorem sequence_is_over_ten_seconds_after_its_submission s :
  reachable s -> tasks s <> [] ->
  exists t0,
    In (mkEntry t0 (current s) (CallSetTimeout AbortTimer (t0 + 10000))) (log s)
    /\ (t0 <= clock s < t0 + 10000)%N
    /\ (forall evs, (t0 + 10000 <= clock (run evs s))%N ->
         forall t, In t (tasks (run evs s)) -> t_sub t <> current s)
    /\ forall n, (t0 + 10000 <= clock s + n)%N ->
         let s' := step (Elapse n) s in
         tasks s' = [] /\ is_aborted (current s) s' = true
         /\ errorMessage (ui s') = "Request cancelled"
         /\ loader (ui s') = false.
Proof.
  intros Hreach Hbusy. change 10000%N with TIMEOUT.
  pose proof (reachable_wf s Hreach) as Hwf.
  destruct (reachable_started s Hreach Hbusy) as [[t0 Hset] Hnone].
  exists t0. split; [exact Hset|]. split; [|split].
  - split; [apply (wf_log s Hwf) in Hset; apply Hset|].
    destruct (reachable_timeouts s Hreach _ _ Hset)
      as [Htm|[[]|[[Hfired _]|[t' Hclear]]]].
    + apply (wf_timers s Hwf) in Htm. apply Htm.
    + exfalso. apply (proj2 (Hnone _ Hfired eq_refl)). reflexivity.
    + exfalso. apply (proj1 (Hnone _ Hclear eq_refl)). reflexivity.
  - intros evs Hlate.
    apply (no_sequence_outlives_its_timeout s t0 evs); assumption.
  - intros n Hlate. apply (deadline s t0 n); assumption.
Qed.

(** X10 at the page that shows the profile of the first search, 150 ms
    after the submission, while the rating call is in flight. *)
Lemma sequence_is_over_ten_seconds_after_its_submission_witness :
  let s := profile_shown in
  reachable s /\ tasks s <> []
  /\ exists t0,
       In (mkEntry t0 (current s) (CallSetTimeout AbortTimer (t0 + 10000)))
          (log s)
       /\ (t0 <= clock s < t0 + 10000)%N
       /\ (forall evs, (t0 + 10000 <= clock (run evs s))%N ->
            forall t, In t (tasks (run evs s)) -> t_sub t <> current s)
       /\ forall n, (t0 + 10000 <= clock s + n)%N ->
            let s' := step (Elapse n) s in
            tasks s' = [] /\ is_aborted (current s) s' = true
            /\ errorMessage (ui s') = "Request cancelled"
            /\ loader (ui s') = false.
Proof.
  intros s.
  assert (H0 : reachable s).
  { unfold s, profile_shown. apply reachable_run. unfold searching.
    apply reach_step. apply reach_initial. }
  assert (H1 : tasks s <> []) by (vm_compute; discriminate).
  split; [exact H0|]. split; [exact H1|].
  exact (sequence_is_over_ten_seconds_after_its_submission s H0 H1).
Defined.

Lemma quiet_ten_seconds s :
  reachable s -> tasks (step (Elapse TIMEOUT) s) = [].
Proof.
  intros Hreach. pose proof (reachable_wf s Hreach) as Hwf.
  destruct (tasks s) as [|t ts] eqn:Hts; [apply idle_elapse; assumption|].
  assert (Hbusy : tasks s <> []) by (rewrite Hts; discriminate).
  destruct (reachable_started s Hreach Hbusy) as [[t0 Hset] _].
  apply (deadline s t0 TIMEOUT Hreach Hbusy Hset).
  apply (wf_log s Hwf) in Hset. cbn [e_time] in Hset. lia.
Qed.

Lemma idle_timers n s :
  wf s -> tasks s = [] ->
  forall tm, In tm (timers (step (Elapse n) s)) -> In tm (timers s).
Proof.
  intros Hwf Hnil.
  assert (G : tasks (step (Elapse n) s) = []
              /\ forall tm, In tm (timers (step (Elapse n) s)) ->
                            In tm (timers s)).
  { apply (elapse_stable
             (fun s1 => tasks s1 = []
                        /\ forall tm, In tm (timers s1) -> In tm (timers s))).
    - exact Hwf.
    - split; [exact Hnil|intros tm H; exact H].
    - intros s1 _ [Hnil1 Hincl]. split; [exact Hnil1|].
      intros tm Hin. unfold advance in Hin. cbn [timers] in Hin.
      apply filter_In in Hin. apply Hincl, Hin.
    - intros tm s1 Hwf1 _. set (old := timers s). clearbody old.
      on_fire s1 Hwf1 tm; intros [Hnil1 Hincl]; proj;
        try discriminate Hnil1; (split; [reflexivity|exact Hincl]). }
  apply G.
Qed.

Lemma elapse_add n m s :
  wf s -> step (Elapse (n + m)) s = step (Elapse m) (step (Elapse n) s).
Proof.
  intros Hwf.
  rewrite (step_elapse (n + m)), (step_elapse n) by exact Hwf.
  rewrite step_elapse by (apply wf_elapse; exact Hwf).
  rewrite N.add_comm. apply N.iter_add.
Qed.

(** X11.  Left alone for twenty seconds, the page comes to rest, whatever
    state it was in: no sequence is in flight, no timer is armed, neither
    the loading flag nor the error flag is on, and a response that arrives
    now changes nothing. *)
Theorem page_is_at_rest_after_twenty_seconds s :
  reachable s ->
  let s' := step (Elapse 20000) s in
  clock s' = (clock s + 20000)%N
  /\ tasks s' = [] /\ timers s' = []
  /\ loader (ui s') = false /\ showError (ui s') = false
  /\ forall k e, answers k e -> step e s' = s'.
Proof.
  intros Hreach s'. subst s'.
  pose proof (reachable_wf s Hreach) as Hwf.
  split; [apply clock_elapse; exact Hwf|].
  change 20000%N with (TIMEOUT + TIMEOUT)%N.
  rewrite elapse_add by exact Hwf.
  pose proof (quiet_ten_seconds s Hreach) as Hnil1.
  set (s1 := step (Elapse TIMEOUT) s) in *.
  assert (Hreach1 : reachable s1) by (apply reach_step; exact Hreach).
  pose proof (reachable_wf s1 Hreach1) as Hwf1.
  pose proof (timers_are_near s1 Hreach1) as Hnear.
  pose proof (idle_timers TIMEOUT s1 Hwf1 Hnil1) as Hincl.
  pose proof (idle_elapse TIMEOUT s1 Hwf1 Hnil1) as Hnil2.
  pose proof (clock_elapse TIMEOUT s1 Hwf1) as Hclk2.
  set (s2 := step (Elapse TIMEOUT) s1) in *.
  assert (Hreach2 : reachable s2) by (apply reach_step; exact Hreach1).
  pose proof (reachable_wf s2 Hreach2) as Hwf2.
  clearbody s2. clearbody s1.
  assert (Hnone : timers s2 = []).
  { pose proof (wf_timers s2 Hwf2) as Hlate.
    destruct (timers s2) as [|tm tms]; [reflexivity|]. exfalso.
    assert (Hin : In tm (tm :: tms)) by (left; reflexivity).
    pose proof (Hnear tm (Hincl tm Hin)) as Hle.
    apply Hlate in Hin. lia. }
  split; [exact Hnil2|]. split; [exact Hnone|].
  split.
  { destruct (loader (ui s2)) eqn:Hld; [|reflexivity].
    destruct (loader_means_in_flight s2 Hreach2 Hld) as [_ Hb].
    contradiction. }
  split.
  { destruct (showError (ui s2)) eqn:Hse; [|reflexivity].
    destruct (reachable_hides s2 Hreach2) as [_ Hrecent].
    destruct (Hrecent Hse) as [t [j [_ [Htm|[]]]]].
    rewrite Hnone in Htm. destruct Htm. }
  intros k e He. apply (late_answer_is_dropped e s2 k); assumption.
Qed.

(** X11 at the page whose second search was made while the first was in
    flight. *)
Lemma page_is_at_rest_after_twenty_seconds_witness :
  reachable searching_again
  /\ let s' := step (Elapse 20000) searching_again in
     clock s' = (clock searching_again + 20000)%N
     /\ tasks s' = [] /\ timers s' = []
     /\ loader (ui s') = false /\ showError (ui s') = false
     /\ forall k e, answers k e -> step e s' = s'.
Proof.
  assert (H0 : reachable searching_again)
    by (apply reach_step; apply reach_step; apply reach_initial).
  split; [exact H0|].
  exact (page_is_at_rest_after_twenty_seconds searching_again H0).
Defined.

(** **** What the page shows *)

(** X12.  Below the search field the page shows one of three things: the
    loading indicator alone, and then a sequence is in flight; or the error
    alone, with the message of the last failure, and then an error was
    shown less than ten seconds ago; or nothing.  The loading indicator and
    the error are never on the page together, and the loading indicator is
    never left on when nothing is in flight. *)
Theorem loading_indicator_and_error_are_never_shown_together s :
  reachable s ->
  (render (ui s) = page [loading_indicator] /\ tasks s <> [])
  \/ (render (ui s) = page [error_banner (errorMessage (ui s))]
      /\ exists t j, In (mkEntry t j (SetShowError true)) (log s)
                     /\ (clock s < t + 10000)%N)
  \/ render (ui s) = page [].
Proof.
  intros Hreach. unfold render.
  destruct (loader (ui s)) eqn:Hld.
  - destruct (loader_means_in_flight s Hreach Hld) as [Hse Hbusy].
    rewrite Hse. left. split; [reflexivity|exact Hbusy].
  - destruct (showError (ui s)) eqn:Hse.
    + right. left. split; [reflexivity|].
      destruct (reachable_hides s Hreach) as [_ Hrecent].
      destruct (Hrecent Hse) as [t [j [Hin [Htm|[]]]]].
      exists t, j. split; [exact Hin|].
      apply (wf_timers s (reachable_wf s Hreach)) in Htm. apply Htm.
    + right. right. reflexivity.
Qed.

(** X12 at the page that shows the profile of the first search. *)
Lemma loading_indicator_and_error_are_never_shown_together_witness :
  let s := profile_shown in
  reachable s
  /\ ((render (ui s) = page [loading_indicator] /\ tasks s <> [])
      \/ (render (ui s) = page [error_banner (errorMessage (ui s))]
          /\ exists t j, In (mkEntry t j (SetShowError true)) (log s)
                         /\ (clock s < t + 10000)%N)
      \/ render (ui s) = page []).
Proof.
  intros s.
  assert (H0 : reachable s).
  { unfold s, profile_shown. apply reachable_run. unfold searching.
    apply reach_step. apply reach_initial. }
  split; [exact H0|].
  exact (loading_indicator_and_error_are_never_shown_together s H0).
Defined.

Lemma loader_stays_off_response e s :
  wf s -> is_submit e = false ->
  match e with Elapse _ => False | _ => True end ->
  loader (ui s) = false -> loader (ui (step e s)) = false.
Proof.
  intros Hwf Hns He.
  on_response s Hwf e; intros Hld; proj; first [reflexivity|exact Hld].
Qed.

Lemma loader_stays_off e s :
  wf s -> is_submit e = false -> loader (ui s) = false ->
  loader (ui (step e s)) = false.
Proof.
  intros Hwf Hns Hld.
  destruct e as [env input|k st h|k st b|k st msg|n]; try discriminate Hns;
    try (apply loader_stays_off_response;
         [exact Hwf|reflexivity|exact I|exact Hld]).
  apply (elapse_stable (fun s1 => loader (ui s1) = false));
    [exact Hwf|exact Hld|intros s1 _ H; exact H|].
  intros tm s1 Hwf1 _.
  on_fire s1 Hwf1 tm; intros Hld1; proj; first [reflexivity|exact Hld1].
Qed.

Lemma loader_stays_off_run evs s :
  wf s -> Forall (fun e => is_submit e = false) evs ->
  loader (ui s) = false -> loader (ui (run evs s)) = false.
Proof.
  intros Hwf Hall. revert s Hwf.
  induction Hall as [|e evs He Hall IH]; intros s Hwf Hld; [exact Hld|].
  cbn [run fold_left]. apply IH; [apply wf_step; exact Hwf|].
  apply loader_stays_off; assumption.
Qed.

Lemma submit_over_a_sequence env input s :
  wf s -> tasks s <> [] ->
  let s' := step (Submit env input) s in
  loader (ui s') = false /\ showError (ui s') = true
  /\ errorMessage (ui s') = "Request cancelled".
Proof.
  intros Hwf. on_submit s Hwf env; intros Hbusy; cbv zeta; proj;
    try (contradiction Hbusy; reflexivity); repeat split.
Qed.

(** X13.  A search made while another is in flight runs without its
    loading indicator: the catch block of the sequence it cancels comes
    after its own [setLoader(true)] and [setShowError(false)] and undoes
    both.  While the new sequence is in flight the page shows "Request
    cancelled", and the loading flag stays off whatever happens, until the
    next submission. *)
Theorem superseding_search_shows_no_loading_indicator s env input API_BASE :
  reachable s -> tasks s <> [] -> configured env = Some API_BASE ->
  let k := S (current s) in
  let s' := step (Submit env input) s in
  tasks s' = [mkTask k UserInfo AwaitFetch k API_BASE (trim input)]
  /\ loader (ui s') = false /\ showError (ui s') = true
  /\ errorMessage (ui s') = "Request cancelled"
  /\ forall evs, Forall (fun e => is_submit e = false) evs ->
       loader (ui (run evs s')) = false.
Proof.
  intros Hreach Hbusy Hcfg k s'. subst k s'.
  pose proof (reachable_wf s Hreach) as Hwf.
  destruct (submit_over_a_sequence env input s Hwf Hbusy) as [Hld [Hse Hmsg]].
  split; [rewrite submit_tasks by exact Hwf; rewrite Hcfg; reflexivity|].
  split; [exact Hld|]. split; [exact Hse|]. split; [exact Hmsg|].
  intros evs Hall.
  apply loader_stays_off_run; [apply wf_step; exact Hwf|exact Hall|exact Hld].
Qed.

(** X13 at the page whose first search is in flight when "Petr" is searched
    for; the three calls of the second search are then answered. *)
Lemma superseding_search_shows_no_loading_indicator_witness :
  reachable searching /\ tasks searching <> []
  /\ configured (Some CF) = Some CF
  /\ Forall (fun e => is_submit e = false) (three_answers 2)
  /\ loader (ui (run (three_answers 2)
                     (step (Submit (Some CF) "Petr") searching))) = false.
Proof.
  assert (H0 : reachable searching)
    by (apply reach_step; apply reach_initial).
  assert (H1 : tasks searching <> []) by discriminate.
  assert (H2 : Forall (fun e => is_submit e = false) (three_answers 2))
    by (repeat constructor).
  split; [exact H0|]. split; [exact H1|]. split; [reflexivity|].
  split; [exact H2|].
  destruct (superseding_search_shows_no_loading_indicator
              searching (Some CF) "Petr" CF H0 H1 eq_refl)
    as [_ [_ [_ [_ Hoff]]]].
  exact (Hoff (three_answers 2) H2).
Defined.

Lemma submit_misconfigured_over_a_sequence env input s :
  wf s -> tasks s <> [] -> configured env = None ->
  let k := current s in
  let s' := step (Submit env input) s in
  tasks s' = []
  /\ messages (S k) s' = [CONFIG_MESSAGE]
  /\ messages k s' = (messages k s ++ ["Request cancelled"])%list
  /\ timers s' =
     (timers s ++ [mkTimer (S k) HideTimer (clock s + TIMEOUT);
                   mkTimer k HideTimer (clock s + TIMEOUT)])%list.
Proof.
  intros Hwf.
  on_submit s Hwf env; intros Hbusy Hnot; cbv zeta; proj;
    try (contradiction Hbusy; reflexivity); try discriminate Hnot.
  all: split; [reflexivity|].
  all: unfold messages; read_log; rewrite Hnone; cbn [app flat_map].
  all: split; [reflexivity|].
  all: split; [rewrite flat_map_app; reflexivity|reflexivity].
Qed.

(** X14.  When a misconfigured submission is made while a sequence is in
    flight, the configuration error is reported first and the cancellation
    of the running sequence second, in the same turn: the message that is
    shown is "Request cancelled", not the configuration error, and two
    error timers are armed for the same time. *)
Theorem configuration_error_gives_way_to_the_cancellation s env input :
  reachable s -> tasks s <> [] -> configured env = None ->
  let k := current s in
  let s' := step (Submit env input) s in
  tasks s' = []
  /\ messages (S k) s' = [CONFIG_MESSAGE]
  /\ messages k s' = (messages k s ++ ["Request cancelled"])%list
  /\ loader (ui s') = false /\ showError (ui s') = true
  /\ errorMessage (ui s') = "Request cancelled"
  /\ timers s' =
     (timers s ++ [mkTimer (S k) HideTimer (clock s + TIMEOUT);
                   mkTimer k HideTimer (clock s + TIMEOUT)])%list.
Proof.
  intros Hreach Hbusy Hnot k s'. subst k s'.
  pose proof (reachable_wf s Hreach) as Hwf.
  destruct (submit_misconfigured_over_a_sequence env input s Hwf Hbusy Hnot)
    as [Hnil [Hnew [Hold Htms]]].
  destruct (submit_over_a_sequence env input s Hwf Hbusy) as [Hld [Hse Hmsg]].
  repeat split; assumption.
Qed.

(** X14 at the page whose first search is in flight, for a submission made
    when the base URL is not set. *)
Lemma configuration_error_gives_way_to_the_cancellation_witness :
  reachable searching /\ tasks searching <> [] /\ configured None = None
  /\ messages 2 (step (Submit None "Petr") searching) = [CONFIG_MESSAGE]
  /\ errorMessage (ui (step (Submit None "Petr") searching))
     = "Request cancelled".
Proof.
  assert (H0 : reachable searching)
    by (apply reach_step; apply reach_initial).
  assert (H1 : tasks searching <> []) by discriminate.
  split; [exact H0|]. split; [exact H1|]. split; [reflexivity|].
  destruct (configuration_error_gives_way_to_the_cancellation
              searching None "Petr" H0 H1 eq_refl)
    as [_ [Hnew [_ [_ [_ [Hmsg _]]]]]].
  split; [exact Hnew|exact Hmsg].
Defined.

(** **** Other failures of a call *)

Lemma step_network_error s k st aw sig b q msg :
  wf s -> tasks s = [mkTask k st aw sig b q] ->
  step (NetworkError k st msg) s =
  catch_block k (TypeError msg) (with_tasks (fun _ => []) s).
Proof.
  intros [Hr Ht Ha Htm Hd Hl] Hts. destruct_state s. proj. subst.
  unfold step. exec. rewrite is_call_explicit, Nat.eqb_refl, stage_eqb_refl.
  exec. apply drain_nil. reflexivity.
Qed.

(** X15.  When the call in flight fails on the network, at whichever of the
    three stages, the sequence ends there: the failure is reported with the
    message of the error (or with the fixed notice, should "non-JSON" occur
    in it), the loading flag goes off, no further call is made, the result
    slots keep what they held, and from then on only the timers of the
    submission act in its name. *)
Theorem network_failure_is_reported_and_ends_the_sequence s t msg :
  reachable s -> tasks s = [t] ->
  let k := current s in
  let s' := step (NetworkError k (t_stage t) msg) s in
  let shown := if includes "non-JSON" msg then NON_JSON_NOTICE else msg in
  tasks s' = []
  /\ acts k s' = (acts k s ++ failure_report shown (clock s))%list
  /\ calls s' = calls s /\ slots s' = slots s
  /\ loader (ui s') = false /\ showError (ui s') = true
  /\ errorMessage (ui s') = shown
  /\ forall evs, exists later,
       acts k (run evs s') = (acts k s' ++ later)%list
       /\ Forall timer_callback_action later.
Proof.
  intros Hreach Hts k s' shown. subst s'.
  pose proof (reachable_wf s Hreach) as Hwf.
  assert (Hwf' : wf (step (NetworkError k (t_stage t) msg) s))
    by (apply wf_step; exact Hwf).
  assert (Hsub : t_sub t = k).
  { destruct (wf_tasks s Hwf) as [Hnil|[t' [Ht' [Hsub _]]]].
    - rewrite Hnil in Hts. discriminate Hts.
    - rewrite Ht' in Hts. injection Hts as ->. exact Hsub. }
  destruct t as [tk tst taw tsig tb tq]. cbn [t_sub t_stage] in *. subst tk.
  rewrite (step_network_error s k tst taw tsig tb tq msg Hwf Hts) in *.
  assert (Hshown : classify (TypeError msg) = shown) by reflexivity.
  clearbody shown. subst k.
  assert (Hnil : tasks (catch_block (current s) (TypeError msg)
                          (with_tasks (fun _ => []) s)) = [])
    by (rewrite catch_block_effect; reflexivity).
  split; [exact Hnil|].
  split.
  { rewrite catch_block_effect, Hshown. destruct_state s. read_log.
    reflexivity. }
  split.
  { rewrite catch_block_effect. destruct_state s. read_log. reflexivity. }
  split; [rewrite catch_block_effect; destruct_state s; reflexivity|].
  split; [rewrite catch_block_effect; reflexivity|].
  split; [rewrite catch_block_effect; reflexivity|].
  split; [rewrite catch_block_effect, Hshown; reflexivity|].
  intros evs. apply retired_run; [exact Hwf'|].
  right. split; [|exact Hnil].
  rewrite catch_block_effect. destruct_state s. reflexivity.
Qed.

(** X15 at the page that shows the profile of the first search, whose
    rating call fails. *)
Lemma network_failure_is_reported_and_ends_the_sequence_witness :
  let t := mkTask 1 UserRating AwaitFetch 1 CF "tourist" in
  let s' := step (NetworkError (current profile_shown) (t_stage t)
                    "Failed to fetch") profile_shown in
  reachable profile_shown /\ tasks profile_shown = [t]
  /\ tasks s' = [] /\ slots s' = slots profile_shown.
Proof.
  intros t s'.
  assert (H0 : reachable profile_shown).
  { unfold profile_shown. apply reachable_run. unfold searching.
    apply reach_step. apply reach_initial. }
  assert (H1 : tasks profile_shown = [t]) by (vm_compute; reflexivity).
  split; [exact H0|]. split; [exact H1|].
  destruct (network_failure_is_reported_and_ends_the_sequence
              profile_shown t "Failed to fetch" H0 H1)
    as [Hnil [_ [_ [Hslots _]]]].
  split; [exact Hnil|exact Hslots].
Defined.

(** X16.  A response that is announced as JSON and whose body does not
    parse is not taken for a non-JSON response: what is reported is the
    message of the parser's SyntaxError (as long as "non-JSON" does not
    occur in it), not the notice of lines 86-89.  The sequence ends there,
    with its one call made and no result written. *)
Theorem unparsable_json_shows_the_message_of_the_parser
  s env input n h m b msg :
  reachable s ->
  let k := S (current s) in
  let trace := Submit env input :: answer k UserInfo n h m b in
  accepted trace s = true ->
  includes "application/json" (match h with Some x => x | None => "" end)
  = true ->
  json b = inl msg -> includes "non-JSON" msg = false ->
  let s' := run trace s in
  validateResponse h b = inl (SyntaxError msg)
  /\ messages k s' = [msg]
  /\ loader (ui s') = false /\ showError (ui s') = true
  /\ errorMessage (ui s') = msg
  /\ slots s' = (JNull, JNull, JNull)
  /\ tasks s' = []
  /\ exists API_BASE,
       configured env = Some API_BASE
       /\ calls s' = (calls s ++ [(k, url API_BASE UserInfo (trim input))])%list.
Proof.
  intros Hreach k trace Hacc Hct Hjson Hplain s'. subst s' trace k.
  pose proof (reachable_wf s Hreach) as Hwf.
  cbn [accepted] in Hacc. apply andb_prop in Hacc. destruct Hacc as [_ Hacc].
  cbn [run fold_left].
  fold (run (answer (S (current s)) UserInfo n h m b)
            (step (Submit env input) s)).
  destruct (profile_answered s env input n h m b Hwf Hacc)
    as [base [Hcfg [Hwf1 [Hcur1 [Hclk1 Hrep]]]]].
  assert (Hval : validateResponse h b = inl (SyntaxError msg)).
  { unfold validateResponse. rewrite Hct, Hjson. reflexivity. }
  assert (Hcl : classify (SyntaxError msg) = msg).
  { unfold classify. cbn [name message SyntaxError]. rewrite Hplain.
    reflexivity. }
  unfold reported in Hrep. rewrite Hval, Hcl in Hrep.
  destruct Hrep as [Ht1 [Ha1 [Hc1 [Hsl1 [Hld1 [Hsh1 Hmsg1]]]]]].
  split; [exact Hval|].
  split; [unfold messages; rewrite Ha1; reflexivity|].
  split; [exact Hld1|]. split; [exact Hsh1|]. split; [exact Hmsg1|].
  split; [exact Hsl1|]. split; [exact Ht1|].
  exists base. split; assumption.
Qed.

(** X16 at a fresh page, for a search whose profile call is answered by a
    page of HTML announced as JSON. *)
Lemma unparsable_json_shows_the_message_of_the_parser_witness :
  let trace := Submit (Some CF) "tourist"
               :: answer 1 UserInfo 120 JSON 30 garbled_body in
  reachable fresh_page /\ accepted trace fresh_page = true
  /\ includes "application/json" "application/json; charset=utf-8" = true
  /\ includes "non-JSON" "Unexpected token < in JSON at position 0" = false
  /\ errorMessage (ui (run trace fresh_page))
     = "Unexpected token < in JSON at position 0".
Proof.
  intros trace.
  assert (H0 : reachable fresh_page) by apply reach_initial.
  assert (H1 : accepted trace fresh_page = true) by (vm_compute; reflexivity).
  split; [exact H0|]. split; [exact H1|]. split; [reflexivity|].
  split; [reflexivity|].
  destruct (unparsable_json_shows_the_message_of_the_parser
              fresh_page (Some CF) "tourist" 120 JSON 30 garbled_body
              "Unexpected token < in JSON at position 0"
              H0 H1 eq_refl eq_refl eq_refl)
    as [_ [_ [_ [_ [Hmsg _]]]]].
  exact Hmsg.
Defined.

(** X17.  Of the [result] of the profile call only element 0 is used, and
    its presence is not checked: when [result] is a list, the profile slot
    gets its first element, and [undefined] when the list is empty; the
    submission reports no error and goes on to the rating call. *)
Theorem profile_slot_takes_the_first_element_only
  s env input n h m b data items :
  reachable s ->
  let k := S (current s) in
  let trace := Submit env input :: answer k UserInfo n h m b in
  accepted trace s = true ->
  includes "application/json" (match h with Some x => x | None => "" end)
  = true ->
  json b = inr data ->
  get_prop data "status" = inr (JStr "OK") ->
  get_prop data "result" = inr (JArr items) ->
  let s' := run trace s in
  let first := nth 0 items JUndefined in
  slots s' = (first, JNull, JNull)
  /\ messages k s' = []
  /\ exists API_BASE,
       configured env = Some API_BASE
       /\ tasks s' = [mkTask k UserRating AwaitFetch k API_BASE (trim input)]
       /\ acts k s' =
          (reset_actions (current s) ++
           [CallSetTimeout AbortTimer (clock s + TIMEOUT);
            CallFetch (url API_BASE UserInfo (trim input)) k;
            SetUserInfo first;
            CallFetch (url API_BASE UserRating (trim input)) k])%list.
Proof.
  intros Hreach k trace Hacc Hct Hjson Hst Hres s' first. subst s' trace k.
  pose proof (reachable_wf s Hreach) as Hwf.
  cbn [accepted] in Hacc. apply andb_prop in Hacc. destruct Hacc as [_ Hacc].
  cbn [run fold_left].
  fold (run (answer (S (current s)) UserInfo n h m b)
            (step (Submit env input) s)).
  destruct (profile_answered s env input n h m b Hwf Hacc)
    as [base [Hcfg [Hwf1 [Hcur1 [Hclk1 Hrep]]]]].
  assert (Hval : reported UserInfo h b = inr first).
  { unfold reported. rewrite (validate_ok h b data Hct Hjson Hst), Hres.
    reflexivity. }
  rewrite Hval in Hrep. destruct Hrep as [Ht1 [Ha1 [Hc1 Hsl1]]].
  split; [exact Hsl1|]. split.
  { unfold messages. rewrite Ha1. reflexivity. }
  exists base. repeat split; assumption.
Qed.

(** X17 at a fresh page, for a search whose profile call is answered with
    status "OK" and an empty list. *)
Lemma profile_slot_takes_the_first_element_only_witness :
  let trace := Submit (Some CF) "tourist"
               :: answer 1 UserInfo 120 JSON 30 (ok_body (JArr [])) in
  reachable fresh_page /\ accepted trace fresh_page = true
  /\ includes "application/json" "application/json; charset=utf-8" = true
  /\ slots (run trace fresh_page) = (JUndefined, JNull, JNull)
  /\ messages 1 (run trace fresh_page) = [].
Proof.
  intros trace.
  assert (H0 : reachable fresh_page) by apply reach_initial.
  assert (H1 : accepted trace fresh_page = true) by (vm_compute; reflexivity).
  split; [exact H0|]. split; [exact H1|]. split; [reflexivity|].
  destruct (profile_slot_takes_the_first_element_only
              fresh_page (Some CF) "tourist" 120 JSON 30 (ok_body (JArr []))
              (JObj [("status", JStr "OK"); ("result", JArr [])]) []
              H0 H1 eq_refl eq_refl eq_refl eq_refl)
    as [Hslots [Hnone _]].
  split; [exact Hslots|exact Hnone].
Defined.

(** X18.  The [result] of a payload is read without a check.  When the
    profile call is answered with status "OK" and no [result], reading
    element 0 of it throws a TypeError: the sequence ends there, the message
    of the TypeError is what is shown, and no slot is written.  The same
    payload in answer to the rating call or to the submission-history call
    is no error: the slot gets [undefined]. *)
Theorem profile_answer_without_result_is_a_type_error
  s env input n h m b data :
  reachable s ->
  let k := S (current s) in
  let trace := Submit env input :: answer k UserInfo n h m b in
  accepted trace s = true ->
  includes "application/json" (match h with Some x => x | None => "" end)
  = true ->
  json b = inr data ->
  get_prop data "status" = inr (JStr "OK") ->
  get_prop data "result" = inr JUndefined ->
  let s' := run trace s in
  (exists e,
     name e = "TypeError" /\ reported UserInfo h b = inl e
     /\ messages k s' = [message e] /\ errorMessage (ui s') = message e)
  /\ loader (ui s') = false /\ showError (ui s') = true
  /\ slots s' = (JNull, JNull, JNull)
  /\ tasks s' = []
  /\ reported UserRating h b = inr JUndefined
  /\ reported UserStatus h b = inr JUndefined.
Proof.
  intros Hreach k trace Hacc Hct Hjson Hst Hres s'. subst s' trace k.
  pose proof (reachable_wf s Hreach) as Hwf.
  cbn [accepted] in Hacc. apply andb_prop in Hacc. destruct Hacc as [_ Hacc].
  cbn [run fold_left].
  fold (run (answer (S (current s)) UserInfo n h m b)
            (step (Submit env input) s)).
  destruct (profile_answered s env input n h m b Hwf Hacc)
    as [base [Hcfg [Hwf1 [Hcur1 [Hclk1 Hrep]]]]].
  pose proof (validate_ok h b data Hct Hjson Hst) as Hv.
  assert (Hval : reported UserInfo h b =
                 inl (TypeError "Cannot read properties of undefined (reading '0')")).
  { unfold reported. rewrite Hv, Hres. reflexivity. }
  rewrite Hval in Hrep.
  destruct Hrep as [Ht1 [Ha1 [Hc1 [Hsl1 [Hld1 [Hsh1 Hmsg1]]]]]].
  split.
  { eexists. split; [|split; [exact Hval|split]].
    - reflexivity.
    - unfold messages. rewrite Ha1. reflexivity.
    - exact Hmsg1. }
  split; [exact Hld1|]. split; [exact Hsh1|]. split; [exact Hsl1|].
  split; [exact Ht1|].
  unfold reported. rewrite Hv, Hres. split; reflexivity.
Qed.

(** X18 at a fresh page, for a search whose profile call is answered with
    status "OK" and nothing else. *)
Lemma profile_answer_without_result_is_a_type_error_witness :
  let b := json_body (JObj [("status", JStr "OK")]) in
  let trace := Submit (Some CF) "tourist" :: answer 1 UserInfo 120 JSON 30 b in
  reachable fresh_page /\ accepted trace fresh_page = true
  /\ includes "application/json" "application/json; charset=utf-8" = true
  /\ showError (ui (run trace fresh_page)) = true
  /\ tasks (run trace fresh_page) = [].
Proof.
  intros b trace.
  assert (H0 : reachable fresh_page) by apply reach_initial.
  assert (H1 : accepted trace fresh_page = true) by (vm_compute; reflexivity).
  split; [exact H0|]. split; [exact H1|]. split; [reflexivity|].
  destruct (profile_answer_without_result_is_a_type_error
              fresh_page (Some CF) "tourist" 120 JSON 30 b
              (JObj [("status", JStr "OK")])
              H0 H1 eq_refl eq_refl eq_refl eq_refl)
    as [_ [_ [Hshow [_ [Hnil _]]]]].
  split; [exact Hshow|exact Hnil].
Defined.

(** **** The course of a submission *)

Lemma outcomes_of_cons k en l :
  outcomes_of k (en :: l) =
  (outcomes_of k l ++
   if (e_sub en =? k) && is_outcome (e_act en) then [e_act en] else [])%list.
Proof.
  unfold outcomes_of. rewrite acts_of_cons, filter_app.
  destruct (e_sub en =? k); cbn [filter andb]; [|reflexivity].
  destruct (is_outcome (e_act en)); reflexivity.
Qed.

Lemma outcomes_of_fresh k l :
  (forall en, In en l -> e_sub en < k) -> outcomes_of k l = [].
Proof.
  intros H. unfold outcomes_of. rewrite acts_of_fresh by exact H. reflexivity.
Qed.

Ltac read_outcomes :=
  unfold outcomes in *; proj;
  repeat rewrite outcomes_of_cons; proj; cbn [is_outcome andb];
  rewrite ?andb_false_r, ?andb_true_r, ?app_nil_r.

Ltac no_task_of :=
  let t := fresh "t" in
  let Hin := fresh "Hin" in
  intros t Hin; cbn [In] in Hin;
  first
    [ contradiction
    | destruct Hin as [<-|[]]; proj; first [lia | congruence] ].

(** Closes [settled] for submission [k0] in a state written out in full
    whose current controller is the one of the state before. *)
Ltac settle IH k0 Hk0 :=
  let Hout := fresh "Hout" in
  let t0 := fresh "t" in
  let Ht0 := fresh "Ht" in
  let Hs0 := fresh "Hs" in
  let a := fresh "a" in
  let Hno := fresh "Hno" in
  destruct (IH k0 Hk0) as [[Hout [t0 [Ht0 Hs0]]]|[[a Hout] Hno]];
  [ first
      [ discriminate Ht0
      | injection Ht0 as <-; proj; subst k0;
        rewrite Hout, ?Nat.eqb_refl; cbn [app];
        first
          [ left; split; [reflexivity|]; eexists; split; reflexivity
          | right; split; [eexists; reflexivity | no_task_of] ] ]
  | rewrite Hout;
    try (let Hx := fresh "Hx" in
         pose proof (Hno _ (or_introl eq_refl)) as Hx; proj;
         try rewrite (proj2 (Nat.eqb_neq _ _) Hx));
    rewrite ?app_nil_r;
    right; split; [exists a; reflexivity | first [exact Hno | no_task_of] ] ].

Lemma settled_submit env input s :
  wf s -> settled s -> settled (step (Submit env input) s).
Proof.
  intros Hwf IH. unfold settled in *.
  on_submit s Hwf env; intros k0 Hk0; read_outcomes.
  all: assert (Hnew : outcomes_of (S cur) lg = [])
         by (apply outcomes_of_fresh; intros en Hen; apply Hl in Hen; lia).
  all: destruct (Nat.eqb_spec (S cur) k0) as [<-|Hne1];
       [ rewrite ?Hnew, ?succ_neqb, ?app_nil_r; cbn [app];
         first [ left; split; [reflexivity|]; eexists; split; reflexivity
               | right; split; [eexists; reflexivity|intros t []] ]
       | rewrite ?app_nil_r;
         assert (Hk : 1 <= k0 <= cur) by lia; settle IH k0 Hk ].
Qed.

Lemma settled_response e s :
  wf s -> is_submit e = false ->
  match e with Elapse _ => False | _ => True end ->
  settled s -> settled (step e s).
Proof.
  intros Hwf Hns He IH. unfold settled in *.
  on_response s Hwf e; try exact IH; intros k0 Hk0; read_outcomes;
    cbn [negb]; settle IH k0 Hk0.
Qed.

Lemma settled_fire tm s :
  wf s -> settled s -> settled (drain (fire tm s)).
Proof.
  intros Hwf IH. unfold settled in *.
  on_fire s Hwf tm; intros k0 Hk0; read_outcomes; settle IH k0 Hk0.
Qed.

Lemma reachable_settled s : reachable s -> settled s.
Proof.
  revert s. apply (invariant_ind settled).
  - intros info ratings problems k Hk. cbn in Hk. lia.
  - intros env input s Hwf IH. apply settled_submit; assumption.
  - intros e s Hwf Hns He IH. apply settled_response; assumption.
  - intros s _ IH. exact IH.
  - intros tm s Hwf _ IH. apply settled_fire; assumption.
Qed.

Lemma outcome_kind k l a :
  In a (outcomes_of k l) ->
  a = CallClearTimeout \/ exists msg, a = SetErrorMessage msg.
Proof.
  unfold outcomes_of. intros H. apply filter_In in H. destruct H as [_ H].
  destruct a; try discriminate H; [right; eexists; reflexivity|left; reflexivity].
Qed.

(** X19.  Every submission has exactly one outcome.  While its sequence
    is in flight it has had none; once it is over it has had one and one
    only: either it reached line 77 ([clearTimeout], after its three
    results) and has reported no error, or it has reported one error
    message and never reached line 77.  No submission reports two errors,
    and none both succeeds and reports an error. *)
Theorem every_submission_has_exactly_one_outcome s k :
  reachable s -> 1 <= k <= current s ->
  (outcomes k s = [] /\ exists t, tasks s = [t] /\ t_sub t = k)
  \/ ((forall t, In t (tasks s) -> t_sub t <> k)
      /\ (outcomes k s = [CallClearTimeout] /\ messages k s = []
          \/ exists msg, outcomes k s = [SetErrorMessage msg]
                         /\ messages k s = [msg])).
Proof.
  intros Hreach Hk.
  destruct (reachable_settled s Hreach k Hk) as [Hfly|[[a Hout] Hno]];
    [left; exact Hfly|right].
  split; [exact Hno|].
  assert (Hmsg : messages k s =
                 flat_map (fun a => match a with
                                    | SetErrorMessage m => [m]
                                    | _ => []
                                    end) (outcomes k s)).
  { unfold messages, outcomes, outcomes_of, acts.
    induction (acts_of k (log s)) as [|x l IHl]; [reflexivity|].
    cbn [flat_map filter]. destruct x; cbn [is_outcome flat_map app];
      rewrite IHl; reflexivity. }
  assert (Hin : In a (outcomes_of k (log s)))
    by (unfold outcomes in Hout; rewrite Hout; left; reflexivity).
  destruct (outcome_kind k (log s) a Hin) as [->|[msg ->]].
  - left. split; [exact Hout|]. rewrite Hmsg, Hout. reflexivity.
  - right. exists msg. split; [exact Hout|]. rewrite Hmsg, Hout. reflexivity.
Qed.

(** X19 at the page of [two_failures], for the second search. *)
Lemma every_submission_has_exactly_one_outcome_witness :
  let s := two_failures in
  reachable s /\ 1 <= 2 <= current s
  /\ ((outcomes 2 s = [] /\ exists t, tasks s = [t] /\ t_sub t = 2)
      \/ ((forall t, In t (tasks s) -> t_sub t <> 2)
          /\ (outcomes 2 s = [CallClearTimeout] /\ messages 2 s = []
              \/ exists msg, outcomes 2 s = [SetErrorMessage msg]
                             /\ messages 2 s = [msg]))).
Proof.
  intros s.
  assert (H0 : reachable s).
  { unfold s, two_failures. apply reachable_run. unfold searching.
    apply reach_step. apply reach_initial. }
  assert (H1 : 1 <= 2 <= current s) by (vm_compute; lia).
  split; [exact H0|]. split; [exact H1|].
  exact (every_submission_has_exactly_one_outcome s 2 H0 H1).
Defined.

Lemma marks_of_cons k en l :
  marks_of k (en :: l) =
  (marks_of k l ++ if e_sub en =? k then mark_of (e_act en) else [])%list.
Proof.
  unfold marks_of. rewrite acts_of_cons, flat_map_app.
  destruct (e_sub en =? k); cbn [flat_map]; rewrite ?app_nil_r; reflexivity.
Qed.

Lemma marks_of_fresh k l :
  (forall en, In en l -> e_sub en < k) -> marks_of k l = [].
Proof.
  intros H. unfold marks_of. rewrite acts_of_fresh by exact H. reflexivity.
Qed.

Ltac read_marks :=
  unfold marks in *; proj;
  repeat rewrite marks_of_cons; proj; cbn [mark_of];
  repeat match goal with
         | |- context [if ?c then @nil mark else []] =>
             replace (if c then @nil mark else []) with (@nil mark)
               by (destruct c; reflexivity)
         end;
  repeat rewrite app_nil_r; repeat rewrite <- app_assoc; cbn [app].

(** Keeps how far submission [k] has gone, when the step adds nothing to
    its calls and slot writes and it has no invocation afterwards, or the
    one it had. *)
Ltac same_marks IH k Hk :=
  let n := fresh "n" in
  let Hm := fresh "Hm" in
  let Ht := fresh "Ht" in
  let Hn := fresh "Hn" in
  destruct (IH k Hk) as [n [Hn [Hm Ht]]];
  exists n; split; [exact Hn|]; split; [exact Hm|];
  let t := fresh "t" in
  let Hin := fresh "Hin" in
  let Hs := fresh "Hs" in
  intros t Hin Hs; cbn [In] in Hin;
  first
    [ contradiction
    | apply Ht; assumption
    | destruct Hin as [<-|[]]; proj;
      first [ lia | congruence
            | apply (Ht _ (or_introl eq_refl)); assumption ] ].

Lemma in_order_submit env input s :
  wf s -> in_order s -> in_order (step (Submit env input) s).
Proof.
  intros Hwf IH. unfold in_order in *.
  on_submit s Hwf env; intros k0 Hk0; read_marks.
  all: assert (Hnew : marks_of (S cur) lg = [])
         by (apply marks_of_fresh; intros en Hen; apply Hl in Hen; lia).
  all: destruct (Nat.eqb_spec (S cur) k0) as [<-|Hne1];
       [ rewrite Hnew; cbn [app];
         first
           [ exists 4; split; [lia|]; split; [reflexivity|];
             intros t [<-|[]] _; reflexivity
           | exists 3; split; [lia|]; split; [reflexivity|]; intros t [] ]
       | rewrite ?app_nil_r;
         assert (Hk : 1 <= k0 <= cur) by lia; same_marks IH k0 Hk ].
Qed.

Lemma in_order_response e s :
  wf s -> is_submit e = false ->
  match e with Elapse _ => False | _ => True end ->
  in_order s -> in_order (step e s).
Proof.
  intros Hwf Hns He IH. unfold in_order in *.
  on_response s Hwf e; try exact IH; intros k0 Hk0; read_marks; cbn [negb].
  all: try (same_marks IH k0 Hk0).
  all: destruct (Nat.eqb_spec cur k0) as [<-|Hne];
       [ destruct (IH cur Hk0) as [n0 [_ [Hm0 Ht0]]];
         pose proof (Ht0 _ (or_introl eq_refl) eq_refl) as Hn; proj;
         cbn in Hn; subst n0; rewrite Hm0;
         first
           [ exists 6; split; [lia|]; split;
             [reflexivity|intros t [<-|[]] _; reflexivity]
           | exists 8; split; [lia|]; split;
             [reflexivity|intros t [<-|[]] _; reflexivity]
           | exists 9; split; [lia|]; split; [reflexivity|intros t []] ]
       | rewrite ?app_nil_r; same_marks IH k0 Hk0 ].
Qed.

Lemma in_order_fire tm s :
  wf s -> in_order s -> in_order (drain (fire tm s)).
Proof.
  intros Hwf IH. unfold in_order in *.
  on_fire s Hwf tm; intros k0 Hk0; read_marks; same_marks IH k0 Hk0.
Qed.

Lemma reachable_in_order s : reachable s -> in_order s.
Proof.
  revert s. apply (invariant_ind in_order).
  - intros info ratings problems k Hk. cbn in Hk. lia.
  - intros env input s Hwf IH. apply in_order_submit; assumption.
  - intros e s Hwf Hns He IH. apply in_order_response; assumption.
  - intros s _ IH. exact IH.
  - intros tm s Hwf _ IH. apply in_order_fire; assumption.
Qed.

(** X20.  Whatever submissions, responses and timers come in between, the
    calls and slot writes of a submission follow the order of the program:
    the three slots are cleared, then come the profile call, the profile,
    the rating call, the ratings, the submission-history call, the
    submissions.  What a submission has done of this is always a beginning
    of that list, at least the reset; no result is written out of order,
    twice, or before its call, and no call is made before the result of the
    call before it is written.  The sequence in flight has just made the
    call of its stage. *)
Theorem calls_and_results_follow_the_script s k :
  reachable s -> 1 <= k <= current s ->
  exists n,
    3 <= n <= 9
    /\ marks k s = firstn n script
    /\ forall t, In t (tasks s) -> t_sub t = k ->
         n = 2 + 2 * stage_number (t_stage t).
Proof.
  intros Hreach Hk.
  destruct (reachable_in_order s Hreach k Hk) as [n [Hn [Hm Ht]]].
  destruct (le_lt_dec n 9) as [Hle|Hgt].
  - exists n. split; [lia|]. split; assumption.
  - exists 9. split; [lia|]. split.
    + rewrite Hm. apply firstn_all2. cbn. lia.
    + intros t Hin Hs. pose proof (Ht t Hin Hs) as Hst.
      destruct (t_stage t); cbn in Hst; lia.
Qed.

(** X20 at the page that shows the profile of the first search. *)
Lemma calls_and_results_follow_the_script_witness :
  let s := profile_shown in
  reachable s /\ 1 <= 1 <= current s
  /\ exists n,
       3 <= n <= 9
       /\ marks 1 s = firstn n script
       /\ forall t, In t (tasks s) -> t_sub t = 1 ->
            n = 2 + 2 * stage_number (t_stage t).
Proof.
  intros s.
  assert (H0 : reachable s).
  { unfold s, profile_shown. apply reachable_run. unfold searching.
    apply reach_step. apply reach_initial. }
  assert (H1 : 1 <= 1 <= current s) by (vm_compute; lia).
  split; [exact H0|]. split; [exact H1|].
  exact (calls_and_results_follow_the_script s 1 H0 H1).
Defined.

Ltac write_is_latest Hl :=
  let Hw := fresh "Hw" in
  let x := fresh "x" in
  let Hx := fresh "Hx" in
  intros Hw x Hx; cbn [e_act is_write] in Hw; try discriminate Hw;
  cbn [In] in Hx;
  repeat match type of Hx with _ \/ _ => destruct Hx as [Hx|Hx] end;
  try (subst x; proj; lia);
  apply Hl in Hx; proj; lia.

Ltac writes_explicit Hl IH :=
  cbn [latest_writes]; proj;
  repeat (split; [write_is_latest Hl|]); exact IH.

Lemma latest_writes_reachable s : reachable s -> latest_writes (log s).
Proof.
  revert s. apply (invariant_ind (fun s => latest_writes (log s))).
  - intros info ratings problems. exact I.
  - intros env input s Hwf IH. on_submit s Hwf env; writes_explicit Hl IH.
  - intros e s Hwf Hns He IH.
    on_response s Hwf e; proj; try exact IH; writes_explicit Hl IH.
  - intros s _ IH. exact IH.
  - intros tm s Hwf _ IH. on_fire s Hwf tm; writes_explicit Hl IH.
Qed.

(** X21.  A slot is written by the latest submission only: when a
    submission writes a slot (to clear it or to report a result), nothing
    has been done yet in the name of a later submission.  So a result of an
    earlier search never overwrites what a later search has cleared or
    reported. *)
Theorem slots_are_written_by_the_latest_submission_only s newer en older :
  reachable s -> log s = (newer ++ en :: older)%list ->
  is_write (e_act en) = true ->
  forall x, In x older -> e_sub x <= e_sub en.
Proof.
  intros Hreach Hlog. pose proof (latest_writes_reachable s Hreach) as H.
  rewrite Hlog in H. clear Hlog.
  induction newer as [|y newer IH]; cbn [app latest_writes] in H.
  - apply H.
  - apply IH. apply H.
Qed.

(** X21 at the page whose second search was made while the first was in
    flight, for the write that clears the profile slot. *)
Lemma slots_are_written_by_the_latest_submission_only_witness :
  let s := searching_again in
  let en := mkEntry 0 2 (SetUserInfo JNull) in
  reachable s
  /\ log s = (firstn 8 (log s) ++ en :: skipn 9 (log s))%list
  /\ is_write (e_act en) = true
  /\ forall x, In x (skipn 9 (log s)) -> e_sub x <= e_sub en.
Proof.
  intros s en.
  assert (H0 : reachable s)
    by (apply reach_step; apply reach_step; apply reach_initial).
  assert (H1 : log s = (firstn 8 (log s) ++ en :: skipn 9 (log s))%list)
    by (vm_compute; reflexivity).
  split; [exact H0|]. split; [exact H1|]. split; [reflexivity|].
  exact (slots_are_written_by_the_latest_submission_only
           s (firstn 8 (log s)) en (skipn 9 (log s)) H0 H1 eq_refl).
Defined.

(** **** A sequence that succeeded *)

Lemma not_of_later k j kind d :
  k < j -> is_abort_timer_of k (mkTimer j kind d) = false.
Proof.
  intros H. unfold is_abort_timer_of. cbn [tm_sub].
  rewrite (proj2 (Nat.eqb_neq j k)) by lia. reflexivity.
Qed.

Lemma not_a_timeout k j d : is_abort_timer_of k (mkTimer j HideTimer d) = false.
Proof. unfold is_abort_timer_of. cbn. apply andb_false_r. Qed.

Lemma clean_initial info ratings problems :
  clean_upto [] (initial info ratings problems).
Proof. intros t k []. Qed.

(** The timers and the log of a state written out in full, for a
    submission whose [clearTimeout] is in the log of the state before, or
    is the one the step has just made. *)
Ltac still_clean IH Hl :=
  let t' := fresh "t'" in
  let j := fresh "j" in
  let Hin := fresh "Hin" in
  intros t' j Hin; in_log Hin; try discriminate Hin;
  first
    [ injection Hin as <- <-; split;
      [ let tm := fresh "tm" in
        let Htm := fresh "Htm" in
        intros tm [Htm|[]]; apply filter_In in Htm;
        destruct Htm as [_ Htm]; apply negb_true_iff in Htm; exact Htm
      | let t := fresh "t" in
        let Hu := fresh "Hu" in
        intros t Hu; in_log Hu; try discriminate Hu;
        match goal with
        | Hmine : forall en, In en _ -> e_sub en = _ -> _ /\ _ |- _ =>
            apply (proj2 (Hmine _ Hu eq_refl)); reflexivity
        end ]
    | let Hj := fresh "Hj" in
      pose proof (Hl _ Hin) as Hj; proj;
      let Hno := fresh "Hno" in
      let Hquiet := fresh "Hquiet" in
      destruct (IH _ _ Hin) as [Hno Hquiet];
      split;
      [ let tm := fresh "tm" in
        let Htm := fresh "Htm" in
        intros tm [Htm|Htm];
        [ split_in Htm;
          first
            [ contradiction
            | subst tm; first [apply not_a_timeout | apply not_of_later; lia]
            | apply Hno; left; exact Htm ]
        | apply Hno; right; first [exact Htm | right; exact Htm] ]
      | let t := fresh "t" in
        let Hu := fresh "Hu" in
        intros t Hu; in_log Hu; try discriminate Hu;
        apply (Hquiet t); exact Hu ] ].

Lemma clean_submit env input s :
  wf s -> clean_upto [] s -> clean_upto [] (step (Submit env input) s).
Proof.
  intros Hwf IH. unfold clean_upto in *.
  on_submit s Hwf env; proj; still_clean IH Hl.
Qed.

Lemma clean_response e s :
  wf s -> started s -> is_submit e = false ->
  match e with Elapse _ => False | _ => True end ->
  clean_upto [] s -> clean_upto [] (step e s).
Proof.
  intros Hwf Hstarted Hns He IH. unfold clean_upto, started in *.
  on_response s Hwf e; proj; try exact IH;
    try (destruct (Hstarted ltac:(discriminate)) as [_ Hmine]);
    still_clean IH Hl.
Qed.

Lemma clean_fire tm rest s :
  wf s -> clean_upto (tm :: rest) s -> clean_upto rest (drain (fire tm s)).
Proof.
  intros Hwf. unfold clean_upto.
  on_fire s Hwf tm; intros IH; proj.
  all: intros t' j Hin; in_log Hin; try discriminate Hin.
  all: destruct (IH _ _ Hin) as [Hno Hquiet].
  all: split;
       [ intros tm [Hx|Hx];
         [ split_in Hx;
           first
             [ contradiction
             | subst tm; apply not_a_timeout
             | apply Hno; left; exact Hx ]
         | apply Hno; right; right; exact Hx ]
       | intros t Hu; in_log Hu; try discriminate Hu;
         try (apply (Hquiet t); exact Hu) ].
  all: injection Hu as _ ->.
  all: pose proof (Hno _ (or_intror (or_introl eq_refl))) as Hself.
  all: unfold is_abort_timer_of in Hself; proj;
       rewrite Nat.eqb_refl in Hself; discriminate Hself.
Qed.

Lemma clean_fire_all due s :
  wf s ->
  (forall tm, In tm due -> tm_sub tm <= current s) ->
  clean_upto due s -> clean_upto [] (fire_all due s).
Proof.
  unfold fire_all. revert s.
  induction due as [|tm due IH]; intros s Hwf Hdue Hinv; [exact Hinv|].
  cbn [fold_left].
  destruct (wf_fire tm s Hwf (Hdue tm (or_introl eq_refl)))
    as [Hwf' [Hcur Hclk]].
  apply IH.
  - exact Hwf'.
  - intros tm' Hin. rewrite Hcur. apply Hdue. right. exact Hin.
  - apply clean_fire; assumption.
Qed.

Lemma clean_tick s : wf s -> clean_upto [] s -> clean_upto [] (tick s).
Proof.
  intros Hwf IH. unfold tick. apply clean_fire_all.
  - apply wf_advance. exact Hwf.
  - intros tm Hin. apply (due_now s tm Hwf Hin).
  - intros t' k Hin. change (log (advance s)) with (log s) in *.
    destruct (IH t' k Hin) as [Hno Hquiet]. split; [|exact Hquiet].
    intros tm [Hx|Hx]; apply Hno; left.
    + unfold advance in Hx. cbn [timers] in Hx.
      apply filter_In in Hx. apply Hx.
    + apply filter_In in Hx. apply Hx.
Qed.

Lemma reachable_clean s : reachable s -> clean_upto [] s.
Proof.
  induction 1 as [info ratings problems|e s Hreach IH];
    [apply clean_initial|].
  pose proof (reachable_wf s Hreach) as Hwf.
  pose proof (reachable_started s Hreach) as Hst.
  destruct e as [env input| | | |n].
  - apply clean_submit; assumption.
  - apply clean_response; auto.
  - apply clean_response; auto.
  - apply clean_response; auto.
  - rewrite step_elapse by exact Hwf.
    apply (elapse_ind (clean_upto [])); [exact Hwf|exact IH|].
    intros s1 Hwf1 H1. apply clean_tick; assumption.
Qed.

Lemma in_acts t k a l : In (mkEntry t k a) l -> In a (acts_of k l).
Proof.
  intros H. unfold acts_of. apply in_map_iff. exists (mkEntry t k a).
  split; [reflexivity|]. apply filter_In. split.
  - apply in_rev in H. exact H.
  - cbn. apply Nat.eqb_refl.
Qed.

Lemma success_is_of_a_submission s :
  reachable s ->
  (tasks s <> [] -> 1 <= current s)
  /\ forall en, In en (log s) -> e_act en = CallClearTimeout -> 1 <= e_sub en.
Proof.
  revert s.
  apply (invariant_ind
           (fun s => (tasks s <> [] -> 1 <= current s)
                     /\ forall en, In en (log s) ->
                          e_act en = CallClearTimeout -> 1 <= e_sub en)).
  - intros info ratings problems.
    split; [intros H; contradiction H; reflexivity|intros en []].
  - intros env input s Hwf [IH1 IH2].
    on_submit s Hwf env; proj; (split; [intros _; lia|]);
      intros en Hin Hact; in_log Hin;
      try (subst en; discriminate Hact); apply (IH2 _ Hin Hact).
  - intros e s Hwf Hns He [IH1 IH2].
    on_response s Hwf e; proj;
      (split;
       [ first [ exact IH1 | intros _; apply IH1; discriminate
               | intros H; contradiction H; reflexivity ] | ]);
      try exact IH2;
      intros en Hin Hact; in_log Hin;
      try (subst en; first [discriminate Hact | proj; apply IH1; discriminate]);
      apply (IH2 _ Hin Hact).
  - intros s _ IH. exact IH.
  - intros tm s Hwf _ [IH1 IH2].
    on_fire s Hwf tm; proj;
      (split;
       [ first [ exact IH1 | intros _; apply IH1; discriminate
               | intros H; contradiction H; reflexivity ] | ]);
      intros en Hin Hact; in_log Hin;
      try (subst en; discriminate Hact); apply (IH2 _ Hin Hact).
Qed.

Lemma messages_from_outcomes k s :
  messages k s =
  flat_map (fun a => match a with SetErrorMessage m => [m] | _ => [] end)
           (outcomes k s).
Proof.
  unfold messages, outcomes, outcomes_of, acts.
  induction (acts_of k (log s)) as [|x l IHl]; [reflexivity|].
  cbn [flat_map filter]. destruct x; cbn [is_outcome flat_map app];
    rewrite IHl; reflexivity.
Qed.

(** X22.  A submission that has reached line 77 is done with for good: no
    timeout of its own is armed, its timeout never throws, it has reported
    no error and never will (this holds in every later state as well), and
    no invocation of it is left. *)
Theorem successful_submission_never_throws s t' k :
  reachable s -> In (mkEntry t' k CallClearTimeout) (log s) ->
  (forall tm, In tm (timers s) -> is_abort_timer_of k tm = false)
  /\ (forall t, ~ In (mkEntry t k (Uncaught TIMED_OUT)) (log s))
  /\ outcomes k s = [CallClearTimeout]
  /\ messages k s = []
  /\ forall t, In t (tasks s) -> t_sub t <> k.
Proof.
  intros Hreach Hin.
  destruct (reachable_clean s Hreach t' k Hin) as [Hno Hquiet].
  split; [intros tm Htm; apply Hno; left; exact Htm|].
  split; [exact Hquiet|].
  assert (Hk : 1 <= k <= current s).
  { split.
    - apply (proj2 (success_is_of_a_submission s Hreach) _ Hin eq_refl).
    - apply (wf_log s (reachable_wf s Hreach)) in Hin. apply Hin. }
  assert (Hmine : In CallClearTimeout (outcomes k s)).
  { unfold outcomes, outcomes_of. apply filter_In.
    split; [apply (in_acts t'); exact Hin|reflexivity]. }
  destruct (reachable_settled s Hreach k Hk) as [[Hnone _]|[[a Hout] Hover]].
  { rewrite Hnone in Hmine. destruct Hmine. }
  rewrite Hout in Hmine. destruct Hmine as [->|[]].
  split; [exact Hout|]. split; [|exact Hover].
  rewrite messages_from_outcomes, Hout. reflexivity.
Qed.

(** X22 at the page that shows the three results of the first search. *)
Lemma successful_submission_never_throws_witness :
  let s := results_shown in
  reachable s /\ In (mkEntry 720 1 CallClearTimeout) (log s)
  /\ (forall tm, In tm (timers s) -> is_abort_timer_of 1 tm = false)
  /\ (forall t, ~ In (mkEntry t 1 (Uncaught TIMED_OUT)) (log s))
  /\ outcomes 1 s = [CallClearTimeout]
  /\ messages 1 s = []
  /\ forall t, In t (tasks s) -> t_sub t <> 1.
Proof.
  intros s.
  assert (H0 : reachable s).
  { unfold s, results_shown. apply reachable_run. unfold searching.
    apply reach_step. apply reach_initial. }
  assert (H1 : In (mkEntry 720 1 CallClearTimeout) (log s))
    by (vm_compute; tauto).
  split; [exact H0|]. split; [exact H1|].
  exact (successful_submission_never_throws s 720 1 H0 H1).
Defined.

(** **** C1: the outcomes of the two submissions *)

(** A sequence in flight is that of a submission: controller 0, the one of
    [useRef], is given to no call. *)
Lemma in_flight_is_submitted s :
  reachable s -> tasks s <> [] -> 1 <= current s.
Proof.
  revert s.
  apply (invariant_ind (fun s => tasks s <> [] -> 1 <= current s)).
  - intros info ratings problems H. contradiction H. reflexivity.
  - intros env input s Hwf _ _.
    destruct (submit_started env input s Hwf) as [Hcur _]. lia.
  - intros e s Hwf Hns He IH Hbusy.
    destruct (response_keeps e s Hwf Hns He) as [Hle _].
    destruct (tasks s) eqn:Hts.
    + exfalso. apply Hbusy.
      destruct e; try contradiction; try discriminate;
        erewrite late_answer_is_dropped; try eassumption; reflexivity.
    + assert (H1 : 1 <= current s) by (apply IH; discriminate). lia.
  - intros s _ IH. exact IH.
  - intros tm s Hwf Hle IH Hbusy.
    destruct (busy_fire tm s Hwf Hbusy) as [_ [Hts _]].
    rewrite Hts in Hbusy.
    destruct (wf_fire tm s Hwf Hle) as [_ [Hc _]].
    rewrite Hc. apply IH, Hbusy.
Qed.

Lemma callbacks_are_no_outcome later :
  Forall timer_callback_action later -> filter is_outcome later = [].
Proof.
  induction 1 as [|a later Ha _ IH]; [reflexivity|].
  cbn [filter]. destruct a as [| |[]| | | | | | | |];
    try contradiction; cbn [is_outcome]; exact IH.
Qed.

Lemma submit_sets_timeout env input s API_BASE :
  wf s -> configured env = Some API_BASE ->
  In (mkEntry (clock s) (S (current s))
              (CallSetTimeout AbortTimer (clock s + TIMEOUT)))
     (log (step (Submit env input) s)).
Proof.
  intros Hwf. on_submit s Hwf env; intros Hsome; try discriminate; proj;
    find_entry.
Qed.

Lemma outcomes_acts k s : outcomes k s = filter is_outcome (acts k s).
Proof. reflexivity. Qed.

(** What the page shows after a submission made over a sequence in
    flight, whether the submission passes the configuration check or
    not. *)
Lemma submit_over_ui env input s :
  wf s -> tasks s <> [] ->
  ui (step (Submit env input) s) =
  mkUi false true "Request cancelled" JNull JNull JNull.
Proof.
  intros Hwf. on_submit s Hwf env; intros Hbusy; proj;
    try (contradiction Hbusy; reflexivity); reflexivity.
Qed.

(** The submission that is in flight has had no outcome. *)
Lemma in_flight_no_outcome s t :
  reachable s -> In t (tasks s) -> outcomes (current s) s = [].
Proof.
  intros Hreach Hin.
  assert (Hbusy : tasks s <> []) by (intros H; rewrite H in Hin; destruct Hin).
  pose proof (in_flight_is_submitted s Hreach Hbusy) as Hpos.
  destruct (reachable_settled s Hreach (current s) ltac:(lia))
    as [[Hnone _]|[_ Hover]]; [exact Hnone|].
  exfalso. apply (Hover t Hin).
  destruct (wf_tasks s (reachable_wf s Hreach)) as [Hnil|[t1 [Ht1 [Hs1 _]]]].
  - contradiction.
  - rewrite Ht1 in Hin. destruct Hin as [<-|[]]. exact Hs1.
Qed.

(** C1, as the code has it.  When a submission arrives while the sequence
    of submission [k] is in flight, that sequence is aborted: it writes no
    result and makes no call any more.  But it does report: right after the
    synchronous part of the new submission its catch block runs and reports
    "Request cancelled" (clearing the loading flag and showing the error,
    while the new search is in flight); from then on only its timers act in
    its name.  So each of the two submissions has an outcome of its own:
    "Request cancelled" is the one outcome of [k], whatever happens later;
    the new submission has none while its sequence is in flight and exactly
    one once it is over, which it is at the latest ten seconds after it was
    made. *)
Theorem superseded_sequence_only_reports_cancellation s t env input :
  reachable s -> In t (tasks s) ->
  let k := current s in
  let s' := step (Submit env input) s in
  acts k s' = (acts k s ++ failure_report "Request cancelled" (clock s))%list
  /\ (exists sync,
        log s' =
          (rev (map (mkEntry (clock s) k)
                    (failure_report "Request cancelled" (clock s)))
           ++ sync ++ log s)%list
        /\ Forall (fun en => e_sub en = S k) sync
        /\ In (mkEntry (clock s) (S k) (CallAbort k)) sync)
  /\ ui s' = mkUi false true "Request cancelled" JNull JNull JNull
  /\ (forall evs, exists later,
        acts k (run evs s') = (acts k s' ++ later)%list
        /\ Forall timer_callback_action later)
  /\ forall evs,
       let s'' := run evs s' in
       outcomes k s'' = [SetErrorMessage "Request cancelled"]
       /\ ((outcomes (S k) s'' = []
            /\ exists t', tasks s'' = [t'] /\ t_sub t' = S k)
           \/ ((exists a, outcomes (S k) s'' = [a])
               /\ forall t', In t' (tasks s'') -> t_sub t' <> S k))
       /\ ((clock s + 10000 <= clock s'')%N ->
           exists a, outcomes (S k) s'' = [a]).
Proof.
  intros Hreach Hin k s'. pose proof (reachable_wf s Hreach) as Hwf.
  destruct (submit_supersedes env input s t Hwf Hin) as [Hacts [Horder Hret]].
  fold k in Hacts, Horder, Hret. fold s' in Hacts, Horder, Hret.
  assert (Hwf' : wf s') by (apply wf_step; exact Hwf).
  assert (Hreach' : reachable s') by (apply reach_step; exact Hreach).
  split; [exact Hacts|]. split; [exact Horder|].
  split.
  { apply submit_over_ui; [exact Hwf|].
    intros H. rewrite H in Hin. destruct Hin. }
  split; [intros evs; apply retired_run; assumption|].
  intros evs s''.
  assert (Hreach'' : reachable s'') by (apply reachable_run; exact Hreach').
  destruct (submit_started env input s Hwf) as [Hcur' [Hclk' _]].
  fold s' in Hcur', Hclk'. fold k in Hcur'.
  destruct (run_keeps evs s' Hwf') as [Hcur'' _]. fold s'' in Hcur''.
  split.
  { destruct (retired_run evs s' k Hwf' Hret) as [later [Hlater Hcb]].
    fold s'' in Hlater.
    rewrite outcomes_acts, Hlater, Hacts, !filter_app.
    rewrite (callbacks_are_no_outcome later Hcb), app_nil_r.
    rewrite <- outcomes_acts. unfold k.
    rewrite (in_flight_no_outcome s t Hreach Hin). reflexivity. }
  destruct (reachable_settled s'' Hreach'' (S k) ltac:(lia))
    as [[Hnone [t2 [Ht2 Hs2]]]|[Hone Hover]].
  2:{ split; [right; split; [exact Hone|exact Hover]|]. intros _; exact Hone. }
  split; [left; split; [exact Hnone|exists t2; split; assumption]|].
  intros Hlate. exfalso.
  assert (Hin2 : In t2 (tasks s'')) by (rewrite Ht2; left; reflexivity).
  destruct (configured env) as [base|] eqn:Hcfg.
  - pose proof (submit_sets_timeout env input s base Hwf Hcfg) as Hset.
    fold s' in Hset. fold k in Hset. rewrite <- Hcur' in Hset at 1.
    apply (no_sequence_outlives_its_timeout s' (clock s) evs Hreach' Hset
             Hlate t2 Hin2).
    congruence.
  - pose proof (submit_tasks env input s Hwf) as Hidle. rewrite Hcfg in Hidle.
    fold s' in Hidle.
    assert (Hret' : retired (S k) s') by (right; split; [congruence|exact Hidle]).
    destruct (retired_run evs s' (S k) Hwf' Hret') as [later [Hlater Hcb]].
    fold s'' in Hlater.
    destruct (reachable_settled s' Hreach' (S k) ltac:(lia))
      as [[_ [t3 [Ht3 _]]]|[[a Ha] _]]; [congruence|].
    rewrite outcomes_acts, Hlater, filter_app in Hnone.
    rewrite <- outcomes_acts, Ha in Hnone. discriminate Hnone.
Qed.

(** C1: the theorem at a page whose first search is in flight when "Petr"
    is searched for; the three calls of the second search are then
    answered. *)
Lemma superseded_sequence_only_reports_cancellation_witness :
  reachable searching /\ In first_call (tasks searching)
  /\ acts 1 searching_again =
     (acts 1 searching ++ failure_report "Request cancelled" 0)%list
  /\ outcomes 1 (run (three_answers 2) searching_again) =
     [SetErrorMessage "Request cancelled"]
  /\ exists a, outcomes 2 (run (three_answers 2) searching_again) = [a].
Proof.
  assert (H1 : reachable searching)
    by (apply reach_step; apply reach_initial).
  assert (H2 : In first_call (tasks searching)) by (left; reflexivity).
  split; [exact H1|]. split; [exact H2|].
  destruct (superseded_sequence_only_reports_cancellation
              searching first_call (Some CF) "Petr" H1 H2)
    as [Hacts [_ [_ [_ Hout]]]].
  split; [exact Hacts|].
  destruct (Hout (three_answers 2)) as [Hfirst [[[_ Hbusy]|[Hsecond _]] _]].
  - exfalso. destruct Hbusy as [t [Hts _]]. vm_compute in Hts.
    discriminate Hts.
  - split; [exact Hfirst|exact Hsecond].
Defined.

(** **** A submission that is left alone *)

(** A page none of whose timers is a timeout has no sequence in flight. *)
Lemma no_timeout_no_sequence s :
  reachable s -> (forall tm, In tm (timers s) -> tm_kind tm = HideTimer) ->
  tasks s = [].
Proof.
  intros Hreach Hhide. destruct (tasks s) as [|t ts] eqn:Hts; [reflexivity|].
  exfalso.
  assert (Hbusy : tasks s <> []) by (rewrite Hts; discriminate).
  destruct (reachable_started s Hreach Hbusy) as [[t0 Hset] Hnone].
  destruct (reachable_timeouts s Hreach _ _ Hset)
    as [Htm|[[]|[[Hfired _]|[t' Hclear]]]].
  - apply Hhide in Htm. discriminate Htm.
  - apply (proj2 (Hnone _ Hfired eq_refl)). reflexivity.
  - apply (proj1 (Hnone _ Hclear eq_refl)). reflexivity.
Qed.

Lemma submit_alone env input s API_BASE :
  wf s -> tasks s = [] -> configured env = Some API_BASE ->
  timers (step (Submit env input) s) =
  (timers s ++ [mkTimer (S (current s)) AbortTimer (clock s + TIMEOUT)])%list.
Proof.
  intros Hwf. on_submit s Hwf env; intros Hidle Hsome; proj;
    try discriminate; reflexivity.
Qed.

(** The callback of an error timer leaves the sequence in flight alone. *)
Lemma hide_keeps_tasks tm s :
  wf s -> tm_kind tm = HideTimer -> tasks (drain (fire tm s)) = tasks s.
Proof.
  intros Hwf. on_fire s Hwf tm; intros Hkind; try discriminate Hkind;
    reflexivity.
Qed.

(** The timeout that cancels a sequence shows the error. *)
Lemma timeout_shows k d s :
  wf s -> tasks s <> [] ->
  showError (ui (drain (fire (mkTimer k AbortTimer d) s))) = true.
Proof.
  intros Hwf. remember (mkTimer k AbortTimer d) as tm eqn:Etm. revert Etm.
  on_fire s Hwf tm; intros Etm Hbusy; try discriminate Etm;
    try (contradiction Hbusy; reflexivity); reflexivity.
Qed.

Lemma left_alone_shows s env input API_BASE :
  reachable s -> configured env = Some API_BASE ->
  (forall tm, In tm (timers s) -> tm_kind tm = HideTimer) ->
  showError (ui (step (Elapse TIMEOUT) (step (Submit env input) s))) = true.
Proof.
  intros Hreach Hcfg Hhide.
  pose proof (reachable_wf s Hreach) as Hwf.
  pose proof (no_timeout_no_sequence s Hreach Hhide) as Hidle.
  pose proof (submit_alone env input s API_BASE Hwf Hidle Hcfg) as Htms.
  pose proof (submit_undisturbed env input s API_BASE Hwf Hcfg Hhide) as Hund.
  destruct (submit_started env input s Hwf) as [Hcur [Hclk _]].
  set (k := S (current s)) in *.
  set (start := start_actions (current s) (clock s) API_BASE (trim input)) in *.
  set (s0 := step (Submit env input) s) in *.
  assert (Hwf0 : wf s0) by (apply wf_step; exact Hwf).
  rewrite step_elapse by exact Hwf0.
  replace (N.iter TIMEOUT tick s0) with (tick (N.iter 9999 tick s0))
    by (symmetry; exact (N.iter_succ 9999 _ tick s0)).
  pose proof (undisturbed_elapse k (clock s) start s0 9999 Hwf0 Hclk
                ltac:(reflexivity) Hund) as Hund9.
  assert (Hb9 : tasks (step (Elapse 9999) s0) <> [])
    by (rewrite step_elapse by exact Hwf0; apply Hund9).
  destruct (busy_elapse 9999 s0 Hwf0 Hb9) as [_ [Htm9 _]].
  rewrite (clock_elapse 9999 s0 Hwf0), Hclk in Htm9.
  rewrite step_elapse in Htm9 by exact Hwf0.
  assert (Hwf9 : wf (N.iter 9999 tick s0)) by (apply wf_elapse; exact Hwf0).
  assert (Hclk9 : clock (N.iter 9999 tick s0) = (clock s + 9999)%N).
  { rewrite <- step_elapse by exact Hwf0. rewrite clock_elapse by exact Hwf0.
    lia. }
  set (s9 := N.iter 9999 tick s0) in *. clearbody s9.
  set (x := mkTimer k AbortTimer (clock s + TIMEOUT)) in *.
  assert (Hx9 : is_due (clock s + 9999) x = false)
    by (unfold is_due, x, TIMEOUT; cbn [tm_due]; apply N.leb_gt; lia).
  assert (Hx10 : is_due (clock s + 9999 + 1) x = true)
    by (unfold is_due, x, TIMEOUT; cbn [tm_due]; apply N.leb_le; lia).
  unfold tick. rewrite Htm9, Htms, Hclk9. unfold pending.
  rewrite filter_app. cbn [filter]. rewrite Hx9. cbn [negb].
  rewrite filter_app. cbn [filter]. rewrite Hx10.
  unfold fire_all. rewrite fold_left_app. cbn [fold_left].
  fold (fire_all (filter (is_due (clock s + 9999 + 1))
                   (filter (fun tm => negb (is_due (clock s + 9999) tm))
                           (timers s))) (advance s9)).
  apply timeout_shows.
  - apply wf_fire_all; [apply wf_advance; exact Hwf9|].
    intros tm Hin. apply filter_In in Hin. destruct Hin as [Hin _].
    apply filter_In in Hin. destruct Hin as [Hin _].
    apply (wf_timers s Hwf) in Hin. destruct Hund9 as [Hc9 _].
    unfold advance. cbn [current]. rewrite Hc9. unfold k. lia.
  - apply (fire_all_ind (fun s1 => tasks s1 <> [])).
    + apply wf_advance. exact Hwf9.
    + unfold advance. cbn [tasks]. apply Hund9.
    + intros tm s1 Hin Hwf1 _ _ Hb1.
      apply filter_In in Hin. destruct Hin as [Hin _].
      apply filter_In in Hin. destruct Hin as [Hin _].
      rewrite hide_keeps_tasks; [exact Hb1|exact Hwf1|apply Hhide, Hin].
    + intros tm Hin. apply filter_In in Hin. destruct Hin as [Hin _].
      apply filter_In in Hin. destruct Hin as [Hin _].
      apply (wf_timers s Hwf) in Hin. destruct Hund9 as [Hc9 _].
      unfold advance. cbn [current]. rewrite Hc9. unfold k. lia.
Qed.

(** X23.  A submission that passes the configuration check and is left
    alone for ten seconds, without a response and without another
    submission: at that moment the callback of its timeout calls [abort] on
    its controller, whose signal is aborted from then on; the invocation is
    over, the loading flag is off and the message is "Request cancelled",
    the one outcome of the submission (it is the timeout that cancelled it,
    unless the timeout of an earlier submission was still armed and did so
    before; when none was, the error is shown at that moment); a response
    that arrives later changes nothing at all, and nothing but its timers
    ever acts in its name again. *)
Theorem unanswered_submission_is_cancelled_after_ten_seconds
  s env input API_BASE :
  reachable s -> configured env = Some API_BASE ->
  let k := S (current s) in
  let start := start_actions (current s) (clock s) API_BASE (trim input) in
  let s' := run [Submit env input; Elapse 10000] s in
  clock s' = (clock s + 10000)%N
  /\ In (mkEntry (clock s + 10000) k (CallAbort k)) (log s')
  /\ is_aborted k s' = true
  /\ tasks s' = []
  /\ loader (ui s') = false
  /\ errorMessage (ui s') = "Request cancelled"
  /\ (acts k s' =
        (start ++ [CallAbort k; Uncaught TIMED_OUT]
         ++ failure_report "Request cancelled" (clock s + 10000))%list
      \/ exists t, acts k s' =
                   (start ++ failure_report "Request cancelled" t
                    ++ [CallAbort k; Uncaught TIMED_OUT])%list)
  /\ ((forall tm, In tm (timers s) -> tm_kind tm = HideTimer) ->
      acts k s' =
        (start ++ [CallAbort k; Uncaught TIMED_OUT]
         ++ failure_report "Request cancelled" (clock s + 10000))%list
      /\ showError (ui s') = true)
  /\ (forall e, answers k e -> step e s' = s')
  /\ forall evs, exists later,
       acts k (run evs s') = (acts k s' ++ later)%list
       /\ Forall timer_callback_action later.
Proof.
  intros Hreach Hcfg k start s'. subst s'. cbn [run fold_left].
  pose proof (left_alone_shows s env input API_BASE Hreach Hcfg) as Hshown.
  pose proof (reachable_wf s Hreach) as Hwf.
  destruct (submit_waits env input s API_BASE Hwf Hcfg) as [Hwait [Hin Hclk]].
  pose proof (submit_undisturbed env input s API_BASE Hwf Hcfg) as Hund.
  pose proof (submit_sets_timeout env input s API_BASE Hwf Hcfg) as Hset.
  pose proof (submit_tasks env input s Hwf) as Hts. rewrite Hcfg in Hts.
  destruct (submit_started env input s Hwf) as [Hcur0 _].
  set (s0 := step (Submit env input) s) in *.
  assert (Hreach0 : reachable s0) by (apply reach_step; exact Hreach).
  assert (Hwf0 : wf s0) by (apply wf_step; exact Hwf).
  assert (Hbusy0 : tasks s0 <> []) by (rewrite Hts; discriminate).
  fold k in Hset, Hcur0. rewrite <- Hcur0, <- Hclk in Hset.
  destruct (deadline s0 (clock s0) TIMEOUT Hreach0 Hbusy0 Hset ltac:(lia))
    as [_ [_ [Hmsg Hld]]].
  pose proof (timed_out_after k (clock s) start s0 Hwf0 Hclk Hwait Hin)
    as [Hcur [Hnil [Hab [Hcall [_ Hacts]]]]].
  pose proof (fun Hhide =>
                cancelled_by_timeout_after k (clock s) start s0 Hwf0 Hclk
                  (Hund Hhide) Hin) as Hcan.
  change 10000%N with TIMEOUT.
  set (s1 := step (Elapse TIMEOUT) s0) in *.
  assert (Hwf1 : wf s1) by (apply wf_step; exact Hwf0).
  assert (Hclk1 : clock s1 = (clock s + TIMEOUT)%N).
  { unfold s1. rewrite clock_elapse by exact Hwf0. rewrite Hclk.
    reflexivity. }
  clearbody s1. clearbody s0.
  split; [exact Hclk1|].
  split; [exact Hcall|]. split; [exact Hab|]. split; [exact Hnil|].
  split; [exact Hld|]. split; [exact Hmsg|].
  split; [exact Hacts|].
  split; [intros Hhide; split; [apply (Hcan Hhide)|apply Hshown, Hhide]|].
  split.
  { intros e He. apply (late_answer_is_dropped e s1 k);
      [exact Hwf1|exact Hnil|exact He]. }
  intros evs. apply retired_run; [exact Hwf1|].
  right. split; [symmetry; exact Hcur|exact Hnil].
Qed.

(** X23 at a fresh page. *)
Lemma unanswered_submission_is_cancelled_after_ten_seconds_witness :
  reachable fresh_page /\ configured (Some CF) = Some CF
  /\ acts 1 (run [Submit (Some CF) "tourist"; Elapse 10000] fresh_page) =
     (start_actions 0 0 CF "tourist"
      ++ [CallAbort 1; Uncaught TIMED_OUT]
      ++ failure_report "Request cancelled" 10000)%list
  /\ showError
       (ui (run [Submit (Some CF) "tourist"; Elapse 10000] fresh_page)) = true
  /\ step (Body 1 UserInfo (ok_body (JArr [tourist])))
          (run [Submit (Some CF) "tourist"; Elapse 10000] fresh_page)
     = run [Submit (Some CF) "tourist"; Elapse 10000] fresh_page.
Proof.
  assert (H0 : reachable fresh_page) by apply reach_initial.
  assert (H1 : configured (Some CF) = Some CF) by reflexivity.
  split; [exact H0|]. split; [exact H1|].
  destruct (unanswered_submission_is_cancelled_after_ten_seconds
              fresh_page (Some CF) "tourist" CF H0 H1)
    as [_ [_ [_ [_ [_ [_ [_ [Htimer [Hdrop _]]]]]]]]].
  destruct (Htimer ltac:(intros tm [])) as [Hacts Hshown].
  split; [exact Hacts|]. split; [exact Hshown|].
  apply Hdrop. reflexivity.
Defined.

End Facts.
